(** * A shallow embedding of the livekit track-forwarding core

    The development follows the Go sources: the VP9 layer selector
    ([pkg/sfu/videolayerselector/vp9.go]), the stream tracker manager, the
    receiver and its down-track spreader, the RED encoder
    ([pkg/sfu/redreceiver.go]) and the signal relay
    ([pkg/routing/signal.go]).

    Fixed-width integers are carried by [Z] with the wrap-around of each
    operation written out; byte buffers are lists of [Z]; Go maps are
    [gmap]s.  The first part of the file holds the definitions, the second
    part the theorems. *)

From Stdlib Require Import ZArith Lia Bool.
From stdpp Require Import base option list gmap strings fin_maps sorting.

(** ** Machine integers *)

Module MachineInt.
Local Open Scope Z_scope.

Definition wrap_uint16 (x : Z) : Z := x mod 2 ^ 16.
Definition wrap_uint32 (x : Z) : Z := x mod 2 ^ 32.
Definition wrap_uint64 (x : Z) : Z := x mod 2 ^ 64.

(** Two's complement reading of the low 64 bits: Go's [int64(x)], and the
    result of every [int64] operation. *)
Definition wrap_int64 (x : Z) : Z := (x + 2 ^ 63) mod 2 ^ 64 - 2 ^ 63.

Definition minInt64 : Z := - 2 ^ 63.
Definition maxInt64 : Z := 2 ^ 63 - 1.

(** An integer that an [int64] holds. *)
Definition fitsInt64 (x : Z) : Prop := minInt64 <= x <= maxInt64.

End MachineInt.

(** ** Package buffer: video layers *)

Module buffer.
Local Open Scope Z_scope.

Record VideoLayer : Type := mkVideoLayer { Spatial : Z; Temporal : Z }.

Definition InvalidLayerSpatial : Z := -1.
Definition InvalidLayerTemporal : Z := -1.
Definition InvalidLayer : VideoLayer :=
  {| Spatial := InvalidLayerSpatial; Temporal := InvalidLayerTemporal |}.

Definition DefaultMaxLayerSpatial : Z := 2.
Definition DefaultMaxLayerTemporal : Z := 3.

(** Go's [==] on the struct. *)
Definition VideoLayer_eqb (a b : VideoLayer) : bool :=
  (Spatial a =? Spatial b) && (Temporal a =? Temporal b).

(** Modelled from the spec: [VideoLayer.IsValid] lives in package buffer,
    whose source is not part of the tree; the spec gives the sentinel
    [InvalidLayer = {-1,-1}], and a layer is valid when neither coordinate
    is the sentinel's. *)
Definition IsValid (v : VideoLayer) : bool :=
  negb (Spatial v =? InvalidLayerSpatial) && negb (Temporal v =? InvalidLayerTemporal).

(** Modelled from the spec: [VideoLayer.GreaterThan] lives in package
    buffer; the spec says that comparisons are lexicographic on
    (spatial, temporal). *)
Definition GreaterThan (v v2 : VideoLayer) : bool :=
  (Spatial v2 <? Spatial v) || ((Spatial v =? Spatial v2) && (Temporal v2 <? Temporal v)).

End buffer.

(** ** Package codecs: the VP9 payload descriptor flags read by the selector *)

Module codecs.

Record VP9Packet : Type := mkVP9Packet {
  P : bool;  (* inter-picture predicted *)
  E : bool;  (* end of picture *)
  B : bool;  (* begin of picture *)
  U : bool   (* switching up point *)
}.

End codecs.

(** ** The VP9 layer selector *)

Module videolayerselector.
Local Open Scope Z_scope.
Import buffer.

(** [ExtPacket.Payload] is an [interface{}]; [Select] asserts it to a
    [codecs.VP9Packet]. *)
Inductive PayloadDescriptor : Type :=
| PayloadVP9 (vp9 : codecs.VP9Packet)
| PayloadOther.

Record ExtPacket : Type := mkExtPacket {
  KeyFrame : bool;
  VideoLayer_ : VideoLayer;
  Marker : bool;
  Payload : PayloadDescriptor
}.

(** The fields of [Base] that [VP9.Select] reads or writes. *)
Record Base : Type := mkBase {
  currentLayer : VideoLayer;
  targetLayer : VideoLayer;
  requestSpatial : Z;
  maxLayer : VideoLayer;
  maxSeenLayer : VideoLayer
}.

Record VideoLayerSelectorResult : Type := mkResult {
  IsSelected : bool;
  IsRelevant : bool;
  IsSwitchingToRequestSpatial : bool;
  IsSwitchingToMaxSpatial : bool;
  RTPMarker : bool;
  IsResuming : bool
}.

Definition zeroResult : VideoLayerSelectorResult :=
  mkResult false false false false false false.

Definition withCurrentLayer (v : Base) (l : VideoLayer) : Base :=
  mkBase l (targetLayer v) (requestSpatial v) (maxLayer v) (maxSeenLayer v).

Section Select.

(** [VideoLayer.IsValid] is taken as a parameter of the selector: its
    source is not in the tree. *)
Variable isValid : VideoLayer -> bool.

(** The temporal part of the update of a valid current layer: the pair is
    ([currentLayer], [updatedLayer]) of the source, both starting from
    [v.currentLayer]. *)
Definition temporalStep (v : Base) (extPkt : ExtPacket) (vp9 : codecs.VP9Packet)
    (cu : VideoLayer * VideoLayer) : VideoLayer * VideoLayer :=
  let (cur, upd) := cu in
  if negb (Temporal (currentLayer v) =? Temporal (targetLayer v)) then
    if Temporal (currentLayer v) <? Temporal (targetLayer v) then
      (* temporal scale up *)
      if (Temporal (currentLayer v) <? Temporal (VideoLayer_ extPkt))
         && (Temporal (VideoLayer_ extPkt) <=? Temporal (targetLayer v))
         && codecs.U vp9 && codecs.B vp9
      then (mkVideoLayer (Spatial cur) (Temporal (VideoLayer_ extPkt)),
            mkVideoLayer (Spatial upd) (Temporal (VideoLayer_ extPkt)))
      else (cur, upd)
    else
      (* temporal scale down *)
      if codecs.E vp9
      then (cur, mkVideoLayer (Spatial upd) (Temporal (targetLayer v)))
      else (cur, upd)
  else (cur, upd).

Definition spatialStep (v : Base) (extPkt : ExtPacket) (vp9 : codecs.VP9Packet)
    (cu : VideoLayer * VideoLayer) : VideoLayer * VideoLayer :=
  let (cur, upd) := cu in
  if negb (Spatial (currentLayer v) =? Spatial (targetLayer v)) then
    if Spatial (currentLayer v) <? Spatial (targetLayer v) then
      (* spatial scale up *)
      if (Spatial (currentLayer v) <? Spatial (VideoLayer_ extPkt))
         && (Spatial (VideoLayer_ extPkt) <=? Spatial (targetLayer v))
         && negb (codecs.P vp9) && codecs.B vp9
      then (mkVideoLayer (Spatial (VideoLayer_ extPkt)) (Temporal cur),
            mkVideoLayer (Spatial (VideoLayer_ extPkt)) (Temporal upd))
      else (cur, upd)
    else
      (* spatial scale down *)
      if codecs.E vp9
      then (cur, mkVideoLayer (Spatial (targetLayer v)) (Temporal upd))
      else (cur, upd)
  else (cur, upd).

(** The tail of [Select], after the layer update: marker, selection. *)
Definition selectTail (v : Base) (extPkt : ExtPacket) (vp9 : codecs.VP9Packet)
    (cur : VideoLayer) (result : VideoLayerSelectorResult) : VideoLayerSelectorResult :=
  let marker :=
    if codecs.E vp9 && (Spatial (VideoLayer_ extPkt) =? Spatial cur)
       && (codecs.P vp9 || (Spatial (targetLayer v) <=? Spatial (currentLayer v)))
    then true else Marker extPkt in
  mkResult (negb (GreaterThan (VideoLayer_ extPkt) cur)) true
           (IsSwitchingToRequestSpatial result) (IsSwitchingToMaxSpatial result)
           marker (IsResuming result).

(** The block guarded by [updatedLayer != v.currentLayer]. *)
Definition commitLayer (v : Base) (upd : VideoLayer) : Base * VideoLayerSelectorResult :=
  if negb (VideoLayer_eqb upd (currentLayer v)) then
    (withCurrentLayer v upd,
     mkResult false false
       (negb (Spatial (currentLayer v) =? requestSpatial v) && (Spatial upd =? requestSpatial v))
       (negb (Spatial (currentLayer v) =? Spatial (maxLayer v)) && (Spatial upd =? Spatial (maxLayer v)))
       false
       (negb (isValid (currentLayer v)) && isValid upd))
  else (v, zeroResult).

(** [func (v *VP9) Select(extPkt, _layer) (result VideoLayerSelectorResult)]:
    the selector after the call, and the result. *)
Definition Select (v : Base) (extPkt : ExtPacket) : Base * VideoLayerSelectorResult :=
  match Payload extPkt with
  | PayloadOther => (v, zeroResult)
  | PayloadVP9 vp9 =>
    if negb (VideoLayer_eqb (currentLayer v) (targetLayer v)) then
      if negb (isValid (currentLayer v)) then
        if negb (KeyFrame extPkt) then (v, zeroResult)
        else
          let (v', result) := commitLayer v (VideoLayer_ extPkt) in
          (v', selectTail v' extPkt vp9 (currentLayer v) result)
      else
        let (cur, upd) :=
          spatialStep v extPkt vp9
            (temporalStep v extPkt vp9 (currentLayer v, currentLayer v)) in
        let (v', result) := commitLayer v upd in
        (v', selectTail v' extPkt vp9 cur result)
    else (v, selectTail v extPkt vp9 (currentLayer v) zeroResult)
  end.

End Select.

End videolayerselector.

(** ** The stream tracker manager *)

Module streamtrackermanager.
Local Open Scope Z_scope.
Import MachineInt.

(** [type Bitrates [DefaultMaxLayerSpatial+1][DefaultMaxLayerTemporal+1]int64]:
    a list of rows, one per spatial layer, each a list of [int64]. *)
Definition numSpatial : nat := Z.to_nat (buffer.DefaultMaxLayerSpatial + 1).
Definition numTemporal : nat := Z.to_nat (buffer.DefaultMaxLayerTemporal + 1).

(** [var br Bitrates]: the zero value. *)
Definition zeroBitrates : list (list Z) := replicate numSpatial (replicate numTemporal 0).

(** [br[i][j]], and the assignment [br[i][j] = x]. *)
Definition getBr (br : list (list Z)) (i j : nat) : Z :=
  default 0 (br !! i ≫= (.!! j)).
Definition setBr (br : list (list Z)) (i j : nat) (x : Z) : list (list Z) :=
  alter (<[j := x]>) i br.

(** Of a [streamtracker.StreamTracker] the manager reads the slice returned
    by [BitrateTemporalCumulative()]; the tracker's own source is not in
    the tree, so the slice is carried as data. *)
Record StreamTracker : Type := mkStreamTracker {
  BitrateTemporalCumulative : list Z
}.

(** [buffer.RTCPSenderReportData]: the NTP timestamp is a 64-bit
    [NtpTime], the RTP timestamp a [uint32]. *)
Record RTCPSenderReportData : Type := mkSenderReport {
  NTPTimestamp : Z;
  RTPTimestamp : Z
}.

Record StreamTrackerManager : Type := mkStreamTrackerManager {
  isSVC : bool;
  clockRate : Z;
  maxPublishedLayer : Z;
  maxTemporalLayerSeen : Z;
  trackers : list (option StreamTracker);
  availableLayers : list Z;
  senderReports : list (option RTCPSenderReportData)
}.

Definition hasSpatialLayerLocked (s : StreamTrackerManager) (layer : Z) : bool :=
  existsb (fun l => l =? layer) (availableLayers s).

(** [for j := 0; j < len(br[i]); j++ { br[i][j] = tls[j] }], the counter
    running over [n] columns from [j].  The tracker's slice has one entry
    per temporal layer, so [tls[j]] is in range; a missing entry reads 0
    here. *)
Fixpoint fillRow (br : list (list Z)) (tls : list Z) (i j n : nat) : list (list Z) :=
  match n with
  | O => br
  | S n' => fillRow (setBr br i j (default 0 (tls !! j))) tls i (S j) n'
  end.

(** [for i, tracker := range s.trackers { if tracker != nil { ... } }]. *)
Fixpoint fillTrackers (s : StreamTrackerManager) (br : list (list Z))
    (i : nat) (ts : list (option StreamTracker)) : list (list Z) :=
  match ts with
  | [] => br
  | None :: ts' => fillTrackers s br (S i) ts'
  | Some tracker :: ts' =>
    let tls :=
      if hasSpatialLayerLocked s (Z.of_nat i)
      then BitrateTemporalCumulative tracker
      else replicate numTemporal 0 in
    fillTrackers s (fillRow br tls i 0 (length (default [] (br !! i)))) (S i) ts'
  end.

(** [for k := i - 1; k >= 0; k-- { br[i][j] += br[k][j] }]; [k] counts the
    rows still to add, the next one being row [k - 1]. *)
Fixpoint addLowerRows (br : list (list Z)) (i j k : nat) : list (list Z) :=
  match k with
  | O => br
  | S k' => addLowerRows (setBr br i j (wrap_int64 (getBr br i j + getBr br k' j))) i j k'
  end.

(** [for j := len(br[i]) - 1; j >= 0; j-- { if br[i][j] != 0 { ... } }]. *)
Fixpoint accumulateColumns (br : list (list Z)) (i j : nat) : list (list Z) :=
  match j with
  | O => br
  | S j' =>
    accumulateColumns
      (if negb (getBr br i j' =? 0) then addLowerRows br i j' i else br) i j'
  end.

(** [for i := len(br) - 1; i >= 1; i-- { ... }]; called with that first
    [i], the loop ends at row 0, which is left as it is. *)
Fixpoint accumulateRows (br : list (list Z)) (i : nat) : list (list Z) :=
  match i with
  | O => br
  | S i' => accumulateRows (accumulateColumns br i (length (default [] (br !! i)))) i'
  end.

(** [getLayeredBitrateLocked]: the copy of the available layers and the
    bitrate matrix. *)
Definition getLayeredBitrateLocked (s : StreamTrackerManager) : list Z * list (list Z) :=
  let br := fillTrackers s zeroBitrates 0 (trackers s) in
  let br := if isSVC s then accumulateRows br (length br - 1) else br in
  (availableLayers s, br).

Definition GetLayeredBitrate (s : StreamTrackerManager) : list Z * list (list Z) :=
  getLayeredBitrateLocked s.

(** The sum of column [j] over the rows below row [k]. *)
Fixpoint colSum (br : list (list Z)) (j k : nat) : Z :=
  match k with
  | O => 0
  | S k' => getBr br k' j + colSum br j k'
  end.

(** Every figure a tracker reports is a byte rate: not negative, and far
    below the range of an [int64]. *)
Definition bitrateBounded (v : Z) : bool := (0 <=? v) && (v <? 2 ^ 61).

Definition trackerBitratesBounded (s : StreamTrackerManager) : bool :=
  forallb
    (fun o : option StreamTracker =>
       match o with
       | Some tracker => forallb bitrateBounded (BitrateTemporalCumulative tracker)
       | None => true
       end)
    (trackers s).

Definition GetMaxPublishedLayer (s : StreamTrackerManager) : Z := maxPublishedLayer s.
Definition GetMaxTemporalLayerSeen (s : StreamTrackerManager) : Z := maxTemporalLayerSeen s.

Definition withSenderReports (s : StreamTrackerManager)
    (srs : list (option RTCPSenderReportData)) : StreamTrackerManager :=
  mkStreamTrackerManager (isSVC s) (clockRate s) (maxPublishedLayer s)
    (maxTemporalLayerSeen s) (trackers s) (availableLayers s) srs.

(** [SetRTCPSenderReportData]: layers outside the array are ignored.  A
    nil report pointer is [None]. *)
Definition SetRTCPSenderReportData (s : StreamTrackerManager) (layer : Z)
    (senderReport : option RTCPSenderReportData) : StreamTrackerManager :=
  if (layer <? 0) || (Z.of_nat (length (senderReports s)) <=? layer) then s
  else withSenderReports s (<[Z.to_nat layer := senderReport]> (senderReports s)).

(** The three [fmt.Errorf] results of [GetReferenceLayerRTPTimestamp], with
    the values they format. *)
Inductive tsError : Type :=
| ErrInvalidLayer (target reference : Z)
    (* "invalid layer, target: %d, reference: %d" *)
| ErrLayerSenderReportNotAvailable (layer : Z)
    (* "layer rtcp sender report not available: %d" *)
| ErrReferenceLayerSenderReportNotAvailable (referenceLayer : Z)
    (* "reference layer rtcp sender report not available: %d" *).

(** An error whose text says "not available". *)
Definition isNotAvailable (e : tsError) : bool :=
  match e with
  | ErrInvalidLayer _ _ => false
  | ErrLayerSenderReportNotAvailable _ => true
  | ErrReferenceLayerSenderReportNotAvailable _ => true
  end.

(** [time.Time.Sub] on two wall-clock instants given in nanoseconds: the
    difference, saturated to the range of a [time.Duration]. *)
Definition Time_Sub (t u : Z) : Z :=
  Z.max minInt64 (Z.min maxInt64 (t - u)).

(** The sender report of a layer that passed the sign check: nil when the
    index is outside the array. *)
Definition senderReportOf (s : StreamTrackerManager) (layer : Z) : option RTCPSenderReportData :=
  if layer <? Z.of_nat (length (senderReports s))
  then mjoin (senderReports s !! Z.to_nat layer)
  else None.

Section ReferenceTimestamp.

(** [NtpTime.Time()] belongs to an external package
    (mediatransportutil); it is a parameter here: the wall-clock instant
    of a 64-bit NTP timestamp, in nanoseconds. *)
Variable NtpTime_Time : Z -> Z.

(** [ntpDiff.Nanoseconds() * int64(s.clockRate) / 1e9]: an [int64]
    product, then Go's truncated division. *)
Definition rtpDiffOf (s : StreamTrackerManager) (srLayer srRef : RTCPSenderReportData) : Z :=
  let ntpDiff := Time_Sub (NtpTime_Time (NTPTimestamp srRef)) (NtpTime_Time (NTPTimestamp srLayer)) in
  Z.quot (wrap_int64 (ntpDiff * clockRate s)) 1000000000.

Definition GetReferenceLayerRTPTimestamp (s : StreamTrackerManager)
    (ts layer referenceLayer : Z) : Z + tsError :=
  if (layer <? 0) || (referenceLayer <? 0) then inr (ErrInvalidLayer layer referenceLayer)
  else
    match senderReportOf s layer with
    | None => inr (ErrLayerSenderReportNotAvailable layer)
    | Some srLayer =>
      if NTPTimestamp srLayer =? 0 then inr (ErrLayerSenderReportNotAvailable layer)
      else
        match senderReportOf s referenceLayer with
        | None => inr (ErrReferenceLayerSenderReportNotAvailable referenceLayer)
        | Some srRef =>
          if NTPTimestamp srRef =? 0
          then inr (ErrReferenceLayerSenderReportNotAvailable referenceLayer)
          else
            let rtpDiff := rtpDiffOf s srLayer srRef in
            let normalizedTS := wrap_uint32 (RTPTimestamp srLayer + wrap_uint32 rtpDiff) in
            inl (wrap_uint32 (ts + wrap_uint32 (RTPTimestamp srRef - normalizedTS)))
        end
    end.

End ReferenceTimestamp.

(** The mapping in the words of the specification,
    [ts + (RTP_ref - (RTP_layer + (NTP_ref - NTP_layer) * clockRate))]
    modulo 2^32: the NTP difference is taken in nanoseconds on the
    unbounded integers, and the product is brought to RTP ticks by a
    division by 10^9 that truncates. *)
Definition referenceTimestampSpec (NtpTime_Time : Z -> Z) (clockRate ts : Z)
    (srLayer srRef : RTCPSenderReportData) : Z :=
  (ts + (RTPTimestamp srRef
         - (RTPTimestamp srLayer
            + Z.quot ((NtpTime_Time (NTPTimestamp srRef) - NtpTime_Time (NTPTimestamp srLayer))
                      * clockRate) 1000000000))) mod 2 ^ 32.

(** *** Available layers, expectations, the temporal layers seen *)

(** The calls the manager makes on its listener. *)
Inductive listenerCall : Type :=
| OnAvailableLayersChanged
| OnMaxAvailableLayerChanged (maxAvailableLayer : Z)
| OnMaxTemporalLayerSeenChanged (maxTemporalLayerSeen : Z)
| OnBitrateReport (availableLayers : list Z) (bitrates : list (list Z)).

(** [sort.Slice(layers, func(i, j int) bool { return layers[i] < layers[j] })]:
    the ascending arrangement of the layers. *)
Definition sortLayers (layers : list Z) : list Z := merge_sort Z.le layers.

(** The last of the layers, [InvalidLayerSpatial] when there is none. *)
Definition lastLayer (layers : list Z) : Z :=
  default buffer.InvalidLayerSpatial (last layers).

Definition withAvailableLayers (s : StreamTrackerManager) (al : list Z) : StreamTrackerManager :=
  mkStreamTrackerManager (isSVC s) (clockRate s) (maxPublishedLayer s)
    (maxTemporalLayerSeen s) (trackers s) al (senderReports s).

Definition withMaxTemporalLayerSeen (s : StreamTrackerManager) (t : Z) : StreamTrackerManager :=
  mkStreamTrackerManager (isSVC s) (clockRate s) (maxPublishedLayer s)
    t (trackers s) (availableLayers s) (senderReports s).

(** [addAvailableLayer]: the manager afterwards, and the calls made on the
    listener; [hasListener] says that a listener is set. *)
Definition addAvailableLayer (s : StreamTrackerManager) (hasListener : bool) (layer : Z)
    : StreamTrackerManager * list listenerCall :=
  let hasLayer := existsb (fun l => l =? layer) (availableLayers s) in
  if hasLayer then (s, [])
  else
    let al := sortLayers (availableLayers s ++ [layer]) in
    (* check if new layer is the max layer *)
    let isMaxLayerChange := lastLayer al =? layer in
    (withAvailableLayers s al,
     if hasListener
     then OnAvailableLayersChanged
          :: (if isMaxLayerChange then [OnMaxAvailableLayerChanged layer] else [])
     else []).

(** [removeAvailableLayer]. *)
Definition removeAvailableLayer (s : StreamTrackerManager) (hasListener : bool) (layer : Z)
    : StreamTrackerManager * list listenerCall :=
  let prevMaxLayer := lastLayer (availableLayers s) in
  let newLayers := sortLayers (filter (fun l => l <> layer) (availableLayers s)) in
  let curMaxLayer := lastLayer newLayers in
  (withAvailableLayers s newLayers,
   if hasListener
   then OnAvailableLayersChanged
        :: (if negb (curMaxLayer =? prevMaxLayer)
            then [OnMaxAvailableLayerChanged curMaxLayer] else [])
   else []).

(** The layers are in ascending order, none twice. *)
Definition layersAscending (layers : list Z) : bool :=
  bool_decide (Sorted Z.lt layers).

(** The fields of the manager that hold what is expected of the
    publisher, next to the fields above. *)
Record ManagerControl : Type := mkControl {
  manager : StreamTrackerManager;
  maxExpectedLayer : Z;
  paused : bool
}.

(** The loop of [SetMaxExpectedSpatialLayer] over the layers from [l] on,
    [n] of them: the layers whose tracker is to be reset, or [None] for
    the run-time panic of an index outside the array [s.trackers], which
    has [DefaultMaxLayerSpatial + 1] entries. *)
Fixpoint trackersToReset (s : StreamTrackerManager) (l : Z) (n : nat) : option (list Z) :=
  match n with
  | O => Some []
  | S n' =>
    if hasSpatialLayerLocked s l then trackersToReset s (l + 1) n'
    else if (l <? 0) || (Z.of_nat numSpatial <=? l) then None
    else
      match mjoin (trackers s !! Z.to_nat l) with
      | Some _ => cons l <$> trackersToReset s (l + 1) n'
      | None => trackersToReset s (l + 1) n'
      end
  end.

(** [SetMaxExpectedSpatialLayer]: the manager afterwards, the former
    expectation that is returned, and the layers whose tracker is reset. *)
Definition SetMaxExpectedSpatialLayer (c : ManagerControl) (layer : Z)
    : option (ManagerControl * Z * list Z) :=
  let prev := maxExpectedLayer c in
  if layer <=? maxExpectedLayer c then
    (* some higher layer(s) expected to stop, nothing else to do *)
    Some (mkControl (manager c) layer (paused c), prev, [])
  else
    match trackersToReset (manager c) (maxExpectedLayer c + 1)
            (Z.to_nat (layer - maxExpectedLayer c)) with
    | None => None
    | Some resets => Some (mkControl (manager c) layer (paused c), prev, resets)
    end.

(** [for s := len(brs) - 1; s >= 0; s-- { if brs[s][t] != 0 { ... } }]. *)
Fixpoint anySpatialNonZero (brs : list (list Z)) (t sp : nat) : bool :=
  match sp with
  | O => false
  | S sp' => negb (getBr brs sp' t =? 0) || anySpatialNonZero brs t sp'
  end.

(** [for t := len(brs[0]) - 1; t >= 0; t-- { ... }]: the highest temporal
    layer with a non-zero cell, [InvalidLayerTemporal] without one. *)
Fixpoint highestTemporal (brs : list (list Z)) (t : nat) : Z :=
  match t with
  | O => buffer.InvalidLayerTemporal
  | S t' =>
    if anySpatialNonZero brs t' (length brs) then Z.of_nat t' else highestTemporal brs t'
  end.

(** [updateMaxTemporalLayerSeen]. *)
Definition updateMaxTemporalLayerSeen (s : StreamTrackerManager) (hasListener : bool)
    (brs : list (list Z)) : StreamTrackerManager * list listenerCall :=
  let maxTemporalLayerSeen' := highestTemporal brs (length (default [] (brs !! 0%nat))) in
  if maxTemporalLayerSeen' <=? maxTemporalLayerSeen s then (s, [])
  else
    (withMaxTemporalLayerSeen s maxTemporalLayerSeen',
     if hasListener then [OnMaxTemporalLayerSeenChanged maxTemporalLayerSeen'] else []).

(** One tick of [bitrateReporter]. *)
Definition bitrateTick (s : StreamTrackerManager) (hasListener : bool)
    : StreamTrackerManager * list listenerCall :=
  let (al, brs) := GetLayeredBitrate s in
  let (s', calls) := updateMaxTemporalLayerSeen s hasListener brs in
  (s', calls ++ (if hasListener then [OnBitrateReport al brs] else [])).

(** A matrix with the dimensions of the array type [Bitrates]. *)
Definition isBitrates (brs : list (list Z)) : bool :=
  bool_decide (length <$> brs = replicate numSpatial numTemporal).

(** A clock for the worked examples, the usual reading of a 64-bit NTP
    timestamp: whole seconds in the high 32 bits, the fraction of a second
    in units of 2^-32 s in the low 32 bits, brought to the nearest
    nanosecond.  The epoch plays no part in a difference of instants. *)
Definition ntpClock (ntp : Z) : Z :=
  let sec := Z.shiftr ntp 32 * 1000000000 in
  let frac := Z.land ntp (2 ^ 32 - 1) * 1000000000 in
  sec + Z.shiftr frac 32 + (if 2 ^ 31 <=? frac mod 2 ^ 32 then 1 else 0).

(** The NTP timestamp of a number of whole seconds and a fraction. *)
Definition ntpOf (seconds fraction : Z) : Z := seconds * 2 ^ 32 + fraction.

End streamtrackermanager.

(** ** The down-track spreader *)

Module downtrackspreader.

(** A [TrackSender] interface value: the subscriber id it answers with,
    and a tag that tells apart two senders of the same subscriber. *)
Record TrackSender : Type := mkTrackSender {
  SubscriberID : string;
  senderTag : nat
}.

Record DownTrackSpreader : Type := mkSpreader {
  downTracks : gmap string TrackSender;
  downTracksShadow : list TrackSender
}.

Definition NewDownTrackSpreader : DownTrackSpreader := mkSpreader ∅ [].

(** [shadowDownTracks]: the shadow slice is rebuilt from the map.  Go
    ranges over a map in no fixed order; [map_to_list] fixes one. *)
Definition shadowDownTracks (d : DownTrackSpreader) : DownTrackSpreader :=
  mkSpreader (downTracks d) ((map_to_list (downTracks d)).*2).

Definition GetDownTracks (d : DownTrackSpreader) : list TrackSender := downTracksShadow d.

Definition ResetAndGetDownTracks (d : DownTrackSpreader) : DownTrackSpreader * list TrackSender :=
  (mkSpreader ∅ [], downTracksShadow d).

Definition Store (d : DownTrackSpreader) (ts : TrackSender) : DownTrackSpreader :=
  shadowDownTracks (mkSpreader (<[SubscriberID ts := ts]> (downTracks d)) (downTracksShadow d)).

Definition Free (d : DownTrackSpreader) (subscriberID : string) : DownTrackSpreader :=
  shadowDownTracks (mkSpreader (delete subscriberID (downTracks d)) (downTracksShadow d)).

Definition HasDownTrack (d : DownTrackSpreader) (subscriberID : string) : bool :=
  bool_decide (is_Some (downTracks d !! subscriberID)).

Definition DownTrackCount (d : DownTrackSpreader) : nat := length (downTracksShadow d).

End downtrackspreader.

(** ** The receiver: adding and deleting down tracks *)

Module receiver.
Import downtrackspreader.

Inductive receiverError : Type :=
| ErrReceiverClosed
| ErrDownTrackAlreadyExist
| ErrBufferNotFound.

(** What [AddDownTrack] does to the outside, in program order: calls on
    the sender, the log line, the store into the spreader. *)
Inductive effect : Type :=
| LogReplacingDownTrack (subscriberID : string)
| TrackInfoAvailable (track : TrackSender)
| UpTrackMaxPublishedLayerChange (track : TrackSender) (maxPublishedLayer : Z)
| UpTrackMaxTemporalLayerSeenChange (track : TrackSender) (maxTemporalLayerSeen : Z)
| SpreaderStore (track : TrackSender)
| SpreaderFree (subscriberID : string).

Record WebRTCReceiver : Type := mkReceiver {
  closed : bool;
  streamTrackerManager : streamtrackermanager.StreamTrackerManager;
  downTrackSpreader : DownTrackSpreader;
  effects : list effect
}.

Definition withSpreader (w : WebRTCReceiver) (d : DownTrackSpreader) (es : list effect) : WebRTCReceiver :=
  mkReceiver (closed w) (streamTrackerManager w) d (effects w ++ es).

(** [func (w *WebRTCReceiver) AddDownTrack(track TrackSender) error];
    [None] is the nil error. *)
Definition AddDownTrack (w : WebRTCReceiver) (track : TrackSender)
    : WebRTCReceiver * option receiverError :=
  if closed w then (w, Some ErrReceiverClosed)
  else
    let logged :=
      if HasDownTrack (downTrackSpreader w) (SubscriberID track)
      then [LogReplacingDownTrack (SubscriberID track)] else [] in
    let notified :=
      [ TrackInfoAvailable track;
        UpTrackMaxPublishedLayerChange track
          (streamtrackermanager.GetMaxPublishedLayer (streamTrackerManager w));
        UpTrackMaxTemporalLayerSeenChange track
          (streamtrackermanager.GetMaxTemporalLayerSeen (streamTrackerManager w)) ] in
    (withSpreader w (Store (downTrackSpreader w) track)
       (logged ++ notified ++ [SpreaderStore track]),
     None).

(** [func (w *WebRTCReceiver) DeleteDownTrack(subscriberID)]: the Go
    function has no result. *)
Definition DeleteDownTrack (w : WebRTCReceiver) (subscriberID : string) : WebRTCReceiver :=
  if closed w then w
  else withSpreader w (Free (downTrackSpreader w) subscriberID) [SpreaderFree subscriberID].

End receiver.

(** ** The RED encoder *)

Module redreceiver.
Local Open Scope Z_scope.
Import MachineInt.

Definition maxRedCount : nat := 2.
Definition mtuSize : nat := 1500.
Definition opusPT : Z := 111.

(** [rtp.Packet]: the header fields the encoder reads, and the payload
    bytes. *)
Record Packet : Type := mkPacket {
  SequenceNumber : Z;   (* uint16 *)
  Timestamp : Z;        (* uint32 *)
  PayloadType : Z;
  Payload : list Z      (* bytes *)
}.

Inductive redError : Type :=
| ErrRedNoSpace (needsize : nat)
    (* "red payload don't have enough space, needsize %d" *)
| PanicIndexOutOfRange
    (* the run-time panic of [redPayload[index] = ...] on a buffer too short *).

(** The fields of [RedReceiver] the encoder works on: the history of
    primary packets ([nil] is [None]) and the scratch buffer. *)
Record RedReceiver : Type := mkRedReceiver {
  pktBuff : list (option Packet);
  redPayloadBuf : list Z;
  downTrackCount : nat
}.

Definition NewRedReceiver : RedReceiver :=
  mkRedReceiver (replicate maxRedCount None) (replicate mtuSize 0) 0.

(** *** The package-level [encodeRedForPrimary] *)

(** [payloadSize := len(primary.Payload) + 1;
     for _, p := range redPkts { payloadSize += len(p.Payload) + 4 }]. *)
Fixpoint addBlockSizes (payloadSize : nat) (redPkts : list Packet) : nat :=
  match redPkts with
  | [] => payloadSize
  | p :: rest => addBlockSizes (payloadSize + (length (Payload p) + 4))%nat rest
  end.

(** The 32-bit header of a redundancy block, built as the source builds
    it: shifts and ors on a [uint32]. *)
Definition redBlockHeader (primary p : Packet) : Z :=
  let header := Z.lor 128 opusPT in
  let header := wrap_uint32 (Z.shiftl header 14) in
  let header := Z.lor header (Z.land (wrap_uint32 (Timestamp primary - Timestamp p)) 16383) in
  let header := wrap_uint32 (Z.shiftl header 10) in
  Z.lor header (Z.land (wrap_uint32 (Z.of_nat (length (Payload p)))) 1023).

(** [binary.BigEndian.PutUint32(b[index:], v)]. *)
Definition bigEndian32 (v : Z) : list Z :=
  [ Z.shiftr v 24 mod 256; Z.shiftr v 16 mod 256; Z.shiftr v 8 mod 256; v mod 256 ].

Definition PutUint32 (b : list Z) (index : nat) (v : Z) : list Z :=
  <[(index + 3)%nat := v mod 256]>
    (<[(index + 2)%nat := Z.shiftr v 8 mod 256]>
      (<[(index + 1)%nat := Z.shiftr v 16 mod 256]>
        (<[index := Z.shiftr v 24 mod 256]> b))).

(** The loop that writes one header per redundancy block. *)
Fixpoint writeHeaders (redPayload : list Z) (primary : Packet) (redPkts : list Packet)
    (index : nat) : list Z * nat :=
  match redPkts with
  | [] => (redPayload, index)
  | p :: rest =>
    writeHeaders (PutUint32 redPayload index (redBlockHeader primary p)) primary rest (index + 4)%nat
  end.

(** Go's [copy(dst[index:], src)]: the buffer after the copy and the
    number of bytes copied, the smaller of the two lengths. *)
Definition copy (dst : list Z) (index : nat) (src : list Z) : list Z * nat :=
  let n := Nat.min (length dst - index) (length src) in
  (take index dst ++ take n src ++ drop (index + n) dst, n).

(** The loop that appends the data blocks; it stops with an error at the
    first payload that does not fit. *)
Fixpoint copyBlocks (redPayload : list Z) (pkts : list Packet) (index : nat)
    : list Z * (nat + redError) :=
  match pkts with
  | [] => (redPayload, inl index)
  | p :: rest =>
    let (buf, n) := copy redPayload index (Payload p) in
    if decide (n < length (Payload p))%nat
    then (buf, inr (ErrRedNoSpace (length (Payload p))))
    else copyBlocks buf rest (index + length (Payload p))%nat
  end.

(** The redundancy that is encoded: none when the required size is larger
    than the buffer. *)
Definition encodedRedPkts (redPkts : list Packet) (primary : Packet) (redPayload : list Z)
    : list Packet :=
  let payloadSize := addBlockSizes (length (Payload primary) + 1)%nat redPkts in
  if decide (length redPayload < payloadSize)%nat then [] else redPkts.

(** [func encodeRedForPrimary(redPkts, primary, redPayload) (int, error)]:
    the buffer after the call, and the length or the error. *)
Definition encodeRedForPrimary (redPkts : list Packet) (primary : Packet) (redPayload : list Z)
    : list Z * (nat + redError) :=
  let redPkts := encodedRedPkts redPkts primary redPayload in
  let (buf, index) := writeHeaders redPayload primary redPkts 0 in
  (* last block header *)
  if decide (index < length buf)%nat then
    let buf := <[index := opusPT mod 256]> buf in
    (* append data blocks *)
    copyBlocks buf (redPkts ++ [primary]) (index + 1)%nat
  else (buf, inr PanicIndexOutOfRange).

(** *** The RFC 2198 layout, by position *)

(** The bytes [xs] laid over [buf] from [index] on. *)
Definition splice (buf : list Z) (index : nat) (xs : list Z) : list Z :=
  take index buf ++ xs ++ drop (index + length xs) buf.

(** A 32-bit header block read as a number: F (1 bit), block PT (7 bits),
    timestamp offset (14 bits), block length (10 bits), from the most
    significant bit down. *)
Definition redHeaderWord (f pt tsOffset blockLength : Z) : Z :=
  f * 2 ^ 31 + pt * 2 ^ 24 + tsOffset * 2 ^ 10 + blockLength.

(** The timestamp of the primary packet minus the one of the redundant
    packet, on 14 bits; the length of the redundant payload, on 10 bits. *)
Definition timestampOffset14 (primary p : Packet) : Z :=
  (Timestamp primary - Timestamp p) mod 2 ^ 14.
Definition blockLength10 (p : Packet) : Z :=
  Z.of_nat (length (Payload p)) mod 2 ^ 10.

(** The last header block: one byte, F = 0 and the payload type. *)
Definition redLastHeader (pt : Z) : Z := 0 * 2 ^ 7 + pt.

(** [[hdr block]*N [primary-pt byte] [redundancy blocks] [primary payload]]. *)
Definition redLayout (primary : Packet) (reds : list Packet) : list Z :=
  flat_map
    (fun p => bigEndian32 (redHeaderWord 1 opusPT (timestampOffset14 primary p) (blockLength10 p)))
    reds
  ++ [redLastHeader opusPT]
  ++ flat_map Payload reds
  ++ Payload primary.

(** The sum of the payload lengths. *)
Definition payloadBytes (pkts : list Packet) : nat := length (flat_map Payload pkts).

(** *** The method [RedReceiver.encodeRedForPrimary] *)

(** [for i := redLength - 1; i >= 0; i-- { if r.pktBuff[i] == nil
    { lastNilPkt = i; break } }]; [i] counts the slots still to look at. *)
Fixpoint lastNilPkt (pktBuff : list (option Packet)) (i : nat) : Z :=
  match i with
  | O => -1
  | S i' =>
    match pktBuff !! i' with
    | Some None => Z.of_nat i'
    | _ => lastNilPkt pktBuff i'
    end
  end.

(** The test that skips a history packet. *)
Definition skipsRedundancy (redLength : nat) (pkt prev : Packet) : bool :=
  (SequenceNumber pkt =? SequenceNumber prev)
  || (wrap_uint16 (Z.of_nat redLength) <? wrap_uint16 (SequenceNumber pkt - SequenceNumber prev))
  || (2 ^ 14 <=? wrap_uint32 (Timestamp pkt - Timestamp prev)).

(** [for _, prev := range r.pktBuff[lastNilPkt+1:] { ... }].  The slots
    after the last nil one hold packets; a nil slot would be a nil
    dereference in Go and is passed over here. *)
Fixpoint collectRedPkts (redLength : nat) (pkt : Packet) (prevs : list (option Packet))
    : list Packet :=
  match prevs with
  | [] => []
  | Some prev :: rest =>
    if skipsRedundancy redLength pkt prev
    then collectRedPkts redLength pkt rest
    else prev :: collectRedPkts redLength pkt rest
  | None :: rest => collectRedPkts redLength pkt rest
  end.

(** [for j := 0; j < i; j++ { r.pktBuff[j] = r.pktBuff[j+1] }], the
    counter running over [n] slots from [j]. *)
Fixpoint ageOut (pktBuff : list (option Packet)) (j n : nat) : list (option Packet) :=
  match n with
  | O => pktBuff
  | S n' => ageOut (<[j := default None (pktBuff !! S j)]> pktBuff) (S j) n'
  end.

(** [pkt.SequenceNumber - prev.SequenceNumber < (1 << 15)] on [uint16]. *)
Definition moreRecent (pkt prev : Packet) : bool :=
  wrap_uint16 (SequenceNumber pkt - SequenceNumber prev) <? 2 ^ 15.

(** The insertion of the primary packet into the history: the first slot
    from the top that is empty or not newer than the packet receives it,
    the slots below are shifted down. *)
Fixpoint insertPrimary (pktBuff : list (option Packet)) (pkt : Packet) (i : nat)
    : list (option Packet) :=
  match i with
  | O => pktBuff
  | S i' =>
    let fits :=
      match pktBuff !! i' with
      | Some (Some prev) => moreRecent pkt prev
      | _ => true
      end in
    if fits then <[i' := Some pkt]> (ageOut pktBuff 0 i')
    else insertPrimary pktBuff pkt i'
  end.

(** A history packet that is within [n] sequence numbers behind the
    primary packet, without being at the same sequence number, and less
    than 2^14 timestamp units behind it. *)
Definition withinRedundancy (n : Z) (pkt p : Packet) : bool :=
  negb (SequenceNumber pkt =? SequenceNumber p)
  && (wrap_uint16 (SequenceNumber pkt - SequenceNumber p) <=? n)
  && (wrap_uint32 (Timestamp pkt - Timestamp p) <? 2 ^ 14).

Definition isPacket (o : option Packet) : bool :=
  match o with Some _ => true | None => false end.

(** The empty slots of the history come first. *)
Fixpoint nilsFirst (pktBuff : list (option Packet)) : bool :=
  match pktBuff with
  | [] => true
  | None :: rest => nilsFirst rest
  | Some _ :: rest => forallb isPacket rest
  end.

(** The size the encoder requires for a primary packet and its
    redundancy: the primary payload, one type byte, and for each
    redundancy block its payload and four header bytes. *)
Definition requiredSize (primary : Packet) (redPkts : list Packet) : nat :=
  (length (Payload primary) + 1 + (payloadBytes redPkts + 4 * length redPkts))%nat.

Definition withPayload (pkt : Packet) (payload : list Z) : Packet :=
  mkPacket (SequenceNumber pkt) (Timestamp pkt) (PayloadType pkt) payload.

(** The redundancy packets chosen for a primary packet. *)
Definition redundancyFor (r : RedReceiver) (pkt : Packet) : list Packet :=
  let redLength := length (pktBuff r) in
  collectRedPkts redLength pkt
    (drop (Z.to_nat (lastNilPkt (pktBuff r) redLength + 1)) (pktBuff r)).

(** [func (r *RedReceiver) encodeRedForPrimary(pkt, redPayload) (int, error)]:
    the history after the call, the buffer after the call, the result. *)
Definition RedReceiver_encodeRedForPrimary (r : RedReceiver) (pkt : Packet) (redPayload : list Z)
    : list (option Packet) * (list Z * (nat + redError)) :=
  let redLength := length (pktBuff r) in
  let redPkts := redundancyFor r pkt in
  let pktBuff' := insertPrimary (pktBuff r) pkt redLength in
  (pktBuff', encodeRedForPrimary redPkts pkt redPayload).

(** [ForwardRTP]: nothing happens without down tracks; otherwise the
    packet is encoded into the receiver's own buffer and, unless the
    encoder fails, a copy of the packet carrying the first [redLen] bytes
    of the buffer is broadcast. *)
Definition ForwardRTP (r : RedReceiver) (pkt : Packet) : RedReceiver * option Packet :=
  if (downTrackCount r =? 0)%nat then (r, None)
  else
    let '(pktBuff', (buf, res)) := RedReceiver_encodeRedForPrimary r pkt (redPayloadBuf r) in
    let r' := mkRedReceiver pktBuff' buf (downTrackCount r) in
    match res with
    | inr _ => (r', None)
    | inl redLen => (r', Some (withPayload pkt (take redLen buf)))
    end.

(** Feeding a sequence of primary packets, collecting what is broadcast. *)
Fixpoint forwardAll (r : RedReceiver) (pkts : list Packet) : RedReceiver * list (option Packet) :=
  match pkts with
  | [] => (r, [])
  | pkt :: rest =>
    let (r', out) := ForwardRTP r pkt in
    let (r'', outs) := forwardAll r' rest in
    (r'', out :: outs)
  end.

(** *** Streams in order *)

(** Packet [b] comes right after packet [a]: the next sequence number,
    less than 2^13 timestamp units later. *)
Definition follows (a b : Packet) : bool :=
  (wrap_uint16 (SequenceNumber b - SequenceNumber a) =? 1)
  && (wrap_uint32 (Timestamp b - Timestamp a) <? 2 ^ 13).

(** Each packet of the stream comes right after the one before. *)
Fixpoint inOrder (pkts : list Packet) : bool :=
  match pkts with
  | a :: rest =>
    match rest with
    | b :: _ => follows a b && inOrder rest
    | [] => true
    end
  | [] => true
  end.

(** *** The down tracks of the receiver *)

Import downtrackspreader.

(** The other fields of [RedReceiver]: the [closed] flag and the
    spreader; and the senders on which [Close] was called, in program
    order. *)
Record RedDownTracks : Type := mkRedDownTracks {
  closed : bool;
  downTrackSpreader : DownTrackSpreader;
  closedSenders : list TrackSender
}.

(** The encoder's fields next to these down tracks: [ForwardRTP] reads
    [r.downTrackSpreader.DownTrackCount()]. *)
Definition withDownTracks (r : RedReceiver) (d : RedDownTracks) : RedReceiver :=
  mkRedReceiver (pktBuff r) (redPayloadBuf r) (DownTrackCount (downTrackSpreader d)).

(** [func (r *RedReceiver) AddDownTrack(track TrackSender) error]; the
    log line of a replaced down track is left out. *)
Definition RedReceiver_AddDownTrack (d : RedDownTracks) (track : TrackSender)
    : RedDownTracks * option receiver.receiverError :=
  if closed d then (d, Some receiver.ErrReceiverClosed)
  else (mkRedDownTracks (closed d) (Store (downTrackSpreader d) track) (closedSenders d), None).

Definition RedReceiver_DeleteDownTrack (d : RedDownTracks) (subscriberID : string)
    : RedDownTracks :=
  if closed d then d
  else mkRedDownTracks (closed d) (Free (downTrackSpreader d) subscriberID) (closedSenders d).

Definition CanClose (d : RedDownTracks) : bool :=
  closed d || (DownTrackCount (downTrackSpreader d) =? 0)%nat.

Definition IsClosed (d : RedDownTracks) : bool := closed d.

(** [func (r *RedReceiver) Close()]. *)
Definition RedReceiver_Close (d : RedDownTracks) : RedDownTracks :=
  let (spreader, dts) := ResetAndGetDownTracks (downTrackSpreader d) in
  mkRedDownTracks true spreader (closedSenders d ++ dts).

End redreceiver.

(** ** The signal relay *)

Module routing.
Local Open Scope Z_scope.
Import MachineInt.

Inductive signalError : Type :=
| ErrSignalWriteFailed
| ErrSignalMessageDropped
| ErrOther (tag : nat)   (* an error of the stream or of the wrapped reader *).

Section Relay.

(** The type of the signal messages ([proto.Message]). *)
Context {Message : Type}.

(** A frame of the relay, [RelaySignalRequest] or [RelaySignalResponse]:
    [{ seq: u64, close: bool, requests|responses: repeated Message }]. *)
Record Frame : Type := mkFrame {
  Seq : Z;
  Close : bool;
  Messages : list Message
}.

(** [signalRequestMessageWriter.Write]. *)
Definition Writer_Write (seq : Z) (close : bool) (msgs : list Message) : Frame :=
  mkFrame seq close msgs.

(** [signalResponseMessageReader.Read]: all the responses, never an
    error. *)
Definition signalResponseMessageReader_Read (rm : Frame) : list Message + signalError :=
  inl (Messages rm).

(** *** The reader *)

Record signalMessageReader : Type := mkReader {
  reader_seq : Z   (* uint64 *)
}.

(** What a call makes of the reader: it returns, or it panics (a slice
    expression with a negative bound). *)
Inductive readOutcome : Type :=
| Returned (r : signalMessageReader) (res : list Message + signalError)
| Panicked.

(** [func (r *signalMessageReader) Read(msg) ([]proto.Message, error)];
    [reader] is the wrapped [SignalMessageReader]. *)
Definition Read (reader : Frame -> list Message + signalError)
    (r : signalMessageReader) (msg : Frame) : readOutcome :=
  match reader msg with
  | inr err => Returned r (inr err)
  | inl res =>
    if reader_seq r <? Seq msg then Returned r (inr ErrSignalMessageDropped)
    else
      let trimmed :=
        if Seq msg <? reader_seq r then
          (* n := int(r.seq - msg.GetSeq()) *)
          let n := wrap_int64 (wrap_uint64 (reader_seq r - Seq msg)) in
          let n := if Z.of_nat (length res) <? n then Z.of_nat (length res) else n in
          if n <? 0 then None else Some (drop (Z.to_nat n) res)
        else Some res in
      match trimmed with
      | None => Panicked
      | Some res =>
        Returned (mkReader (wrap_uint64 (reader_seq r + Z.of_nat (length res)))) (inl res)
      end
  end.

(** *** The sink and its writer loop *)

(** [config.SignalRelayConfig]: durations are [int64] nanoseconds. *)
Record SignalRelayConfig : Type := mkConfig {
  RetryTimeout : Z;
  MinRetryInterval : Z;
  MaxRetryInterval : Z;
  StreamBufferSize : Z
}.

(** The sink's fields, its parameters, and the calls made on its stream:
    the frames handed to [Stream.Send] with the timeout of each, and the
    causes handed to [Stream.Close] ([None] is [nil]), both in program
    order. *)
Record signalMessageSink : Type := mkSink {
  Config : SignalRelayConfig;
  CloseOnFailure : bool;
  BlockOnClose : bool;
  seq : Z;   (* uint64 *)
  queue : list Message;
  writing : bool;
  draining : bool;
  sends : list (Frame * Z);
  closes : list (option signalError)
}.

Definition withQueue (s : signalMessageSink) (seq' : Z) (queue' : list Message) : signalMessageSink :=
  mkSink (Config s) (CloseOnFailure s) (BlockOnClose s) seq' queue'
    (writing s) (draining s) (sends s) (closes s).

Definition withSend (s : signalMessageSink) (f : Frame) (timeout : Z) : signalMessageSink :=
  mkSink (Config s) (CloseOnFailure s) (BlockOnClose s) (seq s) (queue s)
    (writing s) (draining s) (sends s ++ [(f, timeout)]) (closes s).

Definition withClose (s : signalMessageSink) (cause : option signalError) : signalMessageSink :=
  mkSink (Config s) (CloseOnFailure s) (BlockOnClose s) (seq s) (queue s)
    (writing s) (draining s) (sends s) (closes s ++ [cause]).

Definition withWriting (s : signalMessageSink) (w : bool) : signalMessageSink :=
  mkSink (Config s) (CloseOnFailure s) (BlockOnClose s) (seq s) (queue s)
    w (draining s) (sends s) (closes s).

(** What the other goroutines do while the writer has released the lock
    around [Stream.Send]: [WriteMessage] appends to the queue, [Close]
    sets [draining]. *)
Definition interfere (s : signalMessageSink) (enqueued : list Message) (closeCalled : bool)
    : signalMessageSink :=
  mkSink (Config s) (CloseOnFailure s) (BlockOnClose s) (seq s) (queue s ++ enqueued)
    (writing s) (draining s || closeCalled) (sends s) (closes s).

(** What the surroundings answer during one turn of the loop: whether the
    stream reports an error at the top of the loop ([IsClosed]), the
    result of [Stream.Send] ([None] is success), the reading of
    [time.Now()] taken after the send, and the interference during the
    send.  Instants are nanoseconds on an unbounded line, as a
    [time.Time] has far more range than a duration. *)
Record turn : Type := mkTurn {
  streamClosed : bool;
  sendResult : option signalError;
  now : Z;
  enqueued : list Message;
  closeCalled : bool
}.

(** The local variables of [write]. *)
Record locals : Type := mkLocals {
  interval : Z;
  deadline : Z;
  err : option signalError
}.

Inductive loopStep : Type :=
| Continue (s : signalMessageSink) (l : locals)
| Break (s : signalMessageSink) (l : locals).

(** [interval *= 2; if interval > MaxRetryInterval { interval = MaxRetryInterval }]. *)
Definition backoff (c : SignalRelayConfig) (interval : Z) : Z :=
  let interval := wrap_int64 (interval * 2) in
  if MaxRetryInterval c <? interval then MaxRetryInterval c else interval.

(** One turn of the [for] loop of [write]. *)
Definition writeStep (s : signalMessageSink) (l : locals) (t : turn) : loopStep :=
  let close := draining s in
  if (negb close && (length (queue s) =? 0)%nat) || streamClosed t then Break s l
  else
    let msg := Writer_Write (seq s) close (queue s) in
    let n := length (queue s) in
    let s := interfere (withSend s msg (interval l)) (enqueued t) (closeCalled t) in
    match sendResult t with
    | Some e =>
      if deadline l <? now t then
        (* the deadline has passed: give up *)
        Break (withQueue s (wrap_uint64 (seq s + Z.of_nat (length (queue s)))) [])
              (mkLocals (interval l) (deadline l) (Some e))
      else
        Continue s (mkLocals (backoff (Config s) (interval l)) (deadline l) (Some e))
    | None =>
      let l' := mkLocals (MinRetryInterval (Config s))
                         (now t + RetryTimeout (Config s)) None in
      let s' := withQueue s (wrap_uint64 (seq s + Z.of_nat n)) (drop n (queue s)) in
      if close then Break s' l' else Continue s' l'
    end.

(** The test at the top of the loop lets the turn go on to a send. *)
Definition sendsThisTurn (s : signalMessageSink) (t : turn) : bool :=
  negb ((negb (draining s) && (length (queue s) =? 0)%nat) || streamClosed t).

(** The statements after the loop. *)
Definition writeExit (s : signalMessageSink) (l : locals) : signalMessageSink :=
  let s := withWriting s false in
  let s := if draining s then withClose s None else s in
  if bool_decide (err l ≠ None) && CloseOnFailure s
  then withClose s (Some ErrSignalWriteFailed) else s.

(** The loop, driven by the answers of the surroundings; [None] when they
    run out before the loop ends. *)
Fixpoint writeLoop (s : signalMessageSink) (l : locals) (ts : list turn)
    : option signalMessageSink :=
  match ts with
  | [] => None
  | t :: ts' =>
    match writeStep s l t with
    | Break s' l' => Some (writeExit s' l')
    | Continue s' l' => writeLoop s' l' ts'
    end
  end.

(** [func (s *signalMessageSink) write()], started at time [start]. *)
Definition write (s : signalMessageSink) (start : Z) (ts : list turn) : option signalMessageSink :=
  writeLoop s
    (mkLocals (MinRetryInterval (Config s)) (start + RetryTimeout (Config s)) None)
    ts.

End Relay.

Arguments Frame : clear implicits.
Arguments signalMessageReader : clear implicits.
Arguments readOutcome : clear implicits.
Arguments signalMessageSink : clear implicits.
Arguments turn : clear implicits.
Arguments loopStep : clear implicits.

(** *** The other methods of the sink, and the peer's copy loop *)

Section Peer.
Context {Message : Type}.

Definition withDraining (s : signalMessageSink Message) : signalMessageSink Message :=
  mkSink (Config s) (CloseOnFailure s) (BlockOnClose s) (seq s) (queue s)
    (writing s) true (sends s) (closes s).

(** [func (s *signalMessageSink) Close()], up to the wait on the stream's
    context: the sink afterwards, and whether [go s.write()] is run. *)
Definition signalMessageSink_Close (s : signalMessageSink Message)
    : signalMessageSink Message * bool :=
  let s := withDraining s in
  if writing s then (s, false) else (withWriting s true, true).

(** The errors of [WriteMessage]: the error of the stream, or
    [psrpc.ErrStreamClosed]. *)
Inductive writeMessageError : Type :=
| StreamErr (e : signalError)
| ErrStreamClosed.

(** [func (s *signalMessageSink) WriteMessage(msg) error]; [streamErr] is
    the answer of [s.Stream.Err()].  The results are the sink afterwards,
    the error, and whether [go s.write()] is run. *)
Definition signalMessageSink_WriteMessage (s : signalMessageSink Message)
    (streamErr : option signalError) (msg : Message)
    : signalMessageSink Message * option writeMessageError * bool :=
  match streamErr with
  | Some e => (s, Some (StreamErr e), false)
  | None =>
    if draining s then (s, Some ErrStreamClosed, false)
    else
      let s := withQueue s (seq s) (queue s ++ [msg]) in
      if writing s then (s, None, false) else (withWriting s true, None, true)
  end.

(** Where [CopySignalStreamToMessageChannel] stands: in its loop, or
    returned (with the error of the reader or of the channel, or with the
    result of [stream.Close(nil)] after a frame that closes, [None] here),
    or stopped by the panic of the reader. *)
Inductive copyState : Type :=
| Copying
| CopyReturned (err : option signalError)
| CopyPanicked.

(** The reader of the loop, the messages written to the message channel
    so far, and where the loop stands. *)
Record messageCopier : Type := mkCopier {
  copierReader : signalMessageReader;
  channel : list Message;
  copying : copyState
}.

(** [ch.WriteMessage] belongs to [MessageChannel], whose source is not in
    the tree; it is a parameter here: its answer for a message, given the
    messages the channel has taken so far. *)
Variable ch_WriteMessage : list Message -> Message -> option signalError.

(** [for _, r := range res { if err = ch.WriteMessage(r); err != nil
    { return err } }]. *)
Fixpoint writeMessages (ch : list Message) (res : list Message)
    : list Message * option signalError :=
  match res with
  | [] => (ch, None)
  | m :: rest =>
    match ch_WriteMessage ch m with
    | Some e => (ch, Some e)
    | None => writeMessages (ch ++ [m]) rest
    end
  end.

(** The body of the loop of [CopySignalStreamToMessageChannel] for one
    frame of the stream; a loop that has returned reads no more. *)
Definition copyFrame (reader : Frame Message -> list Message + signalError)
    (c : messageCopier) (msg : Frame Message) : messageCopier :=
  match copying c with
  | Copying =>
    match Read reader (copierReader c) msg with
    | Panicked => mkCopier (copierReader c) (channel c) CopyPanicked
    | Returned r (inr e) => mkCopier r (channel c) (CopyReturned (Some e))
    | Returned r (inl res) =>
      match writeMessages (channel c) res with
      | (ch, Some e) => mkCopier r ch (CopyReturned (Some e))
      | (ch, None) => mkCopier r ch (if Close msg then CopyReturned None else Copying)
      end
    end
  | _ => c
  end.

(** [CopySignalStreamToMessageChannel] on the frames that the stream's
    channel hands over before it is closed; a loop still [Copying] at the
    end returns [stream.Err()]. *)
Definition CopySignalStreamToMessageChannel
    (reader : Frame Message -> list Message + signalError)
    (frames : list (Frame Message)) : messageCopier :=
  fold_left (copyFrame reader) frames (mkCopier (mkReader 0) [] Copying).

(** *** The writer loop with the copy loop at the other end of the stream *)

(** The frame that a turn of the writer loop hands to [Stream.Send]. *)
Definition frameSent (s : signalMessageSink Message) (t : turn Message)
    : option (Frame Message) :=
  if sendsThisTurn s t then Some (Writer_Write (seq s) (draining s) (queue s)) else None.

(** A frame whose send succeeded has reached the peer; one whose send
    failed (a timeout) may have reached it all the same, which [reached]
    tells. *)
Definition reachesPeer (t : turn Message) (reached : bool) : bool :=
  match sendResult t with
  | None => true
  | Some _ => reached
  end.

(** The turns of the writer loop, each followed by the peer's copy loop
    reading the frame if it reached the peer: the stream hands the frames
    over in the order sent.  The result is where the writer loop stands,
    and the peer's copy loop. *)
Fixpoint relay (s : signalMessageSink Message) (l : locals) (c : messageCopier)
    (ts : list (turn Message * bool)) : loopStep Message * messageCopier :=
  match ts with
  | [] => (Continue s l, c)
  | (t, reached) :: ts' =>
    let c' :=
      match frameSent s t with
      | Some f =>
        if reachesPeer t reached then copyFrame signalResponseMessageReader_Read c f else c
      | None => c
      end in
    match writeStep s l t with
    | Break s' l' => (Break s' l', c')
    | Continue s' l' => relay s' l' c' ts'
    end
  end.

(** No message is enqueued once the sink drains: [WriteMessage] refuses
    them.  [d] is the sink's [draining] before the turns. *)
Fixpoint quietAfterClose (d : bool) (ts : list (turn Message * bool)) : bool :=
  match ts with
  | [] => true
  | (t, _) :: ts' =>
    (negb d || (length (enqueued t) =? 0)%nat) && quietAfterClose (d || closeCalled t) ts'
  end.

(** The messages enqueued during the turns. *)
Definition offered (ts : list (turn Message * bool)) : list Message :=
  flat_map (fun tr => enqueued (fst tr)) ts.

(** What ties the two ends together, [M] being the messages the sink has
    taken since its counter was [base]: the sink has had the first [ks] of
    them acknowledged and queues the rest, the peer has written the first
    [kr] of them to its channel, and [ks <= kr]; a copy loop that has
    returned did so on a closing frame, with all of [M] written. *)
Definition relayInv (M : list Message) (base : Z)
    (s : signalMessageSink Message) (c : messageCopier) : Prop :=
  exists ks kr : nat,
    seq s = base + Z.of_nat ks
    /\ reader_seq (copierReader c) = base + Z.of_nat kr
    /\ (ks <= kr <= length M)%nat
    /\ queue s = drop ks M
    /\ channel c = take kr M
    /\ (copying c = Copying
        \/ (copying c = CopyReturned None /\ draining s = true /\ kr = length M)).

End Peer.

Arguments messageCopier : clear implicits.

End routing.

(** ** Worked examples: data *)

Module examples.
Local Open Scope Z_scope.
Import buffer videolayerselector.

(** The selector of the promotion scenario: current layer {0,0}, target
    {1,2}. *)
Definition promoteSelector : Base :=
  mkBase (mkVideoLayer 0 0) (mkVideoLayer 1 2) 1 (mkVideoLayer 2 3) (mkVideoLayer 2 3).

Definition upswitchDescriptor : codecs.VP9Packet := codecs.mkVP9Packet true false true true.

Definition upswitchPacket : ExtPacket :=
  mkExtPacket false (mkVideoLayer 0 1) false (PayloadVP9 upswitchDescriptor).

Definition spatialPacket : ExtPacket :=
  mkExtPacket false (mkVideoLayer 1 0) false
    (PayloadVP9 (codecs.mkVP9Packet false false true false)).

Import streamtrackermanager.

(** The alignment scenario: layer 0 reported NTP 1000 s with RTP 100000,
    layer 1 reported NTP 1000.1 s with RTP 110000, on a 90 kHz clock; one
    tenth of a second is the fraction 429496730. *)
Definition layer0Report : RTCPSenderReportData := mkSenderReport (ntpOf 1000 0) 100000.
Definition layer1Report : RTCPSenderReportData := mkSenderReport (ntpOf 1000 429496730) 110000.

Definition alignmentManager : StreamTrackerManager :=
  mkStreamTrackerManager true 90000 1 0 [None; None; None] [0; 1]
    [Some layer0Report; Some layer1Report; None].

(** A manager that has heard from layer 0 only. *)
Definition layer0OnlyManager : StreamTrackerManager :=
  mkStreamTrackerManager true 90000 0 0 [None; None; None] [0]
    [Some layer0Report; None; None].

(** Layer 1 reported 200000 s after layer 0. *)
Definition earlyReport : RTCPSenderReportData := mkSenderReport (ntpOf 1000 0) 0.
Definition lateReport : RTCPSenderReportData := mkSenderReport (ntpOf 201000 0) 0.

Definition longGapManager : StreamTrackerManager :=
  mkStreamTrackerManager true 90000 1 0 [None; None; None] [0; 1]
    [Some earlyReport; Some lateReport; None].

(** Two spatial layers of an SVC track, each measured at 100000 bytes per
    second on temporal layer 0. *)
Definition twoLayerManager : StreamTrackerManager :=
  mkStreamTrackerManager true 90000 1 0
    [ Some (mkStreamTracker [100000; 0; 0; 0]);
      Some (mkStreamTracker [100000; 0; 0; 0]);
      None ]
    [0; 1] [None; None; None].

(** An SVC track of which only spatial layer 0 is published. *)
Definition singleLayerManager : StreamTrackerManager :=
  mkStreamTrackerManager true 90000 0 0
    [ Some (mkStreamTracker [100000; 0; 0; 0]); None; None ]
    [0] [None; None; None].

Import downtrackspreader receiver.

(** A receiver with one subscriber, and a second sender of the same
    subscriber. *)
Definition aliceFirst : TrackSender := mkTrackSender "alice" 1.
Definition aliceSecond : TrackSender := mkTrackSender "alice" 2.

Definition openReceiver : WebRTCReceiver :=
  mkReceiver false alignmentManager (Store NewDownTrackSpreader aliceFirst) [].

Import routing.

(** A reader that has delivered five messages, and a frame that starts two
    messages earlier. *)
Definition readerAtFive : signalMessageReader := mkReader 5.
Definition overlappingFrame : Frame Z := mkFrame 3 false [30; 31; 32; 33].

Definition relayConfig : SignalRelayConfig := mkConfig 7500000000 500000000 4000000000 1000.

(** A sink with three queued messages that does not close its stream on
    failure, and a turn whose send fails after the deadline. *)
Definition quietSink : signalMessageSink Z :=
  mkSink relayConfig false false 0 [1; 2; 3] true false [] [].
Definition closingSink : signalMessageSink Z :=
  mkSink relayConfig true true 0 [1; 2; 3] true false [] [].
Definition lateFailure : turn Z := mkTurn false (Some (ErrOther 0)) 8000000000 [4] false.
Definition earlyFailure : turn Z := mkTurn false (Some (ErrOther 0)) 1000000000 [] false.
Definition success : turn Z := mkTurn false None 2000000000 [] false.
Definition idle : turn Z := mkTurn false None 3000000000 [] false.

Import redreceiver.

(** Opus packets 10 ms apart, and a receiver with one down track that has
    forwarded the first of them. *)
Definition opus1 : Packet := mkPacket 1 0 111 [7; 8].
Definition opus2 : Packet := mkPacket 2 480 111 [9].
Definition opus3 : Packet := mkPacket 3 960 111 [10; 11; 12].
Definition opus5 : Packet := mkPacket 5 1920 111 [13].
Definition bigOpus : Packet := mkPacket 2 480 111 (replicate 1497 0).

Definition activeRedReceiver : RedReceiver :=
  mkRedReceiver (pktBuff NewRedReceiver) (redPayloadBuf NewRedReceiver) 1.

Definition afterOpus1 : RedReceiver := fst (ForwardRTP activeRedReceiver opus1).
Definition afterOpus2 : RedReceiver := fst (ForwardRTP afterOpus1 opus2).
Definition afterOpus3 : RedReceiver := fst (ForwardRTP afterOpus2 opus3).

(** The two-layer track after layer 1 was declared stopped, and what is
    expected of the publisher: layer 0 only. *)
Definition layer1GoneManager : StreamTrackerManager :=
  mkStreamTrackerManager true 90000 1 0
    [ Some (mkStreamTracker [100000; 0; 0; 0]);
      Some (mkStreamTracker [100000; 0; 0; 0]);
      None ]
    [0] [None; None; None].
Definition expectingLayer0 : ManagerControl := mkControl twoLayerManager 0 false.
Definition lostLayer1 : ManagerControl := mkControl layer1GoneManager 0 false.

(** A selector without a current layer, and a key frame of spatial
    layer 2. *)
Definition pausedSelector : Base :=
  mkBase InvalidLayer (mkVideoLayer 1 2) 1 (mkVideoLayer 2 3) (mkVideoLayer 2 3).
Definition keyFramePacket : ExtPacket :=
  mkExtPacket true (mkVideoLayer 2 0) false
    (PayloadVP9 (codecs.mkVP9Packet false false true false)).

(** A send that times out before the deadline while a fourth message is
    enqueued, and a sink without a running writer. *)
Definition lostAck : turn Z := mkTurn false (Some (ErrOther 0)) 1000000000 [4] false.
Definition idleSink : signalMessageSink Z :=
  mkSink relayConfig true true 5 [1; 2] false false [] [].

(** A packet from far behind the history. *)
Definition lateOpus : Packet := mkPacket 65000 0 111 [1].

End examples.


(** * Theorems *)

(** ** The VP9 layer selector *)

Section VP9Facts.
Import buffer videolayerselector.
Local Open Scope Z_scope.

Variable isValid : VideoLayer -> bool.

Lemma VideoLayer_eqb_eq (a b : VideoLayer) : VideoLayer_eqb a b = true <-> a = b.
Proof.
  destruct a as [sa ta], b as [sb tb]; unfold VideoLayer_eqb; simpl.
  rewrite andb_true_iff, !Z.eqb_eq. split.
  - intros [-> ->]; reflexivity.
  - intros H; injection H; auto.
Qed.

(** Whatever the packet, the selector's current layer after [Select] is
    the [updatedLayer] of the source. *)
Lemma commitLayer_current (v : Base) (upd : VideoLayer) :
  currentLayer (fst (commitLayer isValid v upd)) = upd.
Proof.
  unfold commitLayer.
  destruct (VideoLayer_eqb upd (currentLayer v)) eqn:Heq; simpl.
  - symmetry. apply VideoLayer_eqb_eq, Heq.
  - reflexivity.
Qed.

Lemma commitLayer_target (v : Base) (upd : VideoLayer) :
  targetLayer (fst (commitLayer isValid v upd)) = targetLayer v.
Proof. unfold commitLayer. destruct (negb _); reflexivity. Qed.

(** With a valid current layer that differs from the target, the new
    current layer is obtained by the temporal and the spatial step. *)
Lemma Select_valid_current (v : Base) (extPkt : ExtPacket) (vp9 : codecs.VP9Packet) :
  Payload extPkt = PayloadVP9 vp9 ->
  isValid (currentLayer v) = true ->
  currentLayer v <> targetLayer v ->
  currentLayer (fst (Select isValid v extPkt)) =
  snd (spatialStep v extPkt vp9 (temporalStep v extPkt vp9 (currentLayer v, currentLayer v))).
Proof.
  intros Hp Hv Hne. unfold Select. rewrite Hp.
  destruct (VideoLayer_eqb (currentLayer v) (targetLayer v)) eqn:Heq.
  { apply VideoLayer_eqb_eq in Heq. contradiction. }
  simpl. rewrite Hv. simpl.
  destruct (spatialStep _ _ _ _) as [cur upd] eqn:Hs. simpl.
  pose proof (commitLayer_current v upd) as Hc.
  destruct (commitLayer isValid v upd) as [v' result]. exact Hc.
Qed.

Lemma temporalStep_spatial (v : Base) (extPkt : ExtPacket) (vp9 : codecs.VP9Packet)
    (cu : VideoLayer * VideoLayer) :
  Spatial (snd (temporalStep v extPkt vp9 cu)) = Spatial (snd cu).
Proof.
  unfold temporalStep. destruct cu as [cur upd].
  repeat (match goal with |- context [if ?b then _ else _] => destruct b end);
    reflexivity.
Qed.

Lemma spatialStep_temporal (v : Base) (extPkt : ExtPacket) (vp9 : codecs.VP9Packet)
    (cu : VideoLayer * VideoLayer) :
  Temporal (snd (spatialStep v extPkt vp9 cu)) = Temporal (snd cu).
Proof.
  unfold spatialStep. destruct cu as [cur upd].
  repeat (match goal with |- context [if ?b then _ else _] => destruct b end);
    reflexivity.
Qed.

(** The temporal coordinate of the updated layer: either it stays, or it
    is the packet's on an up-switch point, or the target's at the end of a
    picture. *)
Lemma temporalStep_cases (v : Base) (extPkt : ExtPacket) (vp9 : codecs.VP9Packet) :
  let t' := Temporal (snd (temporalStep v extPkt vp9 (currentLayer v, currentLayer v))) in
  t' = Temporal (currentLayer v)
  \/ (Temporal (currentLayer v) < t' /\ t' = Temporal (VideoLayer_ extPkt)
      /\ t' <= Temporal (targetLayer v)
      /\ codecs.U vp9 = true /\ codecs.B vp9 = true)
  \/ (t' < Temporal (currentLayer v) /\ t' = Temporal (targetLayer v)
      /\ codecs.E vp9 = true).
Proof.
  unfold temporalStep; simpl.
  destruct (Z.eqb_spec (Temporal (currentLayer v)) (Temporal (targetLayer v))); simpl; [left; reflexivity|].
  destruct (Z.ltb_spec (Temporal (currentLayer v)) (Temporal (targetLayer v))).
  - destruct (Z.ltb_spec (Temporal (currentLayer v)) (Temporal (VideoLayer_ extPkt))); simpl;
      [|left; reflexivity].
    destruct (Z.leb_spec (Temporal (VideoLayer_ extPkt)) (Temporal (targetLayer v))); simpl;
      [|left; reflexivity].
    destruct (codecs.U vp9); simpl; [|left; reflexivity].
    destruct (codecs.B vp9); simpl; [|left; reflexivity].
    right; left. repeat split; auto.
  - destruct (codecs.E vp9); simpl; [|left; reflexivity].
    right; right. repeat split; auto. lia.
Qed.

Lemma spatialStep_cases (v : Base) (extPkt : ExtPacket) (vp9 : codecs.VP9Packet)
    (cu : VideoLayer * VideoLayer) :
  Spatial (snd cu) = Spatial (currentLayer v) ->
  let s' := Spatial (snd (spatialStep v extPkt vp9 cu)) in
  s' = Spatial (currentLayer v)
  \/ (Spatial (currentLayer v) < s' /\ s' = Spatial (VideoLayer_ extPkt)
      /\ s' <= Spatial (targetLayer v)
      /\ codecs.P vp9 = false /\ codecs.B vp9 = true)
  \/ (s' < Spatial (currentLayer v) /\ s' = Spatial (targetLayer v)
      /\ codecs.E vp9 = true).
Proof.
  intros Hcu. destruct cu as [cur upd]. unfold spatialStep; simpl in *.
  destruct (Z.eqb_spec (Spatial (currentLayer v)) (Spatial (targetLayer v))); simpl; [left; exact Hcu|].
  destruct (Z.ltb_spec (Spatial (currentLayer v)) (Spatial (targetLayer v))).
  - destruct (Z.ltb_spec (Spatial (currentLayer v)) (Spatial (VideoLayer_ extPkt))); simpl;
      [|left; exact Hcu].
    destruct (Z.leb_spec (Spatial (VideoLayer_ extPkt)) (Spatial (targetLayer v))); simpl;
      [|left; exact Hcu].
    destruct (codecs.P vp9); simpl; [left; exact Hcu|].
    destruct (codecs.B vp9); simpl; [|left; exact Hcu].
    right; left. repeat split; auto.
  - destruct (codecs.E vp9); simpl; [|left; exact Hcu].
    right; right. repeat split; auto. lia.
Qed.

(** C4: with a valid current layer that differs from the target, [Select]
    raises the current temporal layer only on a packet with U and B whose
    temporal layer lies in (current, target], and then to the packet's
    temporal layer; it lowers it only on a packet with E, and then to the
    target's; it raises the current spatial layer only on a packet with
    not-P and B whose spatial layer is above the current one and at most
    the target's, and then to the packet's; it lowers it only on a packet
    with E, and then to the target's. *)
Theorem vp9_select_switch_conditions
    (v : Base) (extPkt : ExtPacket) (vp9 : codecs.VP9Packet) :
  Payload extPkt = PayloadVP9 vp9 ->
  isValid (currentLayer v) = true ->
  currentLayer v <> targetLayer v ->
  let cur := currentLayer v in
  let tgt := targetLayer v in
  let pkt := VideoLayer_ extPkt in
  let cur' := currentLayer (fst (Select isValid v extPkt)) in
  (Temporal cur < Temporal cur' ->
     codecs.U vp9 = true /\ codecs.B vp9 = true
     /\ Temporal cur < Temporal pkt <= Temporal tgt /\ Temporal cur' = Temporal pkt)
  /\ (Temporal cur' < Temporal cur ->
     codecs.E vp9 = true /\ Temporal cur' = Temporal tgt)
  /\ (Spatial cur < Spatial cur' ->
     codecs.P vp9 = false /\ codecs.B vp9 = true
     /\ Spatial cur < Spatial pkt <= Spatial tgt /\ Spatial cur' = Spatial pkt)
  /\ (Spatial cur' < Spatial cur ->
     codecs.E vp9 = true /\ Spatial cur' = Spatial tgt).
Proof.
  intros Hp Hv Hne cur tgt pkt cur'.
  assert (Hcur' : cur' = snd (spatialStep v extPkt vp9
            (temporalStep v extPkt vp9 (currentLayer v, currentLayer v)))).
  { apply Select_valid_current; assumption. }
  pose proof (temporalStep_cases v extPkt vp9) as Ht. cbv zeta in Ht.
  pose proof (spatialStep_cases v extPkt vp9
                (temporalStep v extPkt vp9 (currentLayer v, currentLayer v))) as Hs.
  rewrite temporalStep_spatial in Hs. specialize (Hs eq_refl). cbv zeta in Hs.
  assert (HT : Temporal cur' =
               Temporal (snd (temporalStep v extPkt vp9 (currentLayer v, currentLayer v)))).
  { rewrite Hcur'. apply spatialStep_temporal. }
  rewrite <- HT in Ht. rewrite <- Hcur' in Hs.
  subst cur tgt pkt.
  split; [|split; [|split]]; intros Hlt.
  - destruct Ht as [Ht | [Ht | Ht]]; try lia. intuition lia.
  - destruct Ht as [Ht | [Ht | Ht]]; try lia. intuition lia.
  - destruct Hs as [Hs | [Hs | Hs]]; try lia. intuition lia.
  - destruct Hs as [Hs | [Hs | Hs]]; try lia. intuition lia.
Qed.

End VP9Facts.

Section VP9Scenario.
Import buffer videolayerselector examples.
Local Open Scope Z_scope.

(** The up-switch packet moves the temporal layer to 1, the packet that
    begins an unpredicted picture of spatial layer 1 then moves the spatial
    layer to 1. *)
Example vp9_promote_scenario :
  currentLayer (fst (Select IsValid promoteSelector upswitchPacket)) = mkVideoLayer 0 1
  /\ currentLayer (fst (Select IsValid (fst (Select IsValid promoteSelector upswitchPacket))
                          spatialPacket)) = mkVideoLayer 1 1.
Proof. split; reflexivity. Qed.

Lemma vp9_select_switch_conditions_witness :
  Payload upswitchPacket = PayloadVP9 upswitchDescriptor
  /\ IsValid (currentLayer promoteSelector) = true
  /\ currentLayer promoteSelector <> targetLayer promoteSelector
  /\ (Temporal (currentLayer promoteSelector)
        < Temporal (currentLayer (fst (Select IsValid promoteSelector upswitchPacket))) ->
      codecs.U upswitchDescriptor = true /\ codecs.B upswitchDescriptor = true
      /\ Temporal (currentLayer promoteSelector) < Temporal (VideoLayer_ upswitchPacket)
           <= Temporal (targetLayer promoteSelector)
      /\ Temporal (currentLayer (fst (Select IsValid promoteSelector upswitchPacket)))
         = Temporal (VideoLayer_ upswitchPacket)).
Proof.
  split; [reflexivity|]. split; [reflexivity|]. split; [discriminate|].
  apply (vp9_select_switch_conditions IsValid promoteSelector upswitchPacket
           upswitchDescriptor); [reflexivity | reflexivity | discriminate].
Defined.

End VP9Scenario.

(** ** Cross-layer RTP timestamp alignment *)

Section ReferenceTimestampFacts.
Import streamtrackermanager MachineInt.
Local Open Scope Z_scope.

Variable NtpTime_Time : Z -> Z.

Lemma wrap_int64_fits (x : Z) : fitsInt64 x -> wrap_int64 x = x.
Proof.
  unfold fitsInt64, wrap_int64, minInt64, maxInt64. intros H.
  rewrite Z.mod_small; lia.
Qed.

Lemma Time_Sub_fits (t u : Z) : fitsInt64 (t - u) -> Time_Sub t u = t - u.
Proof. unfold fitsInt64, Time_Sub. lia. Qed.

Lemma Time_Sub_same (t : Z) : Time_Sub t t = 0.
Proof. unfold Time_Sub, minInt64, maxInt64. rewrite Z.sub_diag. lia. Qed.

(** The three wrap-arounds of the last line collapse into one reduction
    modulo 2^32. *)
Lemma wrap_uint32_mapping (ts rtpRef rtpLayer d : Z) :
  wrap_uint32 (ts + wrap_uint32 (rtpRef - wrap_uint32 (rtpLayer + wrap_uint32 d)))
  = (ts + (rtpRef - (rtpLayer + d))) mod 2 ^ 32.
Proof.
  unfold wrap_uint32.
  rewrite Zplus_mod_idemp_r.
  replace (ts + (rtpRef - (rtpLayer + d mod 2 ^ 32) mod 2 ^ 32))
    with ((ts + rtpRef) - (rtpLayer + d mod 2 ^ 32) mod 2 ^ 32) by lia.
  rewrite Zminus_mod_idemp_r.
  replace (ts + rtpRef - (rtpLayer + d mod 2 ^ 32))
    with ((ts + rtpRef - rtpLayer) - d mod 2 ^ 32) by lia.
  rewrite Zminus_mod_idemp_r.
  f_equal. lia.
Qed.

Lemma senderReportOf_recorded (s : StreamTrackerManager) (layer : Z) (sr : RTCPSenderReportData) :
  0 <= layer ->
  senderReports s !! Z.to_nat layer = Some (Some sr) ->
  senderReportOf s layer = Some sr.
Proof.
  intros Hl Hsr. unfold senderReportOf.
  apply lookup_lt_Some in Hsr as Hlt.
  destruct (Z.ltb_spec layer (Z.of_nat (length (senderReports s)))); [|lia].
  rewrite Hsr. reflexivity.
Qed.

(** With both reports at hand the result is a value, whatever the
    numbers. *)
Lemma GetReferenceLayerRTPTimestamp_value (s : StreamTrackerManager)
    (ts layer referenceLayer : Z) (srLayer srRef : RTCPSenderReportData) :
  0 <= layer -> 0 <= referenceLayer ->
  senderReports s !! Z.to_nat layer = Some (Some srLayer) ->
  senderReports s !! Z.to_nat referenceLayer = Some (Some srRef) ->
  NTPTimestamp srLayer <> 0 -> NTPTimestamp srRef <> 0 ->
  GetReferenceLayerRTPTimestamp NtpTime_Time s ts layer referenceLayer
  = inl ((ts + (RTPTimestamp srRef
                - (RTPTimestamp srLayer + rtpDiffOf NtpTime_Time s srLayer srRef))) mod 2 ^ 32).
Proof.
  intros Hl Hr HsrL HsrR HnL HnR. unfold GetReferenceLayerRTPTimestamp.
  destruct (Z.ltb_spec layer 0); [lia|].
  destruct (Z.ltb_spec referenceLayer 0); [lia|]. simpl.
  rewrite (senderReportOf_recorded s layer srLayer Hl HsrL).
  destruct (Z.eqb_spec (NTPTimestamp srLayer) 0); [contradiction|].
  rewrite (senderReportOf_recorded s referenceLayer srRef Hr HsrR).
  destruct (Z.eqb_spec (NTPTimestamp srRef) 0); [contradiction|].
  rewrite wrap_uint32_mapping. reflexivity.
Qed.

(** C1, as the code has it: on layer indices that are not negative, two
    recorded sender reports with non-zero NTP timestamps give the value
    [ts + (RTP_ref - (RTP_layer + (NTP_ref - NTP_layer) * clockRate))]
    modulo 2^32 as long as the NTP difference in nanoseconds and its
    product with the clock rate fit an [int64]; a layer without a recorded
    report gives a "not available" error; a negative layer index gives the
    "invalid layer" error. *)
Theorem reference_timestamp_mapping (s : StreamTrackerManager) (ts layer referenceLayer : Z) :
  (forall srLayer srRef,
     0 <= layer -> 0 <= referenceLayer ->
     senderReports s !! Z.to_nat layer = Some (Some srLayer) ->
     senderReports s !! Z.to_nat referenceLayer = Some (Some srRef) ->
     NTPTimestamp srLayer <> 0 -> NTPTimestamp srRef <> 0 ->
     fitsInt64 (NtpTime_Time (NTPTimestamp srRef) - NtpTime_Time (NTPTimestamp srLayer)) ->
     fitsInt64 ((NtpTime_Time (NTPTimestamp srRef) - NtpTime_Time (NTPTimestamp srLayer))
                * clockRate s) ->
     GetReferenceLayerRTPTimestamp NtpTime_Time s ts layer referenceLayer
     = inl (referenceTimestampSpec NtpTime_Time (clockRate s) ts srLayer srRef))
  /\ (0 <= layer -> 0 <= referenceLayer ->
      senderReportOf s layer = None \/ senderReportOf s referenceLayer = None ->
      exists e, GetReferenceLayerRTPTimestamp NtpTime_Time s ts layer referenceLayer = inr e
                /\ isNotAvailable e = true)
  /\ (layer < 0 \/ referenceLayer < 0 ->
      GetReferenceLayerRTPTimestamp NtpTime_Time s ts layer referenceLayer
      = inr (ErrInvalidLayer layer referenceLayer)).
Proof.
  split; [|split].
  - intros srLayer srRef Hl Hr HsrL HsrR HnL HnR Hfit Hprod.
    rewrite (GetReferenceLayerRTPTimestamp_value s ts layer referenceLayer srLayer srRef)
      by assumption.
    unfold referenceTimestampSpec, rtpDiffOf.
    rewrite Time_Sub_fits by assumption.
    rewrite wrap_int64_fits by assumption. reflexivity.
  - intros Hl Hr Hnone. unfold GetReferenceLayerRTPTimestamp.
    destruct (Z.ltb_spec layer 0); [lia|].
    destruct (Z.ltb_spec referenceLayer 0); [lia|]. simpl.
    destruct (senderReportOf s layer) as [srLayer|] eqn:HL.
    + destruct Hnone as [Hnone | Hnone]; [discriminate|]. rewrite Hnone.
      destruct (NTPTimestamp srLayer =? 0); eexists; split; reflexivity.
    + eexists; split; reflexivity.
  - intros Hneg. unfold GetReferenceLayerRTPTimestamp.
    destruct (Z.ltb_spec layer 0); [reflexivity|].
    destruct (Z.ltb_spec referenceLayer 0); [reflexivity|]. lia.
Qed.

(** C10: on one and the same layer, with a recorded sender report whose
    NTP timestamp is not zero, the mapping returns [ts] unchanged. *)
Theorem reference_timestamp_same_layer (s : StreamTrackerManager) (ts layer : Z)
    (sr : RTCPSenderReportData) :
  0 <= ts < 2 ^ 32 ->
  0 <= layer ->
  senderReports s !! Z.to_nat layer = Some (Some sr) ->
  NTPTimestamp sr <> 0 ->
  GetReferenceLayerRTPTimestamp NtpTime_Time s ts layer layer = inl ts.
Proof.
  intros Hts Hl Hsr Hn.
  rewrite (GetReferenceLayerRTPTimestamp_value s ts layer layer sr sr) by assumption.
  unfold rtpDiffOf. rewrite Time_Sub_same, Z.mul_0_l.
  change (Z.quot (wrap_int64 0) 1000000000) with 0.
  f_equal. replace (ts + (RTPTimestamp sr - (RTPTimestamp sr + 0))) with ts by lia.
  apply Z.mod_small. exact Hts.
Qed.

End ReferenceTimestampFacts.

Section ReferenceTimestampExamples.
Import streamtrackermanager MachineInt examples.
Local Open Scope Z_scope.

(** The two reports of the alignment scenario are 0.1 s apart. *)
Example alignment_reports_apart :
  ntpClock (NTPTimestamp layer1Report) - ntpClock (NTPTimestamp layer0Report) = 100000000.
Proof. reflexivity. Qed.

(** The alignment scenario of the specification evaluates to 106000. *)
Example reference_timestamp_scenario :
  GetReferenceLayerRTPTimestamp ntpClock alignmentManager 105000 0 1 = inl 106000.
Proof. reflexivity. Qed.

Lemma reference_timestamp_mapping_witness :
  GetReferenceLayerRTPTimestamp ntpClock alignmentManager 105000 0 1
  = inl (referenceTimestampSpec ntpClock 90000 105000 layer0Report layer1Report)
  /\ referenceTimestampSpec ntpClock 90000 105000 layer0Report layer1Report = 106000.
Proof.
  split; [|reflexivity].
  apply (proj1 (reference_timestamp_mapping ntpClock alignmentManager 105000 0 1)
           layer0Report layer1Report).
  - lia.
  - lia.
  - reflexivity.
  - reflexivity.
  - vm_compute; discriminate.
  - vm_compute; discriminate.
  - unfold fitsInt64; vm_compute; split; discriminate.
  - unfold fitsInt64; vm_compute; split; discriminate.
Defined.

(** The claim as written fails twice.  A negative layer index, which no
    report can ever be recorded for, is answered with the "invalid layer"
    error, not with a "not available" one; and once the product of the NTP
    difference and the clock rate leaves the [int64] range (here 200000 s
    at 90 kHz), the value is no longer the one of the formula. *)
Lemma reference_timestamp_mapping_counterexample :
  (SetRTCPSenderReportData layer0OnlyManager (-1) (Some layer0Report) = layer0OnlyManager
   /\ GetReferenceLayerRTPTimestamp ntpClock layer0OnlyManager 105000 (-1) 0
      = inr (ErrInvalidLayer (-1) 0)
   /\ isNotAvailable (ErrInvalidLayer (-1) 0) = false)
  /\ (ntpClock (NTPTimestamp lateReport) - ntpClock (NTPTimestamp earlyReport)
      = 200000 * 1000000000
      /\ GetReferenceLayerRTPTimestamp ntpClock longGapManager 0 0 1 = inl 446744073
      /\ referenceTimestampSpec ntpClock 90000 0 earlyReport lateReport = 3474836480
      /\ (0 + (0 - (0 + 200000 * 90000))) mod 2 ^ 32 = 3474836480
      /\ 446744073 <> 3474836480).
Proof.
  split; [split; [reflexivity | split; reflexivity]|].
  split; [reflexivity|]. split; [reflexivity|]. split; [reflexivity|].
  split; [reflexivity | discriminate].
Qed.

Lemma reference_timestamp_same_layer_witness :
  GetReferenceLayerRTPTimestamp ntpClock alignmentManager 105000 1 1 = inl 105000.
Proof.
  apply (reference_timestamp_same_layer ntpClock alignmentManager 105000 1 layer1Report).
  - lia.
  - lia.
  - reflexivity.
  - vm_compute; discriminate.
Defined.

End ReferenceTimestampExamples.

(** ** Layered bitrates *)

Section BitrateFacts.
Import streamtrackermanager MachineInt.
Local Open Scope Z_scope.

Lemma length_setBr (br : list (list Z)) (i j : nat) (x : Z) :
  length (setBr br i j x) = length br.
Proof. unfold setBr. apply length_alter. Qed.

Lemma getBr_setBr_ne (br : list (list Z)) (i j i' j' : nat) (x : Z) :
  i ≠ i' \/ j ≠ j' -> getBr (setBr br i j x) i' j' = getBr br i' j'.
Proof.
  intros Hne. unfold getBr, setBr.
  destruct (decide (i = i')) as [<-|Hi].
  - destruct Hne as [Hne|Hne]; [contradiction|].
    rewrite list_lookup_alter_eq. destruct (br !! i) as [row|]; simpl; [|reflexivity].
    rewrite list_lookup_insert_ne by exact Hne. reflexivity.
  - rewrite list_lookup_alter_ne by exact Hi. reflexivity.
Qed.

(** A cell that reads a non-zero figure lies inside the matrix, so an
    assignment to it is read back. *)
Lemma getBr_setBr_eq (br : list (list Z)) (i j : nat) (x : Z) :
  getBr br i j ≠ 0 -> getBr (setBr br i j x) i j = x.
Proof.
  unfold getBr, setBr. rewrite list_lookup_alter_eq.
  destruct (br !! i) as [row|]; simpl; [|congruence].
  intros Hnz. destruct (row !! j) as [y|] eqn:Hj; simpl in Hnz; [|congruence].
  apply lookup_lt_Some in Hj. rewrite list_lookup_insert_eq by exact Hj. reflexivity.
Qed.

Lemma getBr_setBr_cases (br : list (list Z)) (i j i' j' : nat) (x : Z) :
  getBr (setBr br i j x) i' j' = x \/ getBr (setBr br i j x) i' j' = getBr br i' j'.
Proof.
  destruct (decide (i = i')) as [<-|Hi]; [|right; apply getBr_setBr_ne; auto].
  destruct (decide (j = j')) as [<-|Hj]; [|right; apply getBr_setBr_ne; auto].
  unfold getBr, setBr. rewrite list_lookup_alter_eq.
  destruct (br !! i) as [row|]; simpl; [|right; reflexivity].
  destruct (decide (j < length row)%nat) as [Hlt|Hge].
  - left. rewrite list_lookup_insert_eq by exact Hlt. reflexivity.
  - right. rewrite list_insert_ge by lia. reflexivity.
Qed.

Lemma getBr_row_length (br : list (list Z)) (i j : nat) :
  getBr br i j ≠ 0 -> (j < length (default [] (br !! i)))%nat.
Proof.
  unfold getBr. destruct (br !! i) as [row|]; simpl; [|congruence].
  destruct (row !! j) as [y|] eqn:Hj; simpl; [|congruence].
  intros _. eapply lookup_lt_Some, Hj.
Qed.

Lemma getBr_outside (br : list (list Z)) (i j : nat) :
  (length br <= i)%nat -> getBr br i j = 0.
Proof.
  intros Hge. unfold getBr. rewrite (lookup_ge_None_2 br i) by exact Hge. reflexivity.
Qed.

Lemma colSum_ext (br br' : list (list Z)) (j k : nat) :
  (forall k', (k' < k)%nat -> getBr br' k' j = getBr br k' j) ->
  colSum br' j k = colSum br j k.
Proof.
  induction k as [|k IH]; intros Hext; simpl; [reflexivity|].
  rewrite Hext by lia. rewrite IH; [reflexivity|].
  intros k' Hk'. apply Hext. lia.
Qed.

Lemma colSum_bounds (br : list (list Z)) (j k : nat) (M : Z) :
  (forall k', (k' < k)%nat -> 0 <= getBr br k' j < M) ->
  0 <= colSum br j k <= Z.of_nat k * M.
Proof.
  induction k as [|k IH]; intros Hb; simpl colSum; [lia|].
  specialize (Hb k ltac:(lia)) as Hk.
  assert (0 <= colSum br j k <= Z.of_nat k * M) by (apply IH; intros; apply Hb; lia).
  lia.
Qed.

Lemma colSum_nonneg (br : list (list Z)) (j k : nat) :
  (forall k', (k' < k)%nat -> 0 <= getBr br k' j) -> 0 <= colSum br j k.
Proof.
  induction k as [|k IH]; intros Hb; simpl colSum; [lia|].
  specialize (Hb k ltac:(lia)) as Hk.
  assert (0 <= colSum br j k) by (apply IH; intros; apply Hb; lia).
  lia.
Qed.

(** *** The inner loop, adding the rows below *)

Lemma addLowerRows_other (k : nat) (br : list (list Z)) (i j i' j' : nat) :
  i ≠ i' \/ j ≠ j' -> getBr (addLowerRows br i j k) i' j' = getBr br i' j'.
Proof.
  revert br. induction k as [|k IH]; intros br Hne; simpl; [reflexivity|].
  rewrite IH by exact Hne. apply getBr_setBr_ne, Hne.
Qed.

Lemma addLowerRows_cell (k : nat) (br : list (list Z)) (i j : nat) :
  (k <= i)%nat ->
  getBr br i j ≠ 0 -> 0 <= getBr br i j ->
  (forall k', (k' < k)%nat -> 0 <= getBr br k' j) ->
  getBr br i j + colSum br j k <= maxInt64 ->
  getBr (addLowerRows br i j k) i j = getBr br i j + colSum br j k.
Proof.
  revert br. induction k as [|k IH]; intros br Hki Hnz Hpos Hlow Hfit; simpl.
  - lia.
  - simpl in Hfit.
    pose proof (Hlow k ltac:(lia)) as Hk.
    assert (Hsum : 0 <= colSum br j k) by (apply colSum_nonneg; intros; apply Hlow; lia).
    set (x := wrap_int64 (getBr br i j + getBr br k j)).
    assert (Hx : x = getBr br i j + getBr br k j).
    { unfold x. apply wrap_int64_fits. unfold fitsInt64, minInt64. unfold maxInt64 in *. lia. }
    rewrite IH.
    + rewrite getBr_setBr_eq by exact Hnz.
      rewrite (colSum_ext br) by (intros; apply getBr_setBr_ne; lia). lia.
    + lia.
    + rewrite getBr_setBr_eq by exact Hnz. lia.
    + rewrite getBr_setBr_eq by exact Hnz. lia.
    + intros k' Hk'. rewrite getBr_setBr_ne by lia. apply Hlow. lia.
    + rewrite getBr_setBr_eq by exact Hnz.
      rewrite (colSum_ext br) by (intros; apply getBr_setBr_ne; lia). lia.
Qed.

(** *** The loop over the columns of one row *)

Lemma accumulateColumns_spec (j : nat) (br : list (list Z)) (i i' j' : nat) :
  (i <= 2)%nat ->
  (forall k jj, (k < i)%nat -> 0 <= getBr br k jj < 2 ^ 61) ->
  (forall jj, (jj < j)%nat -> 0 <= getBr br i jj < 2 ^ 61) ->
  getBr (accumulateColumns br i j) i' j' =
  if decide (i' = i /\ (j' < j)%nat /\ getBr br i j' ≠ 0)
  then getBr br i j' + colSum br j' i
  else getBr br i' j'.
Proof.
  revert br. induction j as [|j IH]; intros br Hi Hlow Hrow; simpl.
  - destruct (decide _) as [[_ [? _]]|_]; [lia | reflexivity].
  - set (br1 := if negb (getBr br i j =? 0) then addLowerRows br i j i else br).
    assert (Hother : forall a b, a ≠ i \/ b ≠ j -> getBr br1 a b = getBr br a b).
    { intros a b Hab. unfold br1. destruct (negb _); [|reflexivity].
      apply addLowerRows_other. destruct Hab; [left|right]; congruence. }
    assert (Hcol : forall b, colSum br1 b i = colSum br b i).
    { intros b. apply colSum_ext. intros k' Hk'. apply Hother. left. lia. }
    rewrite IH.
    + destruct (decide (i' = i /\ (j' < j)%nat /\ getBr br1 i j' ≠ 0)) as [[-> [Hj Hnz]]|Hn].
      * rewrite Hother in Hnz by (right; lia).
        rewrite Hother by (right; lia). rewrite Hcol.
        destruct (decide _) as [_|Hn]; [reflexivity|].
        exfalso. apply Hn. repeat split; [lia | exact Hnz].
      * destruct (decide (i' = i /\ j' = j)) as [[-> ->]|Hne].
        -- unfold br1. destruct (Z.eqb_spec (getBr br i j) 0) as [Hz|Hnz]; simpl.
           ++ destruct (decide _) as [[_ [_ ?]]|_]; [contradiction | reflexivity].
           ++ destruct (decide _) as [_|Hn']; [|exfalso; apply Hn'; repeat split; [lia|exact Hnz]].
              pose proof (Hrow j ltac:(lia)) as Hc.
              pose proof (colSum_bounds br j i (2 ^ 61)
                            (fun k' Hk' => Hlow k' j Hk')) as Hs.
              apply addLowerRows_cell; try lia.
              ** intros k' Hk'. apply Hlow. exact Hk'.
              ** unfold maxInt64. nia.
        -- rewrite Hother by (destruct (decide (i' = i)); [right|left]; intuition congruence).
           destruct (decide _) as [[-> [Hj Hnz]]|_]; [|reflexivity].
           exfalso. apply Hn. repeat split; [|rewrite Hother by (right; lia); exact Hnz].
           assert (j' ≠ j) by intuition congruence. lia.
    + exact Hi.
    + intros k jj Hk. rewrite Hother by (left; lia). apply Hlow. exact Hk.
    + intros jj Hjj. rewrite Hother by (right; lia). apply Hrow. lia.
Qed.

(** *** The loop over the rows *)

Lemma accumulateRows_spec (i : nat) (br : list (list Z)) (i' j' : nat) :
  (i <= 2)%nat ->
  (forall k jj, (k <= i)%nat -> 0 <= getBr br k jj < 2 ^ 61) ->
  getBr (accumulateRows br i) i' j' =
  if decide ((1 <= i' <= i)%nat /\ getBr br i' j' ≠ 0)
  then getBr br i' j' + colSum br j' i'
  else getBr br i' j'.
Proof.
  revert br. induction i as [|i IH]; intros br Hi Hb; simpl.
  - destruct (decide _) as [[? _]|_]; [lia | reflexivity].
  - set (br1 := accumulateColumns br (S i) (length (default [] (br !! S i)))).
    assert (Hbr1 : forall a b, getBr br1 a b =
              if decide (a = S i /\ (b < length (default [] (br !! S i)))%nat
                         /\ getBr br (S i) b ≠ 0)
              then getBr br (S i) b + colSum br b (S i) else getBr br a b).
    { intros a b. apply accumulateColumns_spec; [exact Hi | |].
      - intros k jj Hk. apply Hb. lia.
      - intros jj _. apply Hb. lia. }
    assert (Hlow : forall a b, (a <= i)%nat -> getBr br1 a b = getBr br a b).
    { intros a b Ha. rewrite Hbr1. destruct (decide _) as [[? _]|_]; [lia | reflexivity]. }
    rewrite IH.
    + destruct (decide ((1 <= i' <= i)%nat /\ getBr br1 i' j' ≠ 0)) as [[Hr Hnz]|Hn].
      * rewrite Hlow in Hnz by lia. rewrite Hlow by lia.
        rewrite (colSum_ext br) by (intros; apply Hlow; lia).
        destruct (decide _) as [_|Hn]; [reflexivity|].
        exfalso. apply Hn. split; [lia | exact Hnz].
      * rewrite Hbr1.
        destruct (decide (i' = S i /\ _)) as [[-> [Hlen Hnz]]|Hn1].
        -- destruct (decide _) as [_|Hn2]; [reflexivity|].
           exfalso. apply Hn2. split; [lia | exact Hnz].
        -- destruct (decide _) as [[Hr Hnz]|_]; [|reflexivity].
           exfalso. destruct (decide (i' = S i)) as [->|Hne].
           ++ apply Hn1. repeat split; [|exact Hnz]. apply getBr_row_length, Hnz.
           ++ apply Hn. split; [lia|]. rewrite Hlow by lia. exact Hnz.
    + lia.
    + intros k jj Hk. rewrite Hlow by exact Hk. apply Hb. lia.
Qed.

(** *** The matrix read from the trackers *)

Lemma fillRow_invariant (Q : Z -> Prop) (tls : list Z) (n : nat)
    (br : list (list Z)) (i j : nat) :
  (forall jj, Q (default 0 (tls !! jj))) ->
  (forall a b, Q (getBr br a b)) ->
  forall a b, Q (getBr (fillRow br tls i j n) a b).
Proof.
  intros Htls. revert br j. induction n as [|n IH]; intros br j Hbr a b; simpl.
  - apply Hbr.
  - apply IH. intros a' b'.
    destruct (getBr_setBr_cases br i j a' b' (default 0 (tls !! j))) as [-> | ->];
      [apply Htls | apply Hbr].
Qed.

Lemma fillRow_length (tls : list Z) (n : nat) (br : list (list Z)) (i j : nat) :
  length (fillRow br tls i j n) = length br.
Proof.
  revert br j. induction n as [|n IH]; intros br j; simpl; [reflexivity|].
  rewrite IH. apply length_setBr.
Qed.

Lemma fillTrackers_length (s : StreamTrackerManager) (ts : list (option StreamTracker))
    (br : list (list Z)) (i : nat) :
  length (fillTrackers s br i ts) = length br.
Proof.
  revert br i. induction ts as [|[tracker|] ts IH]; intros br i; simpl.
  - reflexivity.
  - rewrite IH. apply fillRow_length.
  - apply IH.
Qed.

Lemma fillTrackers_bounded (s : StreamTrackerManager) (ts : list (option StreamTracker))
    (br : list (list Z)) (i : nat) :
  (forall tracker v, Some tracker ∈ ts -> v ∈ BitrateTemporalCumulative tracker ->
                     0 <= v < 2 ^ 61) ->
  (forall a b, 0 <= getBr br a b < 2 ^ 61) ->
  forall a b, 0 <= getBr (fillTrackers s br i ts) a b < 2 ^ 61.
Proof.
  revert br i. induction ts as [|[tracker|] ts IH]; intros br i Hts Hbr; simpl.
  - exact Hbr.
  - apply IH.
    + intros tr v Htr. apply Hts. right. exact Htr.
    + apply (fillRow_invariant (fun v => 0 <= v < 2 ^ 61)); [|exact Hbr].
      intros jj. cbv beta. destruct (hasSpatialLayerLocked s (Z.of_nat i)).
      * destruct (BitrateTemporalCumulative tracker !! jj) as [v|] eqn:Hv; simpl; [|lia].
        apply (Hts tracker v); [left | eapply list_elem_of_lookup_2, Hv].
      * match goal with |- context [default 0 ?o] => destruct o as [v|] eqn:Hv end;
          simpl; [|lia].
        change [0; 0; 0; 0] with (replicate 4%nat 0) in Hv.
        apply lookup_replicate in Hv as [-> _]. lia.
  - apply IH; [|exact Hbr]. intros tr v Htr. apply Hts. right. exact Htr.
Qed.

Lemma getBr_zeroBitrates (a b : nat) : getBr zeroBitrates a b = 0.
Proof.
  unfold getBr, zeroBitrates.
  destruct (replicate numSpatial (replicate numTemporal 0) !! a) as [row|] eqn:Ha;
    simpl; [|reflexivity].
  apply lookup_replicate in Ha as [-> _].
  destruct (replicate numTemporal 0 !! b) as [v|] eqn:Hb; simpl; [|reflexivity].
  apply lookup_replicate in Hb as [-> _]. reflexivity.
Qed.

Lemma trackerBitratesBounded_elem (s : StreamTrackerManager) :
  trackerBitratesBounded s = true ->
  forall tracker v, Some tracker ∈ trackers s -> v ∈ BitrateTemporalCumulative tracker ->
                    0 <= v < 2 ^ 61.
Proof.
  unfold trackerBitratesBounded. rewrite forallb_forall. intros Hall tracker v Htr Hv.
  apply list_elem_of_In in Htr. specialize (Hall _ Htr). simpl in Hall.
  rewrite forallb_forall in Hall. apply list_elem_of_In in Hv. specialize (Hall _ Hv).
  unfold bitrateBounded in Hall. lia.
Qed.

(** The bitrates of an SVC track in closed form: a cell that the trackers
    report as zero stays zero, any other cell of a row above row 0
    receives the sum of its column up to its row. *)
Lemma svc_bitrates_closed_form (s : StreamTrackerManager) (sp t : nat) :
  isSVC s = true ->
  trackerBitratesBounded s = true ->
  let raw := fillTrackers s zeroBitrates 0 (trackers s) in
  (forall a b, 0 <= getBr raw a b < 2 ^ 61)
  /\ getBr (snd (GetLayeredBitrate s)) sp t =
     if decide ((1 <= sp)%nat /\ getBr raw sp t ≠ 0)
     then getBr raw sp t + colSum raw t sp
     else getBr raw sp t.
Proof.
  intros Hsvc Hb raw.
  assert (Hraw : forall a b, 0 <= getBr raw a b < 2 ^ 61).
  { apply fillTrackers_bounded.
    - apply trackerBitratesBounded_elem, Hb.
    - intros a b. rewrite getBr_zeroBitrates. lia. }
  split; [exact Hraw|].
  unfold GetLayeredBitrate, getLayeredBitrateLocked. rewrite Hsvc. simpl snd.
  fold raw.
  assert (Hlen : length raw = 3%nat).
  { unfold raw. rewrite fillTrackers_length. reflexivity. }
  rewrite Hlen. change (3 - 1)%nat with 2%nat.
  rewrite accumulateRows_spec; [|lia | intros; apply Hraw].
  destruct (decide ((1 <= sp <= 2)%nat /\ _)) as [[Hr Hnz]|Hn].
  - destruct (decide _) as [_|Hn']; [reflexivity|].
    exfalso. apply Hn'. split; [lia | exact Hnz].
  - destruct (decide _) as [[Hr Hnz]|_]; [|reflexivity].
    exfalso. apply Hn. split; [|exact Hnz].
    destruct (decide (sp <= 2)%nat); [lia|].
    rewrite getBr_outside in Hnz by lia. congruence.
Qed.

(** C3, as the code has it: for an SVC track whose trackers report
    figures that are not negative, every cell of a row [s >= 1] that is
    not zero is at least the cell below it in the same column. *)
Theorem svc_bitrates_cumulative (s : StreamTrackerManager) (sp t : nat) :
  isSVC s = true ->
  trackerBitratesBounded s = true ->
  (1 <= sp)%nat ->
  getBr (snd (GetLayeredBitrate s)) sp t ≠ 0 ->
  getBr (snd (GetLayeredBitrate s)) (sp - 1) t <= getBr (snd (GetLayeredBitrate s)) sp t.
Proof.
  intros Hsvc Hb Hsp Hnz.
  destruct (svc_bitrates_closed_form s sp t Hsvc Hb) as [Hraw Hcell].
  destruct (svc_bitrates_closed_form s (sp - 1) t Hsvc Hb) as [_ Hbelow].
  cbv zeta in *.
  set (raw := fillTrackers s zeroBitrates 0 (trackers s)) in *.
  rewrite Hcell in Hnz |- *. rewrite Hbelow.
  destruct sp as [|n]; [lia|].
  replace (S n - 1)%nat with n by lia.
  destruct (decide ((1 <= S n)%nat /\ getBr raw (S n) t ≠ 0)) as [[_ Hn0]|Hn0].
  - simpl colSum.
    pose proof (Hraw (S n) t) as H1. pose proof (Hraw n t) as H2.
    assert (0 <= colSum raw t n) by (apply colSum_nonneg; intros; apply Hraw).
    clear Hbelow Hcell. destruct (decide _); lia.
  - exfalso. apply Hn0. split; [lia | exact Hnz].
Qed.

End BitrateFacts.

Section BitrateExamples.
Import streamtrackermanager examples.
Local Open Scope Z_scope.

(** The aggregation scenario: two layers at 100000 bytes per second give
    100000 in row 0 and 200000 in row 1. *)
Example svc_bitrates_scenario :
  GetLayeredBitrate twoLayerManager
  = ([0; 1], [[100000; 0; 0; 0]; [200000; 0; 0; 0]; [0; 0; 0; 0]]).
Proof. reflexivity. Qed.

Lemma svc_bitrates_cumulative_witness :
  getBr (snd (GetLayeredBitrate twoLayerManager)) (1 - 1) 0
  <= getBr (snd (GetLayeredBitrate twoLayerManager)) 1 0.
Proof.
  apply (svc_bitrates_cumulative twoLayerManager 1 0).
  - reflexivity.
  - reflexivity.
  - lia.
  - discriminate.
Defined.

(** With a single published layer the row of layer 1 stays zero, below the
    row of layer 0: the rows are not cumulative. *)
Lemma svc_bitrates_cumulative_counterexample :
  isSVC singleLayerManager = true
  /\ getBr (snd (GetLayeredBitrate singleLayerManager)) 0 0 = 100000
  /\ getBr (snd (GetLayeredBitrate singleLayerManager)) 1 0 = 0
  /\ ~ (getBr (snd (GetLayeredBitrate singleLayerManager)) 1 0
        >= getBr (snd (GetLayeredBitrate singleLayerManager)) (1 - 1) 0).
Proof.
  split; [reflexivity|]. split; [reflexivity|]. split; [reflexivity|].
  vm_compute. intros H. apply H. reflexivity.
Qed.

End BitrateExamples.

(** ** Adding and deleting down tracks *)

Section ReceiverFacts.
Import downtrackspreader receiver.

(** After [Store] the map holds the sender under its subscriber id, and
    the shadow slice holds the sender next to what was stored under the
    other ids: a former sender of the same subscriber is gone. *)
Lemma Store_spec (d : DownTrackSpreader) (ts : TrackSender) :
  downTracks (Store d ts) !! SubscriberID ts = Some ts
  /\ (forall id, id ≠ SubscriberID ts ->
        downTracks (Store d ts) !! id = downTracks d !! id)
  /\ downTracksShadow (Store d ts)
     ≡ₚ ts :: (map_to_list (delete (SubscriberID ts) (downTracks d))).*2.
Proof.
  unfold Store, shadowDownTracks; cbn [downTracks downTracksShadow]. split; [|split].
  - apply lookup_insert_eq.
  - intros id Hne. apply lookup_insert_ne. congruence.
  - rewrite <- insert_delete_eq.
    rewrite map_to_list_insert by apply lookup_delete_eq.
    reflexivity.
Qed.

Lemma Free_spec (d : DownTrackSpreader) (id : string) :
  downTracks (Free d id) = delete id (downTracks d)
  /\ downTracksShadow (Free d id) = (map_to_list (delete id (downTracks d))).*2.
Proof. split; reflexivity. Qed.

(** The shadow slice holds one sender for each subscriber id of the
    map. *)
Lemma shadow_one_per_subscriber (d : DownTrackSpreader) :
  length (downTracksShadow (shadowDownTracks d)) = size (downTracks d).
Proof.
  unfold shadowDownTracks; cbn [downTracks downTracksShadow].
  rewrite length_fmap. apply length_map_to_list.
Qed.

(** C9: [AddDownTrack] answers with the receiver-closed error exactly when
    the receiver is closed, and then changes nothing; on an open receiver
    it answers nil, the spreader holds the sender under its subscriber id
    in place of any former sender of that subscriber, with one entry per
    subscriber id in the shadow slice, and the calls that tell the sender
    the maximal published layer and the maximal temporal layer seen come
    before the store; [DeleteDownTrack] has no error to return: on a closed
    receiver it does nothing, on an open one it removes the subscriber. *)
Theorem add_down_track_contract (w : WebRTCReceiver) (track : TrackSender) :
  (snd (AddDownTrack w track) = Some ErrReceiverClosed <-> closed w = true)
  /\ (closed w = true -> fst (AddDownTrack w track) = w)
  /\ (closed w = false ->
      snd (AddDownTrack w track) = None
      /\ downTracks (downTrackSpreader (fst (AddDownTrack w track))) !! SubscriberID track
         = Some track
      /\ (forall id, id ≠ SubscriberID track ->
            downTracks (downTrackSpreader (fst (AddDownTrack w track))) !! id
            = downTracks (downTrackSpreader w) !! id)
      /\ downTracksShadow (downTrackSpreader (fst (AddDownTrack w track)))
         ≡ₚ track :: (map_to_list (delete (SubscriberID track)
                                     (downTracks (downTrackSpreader w)))).*2
      /\ length (downTracksShadow (downTrackSpreader (fst (AddDownTrack w track))))
         = size (downTracks (downTrackSpreader (fst (AddDownTrack w track))))
      /\ exists logged,
           effects (fst (AddDownTrack w track))
           = effects w ++ logged
             ++ [ TrackInfoAvailable track;
                  UpTrackMaxPublishedLayerChange track
                    (streamtrackermanager.maxPublishedLayer (streamTrackerManager w));
                  UpTrackMaxTemporalLayerSeenChange track
                    (streamtrackermanager.maxTemporalLayerSeen (streamTrackerManager w));
                  SpreaderStore track ])
  /\ (forall subscriberID,
        (closed w = true -> DeleteDownTrack w subscriberID = w)
        /\ (closed w = false ->
            downTracks (downTrackSpreader (DeleteDownTrack w subscriberID))
            = delete subscriberID (downTracks (downTrackSpreader w)))).
Proof.
  unfold AddDownTrack, DeleteDownTrack.
  destruct (closed w) eqn:Hc; cbn [fst snd].
  - split; [tauto|]. split; [reflexivity|]. split; [discriminate|].
    intros id. split; [reflexivity | discriminate].
  - split; [split; discriminate|]. split; [discriminate|]. split.
    + intros _. unfold withSpreader; cbn [downTrackSpreader effects].
      destruct (Store_spec (downTrackSpreader w) track) as [Hlook [Hother Hperm]].
      split; [reflexivity|]. split; [exact Hlook|]. split; [exact Hother|].
      split; [exact Hperm|]. split.
      * unfold Store, shadowDownTracks; cbn [downTracks downTracksShadow].
        rewrite length_fmap. apply length_map_to_list.
      * eexists. reflexivity.
    + intros id. split; [discriminate | reflexivity].
Qed.

End ReceiverFacts.

Section ReceiverExamples.
Import downtrackspreader receiver examples.

(** A second sender of subscriber "alice" replaces the first one. *)
Example add_down_track_replaces :
  downTracksShadow (downTrackSpreader (fst (AddDownTrack openReceiver aliceSecond)))
  = [aliceSecond]
  /\ effects (fst (AddDownTrack openReceiver aliceSecond))
     = [ LogReplacingDownTrack "alice";
         TrackInfoAvailable aliceSecond;
         UpTrackMaxPublishedLayerChange aliceSecond 1;
         UpTrackMaxTemporalLayerSeenChange aliceSecond 0;
         SpreaderStore aliceSecond ].
Proof. split; vm_compute; reflexivity. Qed.

Lemma add_down_track_contract_witness :
  closed openReceiver = false
  /\ snd (AddDownTrack openReceiver aliceSecond) = None
  /\ downTracks (downTrackSpreader (fst (AddDownTrack openReceiver aliceSecond)))
       !! SubscriberID aliceSecond = Some aliceSecond.
Proof.
  split; [reflexivity|].
  pose proof (proj1 (proj2 (proj2 (add_down_track_contract openReceiver aliceSecond)))
                eq_refl) as H.
  split; [exact (proj1 H) | exact (proj1 (proj2 H))].
Defined.

End ReceiverExamples.

(** ** The signal relay: the reader *)

Section SignalReaderFacts.
Import routing MachineInt.
Local Open Scope Z_scope.

Context {Message : Type}.
Variable reader : Frame Message -> list Message + signalError.

(** C7: on a frame whose messages the wrapped reader hands over, and as
    long as the overlap fits Go's [int], a frame ahead of the local
    counter is refused with [ErrSignalMessageDropped]
    and leaves the reader as it was; a frame behind the counter is
    delivered without its first (counter - seq) messages, which is nothing
    and leaves the counter where it is when the overlap covers the batch;
    a frame at the counter is delivered
    whole; and whenever messages are delivered the counter advances by
    their number. *)
Theorem signal_reader_contract (r : signalMessageReader) (msg : Frame Message)
    (res : list Message) :
  reader msg = inl res ->
  0 <= reader_seq r < 2 ^ 64 ->
  0 <= Seq msg < 2 ^ 64 ->
  reader_seq r - Seq msg < 2 ^ 63 ->
  (reader_seq r < Seq msg ->
     Read reader r msg = Returned r (inr ErrSignalMessageDropped))
  /\ (Seq msg < reader_seq r ->
      Read reader r msg =
      Returned
        (mkReader (wrap_uint64
           (reader_seq r
            + Z.of_nat (length (drop (Z.to_nat (reader_seq r - Seq msg)) res)))))
        (inl (drop (Z.to_nat (reader_seq r - Seq msg)) res)))
  /\ (Seq msg < reader_seq r -> Z.of_nat (length res) <= reader_seq r - Seq msg ->
      Read reader r msg = Returned r (inl []))
  /\ (Seq msg = reader_seq r ->
      Read reader r msg =
      Returned (mkReader (wrap_uint64 (reader_seq r + Z.of_nat (length res)))) (inl res)).
Proof.
  intros Hres Hseq Hmsg Hint.
  assert (Hbehind : Seq msg < reader_seq r ->
            Read reader r msg =
            Returned
              (mkReader (wrap_uint64
                 (reader_seq r
                  + Z.of_nat (length (drop (Z.to_nat (reader_seq r - Seq msg)) res)))))
              (inl (drop (Z.to_nat (reader_seq r - Seq msg)) res))).
  { intros Hcmp. unfold Read. rewrite Hres.
    destruct (Z.ltb_spec (reader_seq r) (Seq msg)); [lia|].
    destruct (Z.ltb_spec (Seq msg) (reader_seq r)); [|lia].
    assert (Hn : wrap_int64 (wrap_uint64 (reader_seq r - Seq msg)) = reader_seq r - Seq msg).
    { unfold wrap_uint64. rewrite Z.mod_small by lia.
      unfold wrap_int64. rewrite Z.mod_small by lia. lia. }
    rewrite Hn.
    destruct (Z.ltb_spec (Z.of_nat (length res)) (reader_seq r - Seq msg)) as [Hlong|Hshort].
    - destruct (Z.ltb_spec (Z.of_nat (length res)) 0); [lia|].
      rewrite Nat2Z.id.
      rewrite (drop_ge res (Z.to_nat (reader_seq r - Seq msg))) by lia.
      rewrite drop_all. reflexivity.
    - destruct (Z.ltb_spec (reader_seq r - Seq msg) 0); [lia|]. reflexivity. }
  split; [|split; [exact Hbehind|split]].
  - intros Hcmp. unfold Read. rewrite Hres.
    destruct (Z.ltb_spec (reader_seq r) (Seq msg)); [reflexivity | lia].
  - intros Hcmp Hcover. rewrite (Hbehind Hcmp).
    rewrite drop_ge by lia. simpl. rewrite Z.add_0_r.
    unfold wrap_uint64. rewrite Z.mod_small by lia. destruct r; reflexivity.
  - intros Hcmp. unfold Read. rewrite Hres.
    destruct (Z.ltb_spec (reader_seq r) (Seq msg)); [lia|].
    destruct (Z.ltb_spec (Seq msg) (reader_seq r)); [lia|]. reflexivity.
Qed.

End SignalReaderFacts.

Section SignalReaderExamples.
Import routing MachineInt examples.
Local Open Scope Z_scope.

Lemma signal_reader_contract_witness :
  Read signalResponseMessageReader_Read readerAtFive overlappingFrame
  = Returned (mkReader 7) (inl [32; 33]).
Proof.
  refine (proj1 (proj2 (signal_reader_contract signalResponseMessageReader_Read
                          readerAtFive overlappingFrame [30; 31; 32; 33] eq_refl _ _ _)) _);
    simpl; lia.
Defined.

End SignalReaderExamples.

(** ** The signal relay: the writer loop of the sink *)

Section SignalSinkFacts.
Import routing MachineInt.
Local Open Scope Z_scope.

Context {Message : Type}.

(** After a failed send the interval is never above the maximum, and it
    is the double of the former one, or the maximum if that is less. *)
Lemma backoff_capped (c : SignalRelayConfig) (interval : Z) :
  backoff c interval <= MaxRetryInterval c
  /\ (0 <= interval < 2 ^ 62 -> backoff c interval = Z.min (2 * interval) (MaxRetryInterval c)).
Proof.
  unfold backoff. split.
  - destruct (Z.ltb_spec (MaxRetryInterval c) (wrap_int64 (interval * 2))); lia.
  - intros Hi. rewrite wrap_int64_fits by (unfold fitsInt64, minInt64, maxInt64; lia).
    destruct (Z.ltb_spec (MaxRetryInterval c) (interval * 2)); lia.
Qed.

(** The calls on [Stream.Close] made after the loop. *)
Lemma writeExit_closes (s : signalMessageSink Message) (l : locals) :
  closes (writeExit s l)
  = closes s
    ++ (if draining s then [None] else [])
    ++ (if bool_decide (err l ≠ None) && CloseOnFailure s
        then [Some ErrSignalWriteFailed] else []).
Proof.
  destruct s as [c cof boc sq q w d sn cl]. unfold writeExit, withWriting, withClose. simpl.
  destruct d, (bool_decide (err l ≠ None)), cof;
    simpl; rewrite ?app_nil_r, <- ?app_assoc; reflexivity.
Qed.

(** C8, as the code has it.  In a turn that reaches the send: a failed
    send before the deadline keeps queue and counter and backs the
    interval off, doubled and capped by [MaxRetryInterval]; a failed send
    after the deadline empties the queue, moves the counter past all that
    was queued, ends the loop, and the stream is closed with
    [ErrSignalWriteFailed] when [CloseOnFailure] is set; a successful send
    moves the counter by the length of the batch that was sent and removes
    that batch from the queue, keeping what was enqueued meanwhile. *)
Theorem signal_sink_write_step (s : signalMessageSink Message) (l : locals) (t : turn Message) :
  sendsThisTurn s t = true ->
  (forall e, sendResult t = Some e -> now t <= deadline l ->
     exists s',
       writeStep s l t = Continue s' (mkLocals (backoff (Config s) (interval l)) (deadline l) (Some e))
       /\ seq s' = seq s /\ queue s' = queue s ++ enqueued t
       /\ backoff (Config s) (interval l) <= MaxRetryInterval (Config s)
       /\ (0 <= interval l < 2 ^ 62 ->
           backoff (Config s) (interval l)
           = Z.min (2 * interval l) (MaxRetryInterval (Config s))))
  /\ (forall e, sendResult t = Some e -> deadline l < now t ->
      exists s' l',
        writeStep s l t = Break s' l'
        /\ queue s' = []
        /\ seq s' = wrap_uint64 (seq s + Z.of_nat (length (queue s ++ enqueued t)))
        /\ closes (writeExit s' l')
           = closes s
             ++ (if draining s || closeCalled t then [None] else [])
             ++ (if CloseOnFailure s then [Some ErrSignalWriteFailed] else []))
  /\ (sendResult t = None ->
      exists s' l',
        (writeStep s l t = if draining s then Break s' l' else Continue s' l')
        /\ seq s' = wrap_uint64 (seq s + Z.of_nat (length (queue s)))
        /\ queue s' = enqueued t
        /\ sends s' = sends s ++ [(Writer_Write (seq s) (draining s) (queue s), interval l)]
        /\ interval l' = MinRetryInterval (Config s)).
Proof.
  intros Hgo. unfold sendsThisTurn in Hgo. apply negb_true_iff in Hgo.
  unfold writeStep. rewrite Hgo.
  split; [|split].
  - intros e He Hnow. rewrite He.
    cbn [interfere withSend queue seq Config].
    destruct (Z.ltb_spec (deadline l) (now t)); [lia|].
    eexists. split; [reflexivity|]. cbn [seq queue].
    split; [reflexivity|]. split; [reflexivity|]. apply backoff_capped.
  - intros e He Hnow. rewrite He.
    cbn [interfere withSend queue seq Config].
    destruct (Z.ltb_spec (deadline l) (now t)); [|lia].
    eexists; eexists. split; [reflexivity|].
    split; [reflexivity|]. split; [reflexivity|].
    rewrite writeExit_closes. reflexivity.
  - intros He. rewrite He.
    cbn [interfere withSend queue seq Config draining].
    eexists; eexists. split; [reflexivity|].
    cbn [withQueue seq queue sends interval]. split; [reflexivity|].
    split; [apply drop_app_length|]. split; reflexivity.
Qed.

End SignalSinkFacts.

Section SignalSinkExamples.
Import routing MachineInt examples.
Local Open Scope Z_scope.

(** The retry scenario: the first send of three queued messages fails
    early, the second goes through with [seq = 0]; the queue is then empty
    and the loop ends. *)
Example signal_sink_retry_scenario :
  option_map (fun s => (seq s, queue s, sends s, closes s))
    (write closingSink 0 [earlyFailure; success; idle])
  = Some (3, [],
          [ (mkFrame 0 false [1; 2; 3], 500000000);
            (mkFrame 0 false [1; 2; 3], 1000000000) ],
          []).
Proof. reflexivity. Qed.

Lemma signal_sink_write_step_witness :
  exists s' l',
    writeStep closingSink (mkLocals 500000000 7500000000 None) lateFailure = Break s' l'
    /\ queue s' = []
    /\ seq s' = 4
    /\ closes (writeExit s' l') = [Some ErrSignalWriteFailed].
Proof.
  destruct (proj1 (proj2 (signal_sink_write_step closingSink
                            (mkLocals 500000000 7500000000 None) lateFailure eq_refl))
              (ErrOther 0) eq_refl) as [s' [l' [Hstep [Hq [Hs Hc]]]]].
  - simpl. lia.
  - exists s', l'. split; [exact Hstep|]. split; [exact Hq|].
    split; [exact Hs | exact Hc].
Defined.

(** A sink whose [CloseOnFailure] is not set gives up just the same, but
    its stream is not closed with [ErrSignalWriteFailed]: no call of
    [Stream.Close] is made at all. *)
Lemma signal_sink_write_step_counterexample :
  option_map (fun s => (seq s, queue s, closes s)) (write quietSink 0 [lateFailure])
  = Some (4, [], [])
  /\ sendResult lateFailure = Some (ErrOther 0)
  /\ 0 + RetryTimeout relayConfig < now lateFailure.
Proof. split; [reflexivity|]. split; [reflexivity|]. simpl. lia. Qed.

End SignalSinkExamples.

(** ** The RED encoder: writing into the buffer *)

Section RedBufferFacts.
Import redreceiver MachineInt.
Local Open Scope Z_scope.

Lemma length_splice (buf : list Z) (i : nat) (xs : list Z) :
  (i + length xs <= length buf)%nat -> length (splice buf i xs) = length buf.
Proof.
  intros H. unfold splice. rewrite !length_app, length_take, length_drop. lia.
Qed.

Lemma splice_adjacent (buf : list Z) (i n : nat) (xs ys : list Z) :
  n = (i + length xs)%nat ->
  (n <= length buf)%nat ->
  splice (splice buf i xs) n ys = splice buf i (xs ++ ys).
Proof.
  intros -> H. unfold splice.
  assert (Hlen : (i + length xs)%nat = length (take i buf ++ xs)).
  { rewrite length_app, length_take. lia. }
  rewrite (app_assoc (take i buf) xs).
  rewrite (take_app_length' _ _ _ Hlen).
  rewrite (drop_app_add' _ _ _ _ Hlen).
  rewrite drop_drop, length_app, <- !app_assoc.
  do 3 f_equal. f_equal. lia.
Qed.

Lemma splice_nil (buf : list Z) (i : nat) : splice buf i [] = buf.
Proof. unfold splice. simpl. rewrite Nat.add_0_r. apply take_drop. Qed.

Lemma insert_splice (buf : list Z) (i : nat) (x : Z) :
  (i < length buf)%nat -> <[i := x]> buf = splice buf i [x].
Proof.
  intros H. unfold splice. rewrite insert_take_drop by exact H.
  simpl. replace (i + 1)%nat with (S i) by lia. reflexivity.
Qed.

Lemma take_splice_0 (buf xs : list Z) :
  take (length xs) (splice buf 0 xs) = xs.
Proof. unfold splice. rewrite take_0. simpl. apply take_app_length. Qed.

Lemma PutUint32_splice (buf : list Z) (i : nat) (v : Z) :
  (i + 4 <= length buf)%nat ->
  PutUint32 buf i v = splice buf i (bigEndian32 v).
Proof.
  intros H. unfold PutUint32, bigEndian32.
  rewrite (insert_splice buf i) by lia.
  rewrite (insert_splice _ (i + 1)) by (rewrite length_splice; simpl; lia).
  rewrite (splice_adjacent buf i (i + 1) [_] [_]) by (simpl; lia). cbn [app].
  rewrite (insert_splice _ (i + 2)) by (rewrite length_splice; simpl; lia).
  rewrite (splice_adjacent buf i (i + 2) [_; _] [_]) by (simpl; lia). cbn [app].
  rewrite (insert_splice _ (i + 3)) by (rewrite length_splice; simpl; lia).
  rewrite (splice_adjacent buf i (i + 3) [_; _; _] [_]) by (simpl; lia).
  reflexivity.
Qed.

Lemma copy_splice (buf : list Z) (i : nat) (src : list Z) :
  (i + length src <= length buf)%nat ->
  copy buf i src = (splice buf i src, length src).
Proof.
  intros H. unfold copy, splice.
  rewrite Nat.min_r by lia. rewrite firstn_all. reflexivity.
Qed.

(** When the payload does not fit behind [index], fewer bytes are copied
    than the payload has. *)
Lemma copy_short (buf : list Z) (i : nat) (src : list Z) :
  (i <= length buf)%nat -> (length buf < i + length src)%nat ->
  (snd (copy buf i src) < length src)%nat.
Proof. intros Hi H. unfold copy. simpl. lia. Qed.

Lemma length_bigEndian32 (v : Z) : length (bigEndian32 v) = 4%nat.
Proof. reflexivity. Qed.

(** *** The header word *)

Lemma lor_shiftl_low (a b n : Z) :
  0 <= n -> 0 <= b < 2 ^ n -> Z.lor (Z.shiftl a n) b = a * 2 ^ n + b.
Proof.
  intros Hn Hb.
  assert (Hland : Z.land (Z.shiftl a n) b = 0).
  { apply Z.bits_inj'. intros m Hm. rewrite Z.land_spec, Z.bits_0.
    destruct (Z.lt_ge_cases m n) as [Hlt|Hge].
    - rewrite Z.shiftl_spec_low by exact Hlt. reflexivity.
    - rewrite <- (Z.mod_small b (2 ^ n)) by exact Hb.
      rewrite Z.mod_pow2_bits_high by lia. apply andb_false_r. }
  pose proof (Z.add_lor_land (Z.shiftl a n) b) as H.
  rewrite Hland, Z.add_0_r in H. rewrite H.
  rewrite Z.shiftl_mul_pow2 by exact Hn. reflexivity.
Qed.

(** The header built with shifts and ors is the number whose fields are
    F = 1, the Opus payload type, the timestamp offset and the block
    length. *)
Lemma redBlockHeader_word (primary p : Packet) :
  redBlockHeader primary p
  = redHeaderWord 1 opusPT (timestampOffset14 primary p) (blockLength10 p).
Proof.
  unfold redBlockHeader, redHeaderWord, timestampOffset14, blockLength10, wrap_uint32.
  change (Z.lor 128 opusPT) with 239.
  change (Z.shiftl 239 14 mod 2 ^ 32) with (Z.shiftl 239 14).
  change 16383 with (Z.ones 14). change 1023 with (Z.ones 10).
  rewrite !Z.land_ones by lia.
  rewrite (Z.mod_mod_divide _ (2 ^ 32) (2 ^ 14)) by (exists (2 ^ 18); reflexivity).
  rewrite (Z.mod_mod_divide _ (2 ^ 32) (2 ^ 10)) by (exists (2 ^ 22); reflexivity).
  pose proof (Z.mod_pos_bound (Timestamp primary - Timestamp p) (2 ^ 14) ltac:(lia)) as Ho.
  pose proof (Z.mod_pos_bound (Z.of_nat (length (Payload p))) (2 ^ 10) ltac:(lia)) as Hl.
  rewrite (lor_shiftl_low 239 _ 14) by lia.
  set (o := (Timestamp primary - Timestamp p) mod 2 ^ 14) in *.
  set (len := Z.of_nat (length (Payload p)) mod 2 ^ 10) in *.
  rewrite (Z.mod_small (Z.shiftl _ 10)) by (rewrite Z.shiftl_mul_pow2 by lia; lia).
  rewrite (lor_shiftl_low _ len 10) by lia.
  unfold opusPT. lia.
Qed.

(** The fields of a header word can be read back from it. *)
Lemma redHeaderWord_fields (f pt tsOffset blockLength : Z) :
  0 <= f < 2 -> 0 <= pt < 2 ^ 7 -> 0 <= tsOffset < 2 ^ 14 -> 0 <= blockLength < 2 ^ 10 ->
  let w := redHeaderWord f pt tsOffset blockLength in
  0 <= w < 2 ^ 32
  /\ Z.shiftr w 31 = f
  /\ Z.land (Z.shiftr w 24) 127 = pt
  /\ Z.land (Z.shiftr w 10) 16383 = tsOffset
  /\ Z.land w 1023 = blockLength.
Proof.
  intros Hf Hpt Ho Hl w. subst w. unfold redHeaderWord.
  change 127 with (Z.ones 7). change 16383 with (Z.ones 14). change 1023 with (Z.ones 10).
  rewrite !Z.land_ones by lia. rewrite !Z.shiftr_div_pow2 by lia.
  change (2 ^ 31) with 2147483648. change (2 ^ 24) with 16777216.
  change (2 ^ 10) with 1024 in *. change (2 ^ 14) with 16384 in *.
  change (2 ^ 7) with 128 in *. change (2 ^ 32) with 4294967296.
  repeat split; try lia.
  all: Z.div_mod_to_equations; lia.
Qed.

(** *** The loops *)

Lemma addBlockSizes_eq (redPkts : list Packet) (n : nat) :
  addBlockSizes n redPkts = (n + 4 * length redPkts + payloadBytes redPkts)%nat.
Proof.
  revert n. unfold payloadBytes.
  induction redPkts as [|p rest IH]; intros n; simpl; [lia|].
  rewrite IH, length_app. lia.
Qed.

Lemma writeHeaders_splice (primary : Packet) (redPkts : list Packet)
    (buf : list Z) (index : nat) :
  (index + 4 * length redPkts <= length buf)%nat ->
  writeHeaders buf primary redPkts index
  = (splice buf index (flat_map (fun p => bigEndian32 (redBlockHeader primary p)) redPkts),
     (index + 4 * length redPkts)%nat).
Proof.
  revert buf index. induction redPkts as [|p rest IH]; intros buf index H; simpl.
  - rewrite splice_nil. f_equal. lia.
  - simpl in H. rewrite PutUint32_splice by lia.
    rewrite IH by (rewrite length_splice; simpl; lia).
    rewrite (splice_adjacent buf index (index + 4) (bigEndian32 _)) by (simpl; lia).
    f_equal. lia.
Qed.

Lemma copyBlocks_splice (pkts : list Packet) (buf : list Z) (index : nat) :
  (index + payloadBytes pkts <= length buf)%nat ->
  copyBlocks buf pkts index
  = (splice buf index (flat_map Payload pkts), inl (index + payloadBytes pkts)%nat).
Proof.
  unfold payloadBytes.
  revert buf index.
  induction pkts as [|p rest IH]; intros buf index H; cbn [copyBlocks flat_map].
  - rewrite splice_nil. simpl. do 2 f_equal. lia.
  - simpl in H. rewrite length_app in H.
    rewrite copy_splice by lia.
    destruct (decide (length (Payload p) < length (Payload p))%nat); [lia|].
    rewrite IH by (rewrite length_splice; lia).
    rewrite (splice_adjacent buf index (index + length (Payload p)) (Payload p)) by lia.
    rewrite length_app. do 2 f_equal. lia.
Qed.

Lemma length_redLayout (primary : Packet) (reds : list Packet) :
  length (redLayout primary reds)
  = (4 * length reds + 1 + payloadBytes reds + length (Payload primary))%nat.
Proof.
  unfold redLayout, payloadBytes. rewrite !length_app. simpl.
  assert (H : length (flat_map
            (fun p => bigEndian32 (redHeaderWord 1 opusPT (timestampOffset14 primary p)
                                     (blockLength10 p))) reds) = (4 * length reds)%nat).
  { induction reds as [|p rest IH]; simpl; [reflexivity|]. rewrite IH. lia. }
  rewrite H. lia.
Qed.

(** Whenever the layout of the encoded redundancy fits the buffer, the
    encoder lays it over the head of the buffer and returns its length. *)
Lemma encodeRedForPrimary_fits (redPkts : list Packet) (primary : Packet) (buf : list Z) :
  (length (redLayout primary (encodedRedPkts redPkts primary buf)) <= length buf)%nat ->
  encodeRedForPrimary redPkts primary buf
  = (splice buf 0 (redLayout primary (encodedRedPkts redPkts primary buf)),
     inl (length (redLayout primary (encodedRedPkts redPkts primary buf)))).
Proof.
  intros Hfit. unfold encodeRedForPrimary.
  set (reds := encodedRedPkts redPkts primary buf) in *.
  rewrite length_redLayout in Hfit.
  rewrite writeHeaders_splice by lia.
  set (hdrs := flat_map (fun p => bigEndian32 (redBlockHeader primary p)) reds).
  assert (Hh : length hdrs = (4 * length reds)%nat).
  { unfold hdrs. clear. induction reds as [|p rest IH]; simpl; [reflexivity|].
    rewrite IH. lia. }
  assert (Hhdrs : hdrs = flat_map
            (fun p => bigEndian32 (redHeaderWord 1 opusPT (timestampOffset14 primary p)
                                     (blockLength10 p))) reds).
  { unfold hdrs. clear. induction reds as [|p rest IH]; simpl; [reflexivity|].
    rewrite IH, redBlockHeader_word. reflexivity. }
  cbv beta iota. rewrite Nat.add_0_l.
  destruct (decide (4 * length reds < length (splice buf 0 hdrs))%nat) as [_|Hn];
    [|rewrite length_splice in Hn by (simpl; lia); lia].
  rewrite insert_splice by (rewrite length_splice by (simpl; lia); lia).
  rewrite (splice_adjacent buf 0 (4 * length reds) hdrs) by (simpl; lia).
  assert (Hpb : payloadBytes (reds ++ [primary])
                = (payloadBytes reds + length (Payload primary))%nat).
  { unfold payloadBytes. rewrite flat_map_app, length_app. simpl.
    rewrite app_nil_r. reflexivity. }
  rewrite copyBlocks_splice
    by (rewrite length_splice by (rewrite length_app, Hh; simpl; lia); lia).
  rewrite (splice_adjacent buf 0 (4 * length reds + 1))
    by (rewrite ?length_app, ?Hh; simpl; lia).
  rewrite Hpb, length_redLayout.
  f_equal; [|f_equal; lia].
  f_equal. unfold redLayout. rewrite Hhdrs, flat_map_app. simpl flat_map.
  rewrite app_nil_r, <- !app_assoc. reflexivity.
Qed.

End RedBufferFacts.

(** ** The RED encoder: what is emitted *)

Section RedEncoderFacts.
Import redreceiver MachineInt.
Local Open Scope Z_scope.

Lemma requiredSize_eq (primary : Packet) (redPkts : list Packet) :
  addBlockSizes (length (Payload primary) + 1) redPkts = requiredSize primary redPkts.
Proof. rewrite addBlockSizes_eq. unfold requiredSize. lia. Qed.

Lemma encodedRedPkts_fits (redPkts : list Packet) (primary : Packet) (buf : list Z) :
  (requiredSize primary redPkts <= length buf)%nat ->
  encodedRedPkts redPkts primary buf = redPkts.
Proof.
  intros H. unfold encodedRedPkts. rewrite requiredSize_eq.
  destruct (decide _); [lia | reflexivity].
Qed.

Lemma encodedRedPkts_exceeds (redPkts : list Packet) (primary : Packet) (buf : list Z) :
  (length buf < requiredSize primary redPkts)%nat ->
  encodedRedPkts redPkts primary buf = [].
Proof.
  intros H. unfold encodedRedPkts. rewrite requiredSize_eq.
  destruct (decide _); [reflexivity | lia].
Qed.

Lemma length_redLayout_required (primary : Packet) (reds : list Packet) :
  length (redLayout primary reds) = requiredSize primary reds.
Proof. rewrite length_redLayout. unfold requiredSize. lia. Qed.

(** The encoder returns a length exactly when the layout of what it
    encodes fits the buffer; otherwise the primary payload alone is too
    long for the buffer and the result is an error. *)
Lemma encodeRedForPrimary_too_long (redPkts : list Packet) (primary : Packet) (buf : list Z) :
  (length buf < length (redLayout primary (encodedRedPkts redPkts primary buf)))%nat ->
  encodedRedPkts redPkts primary buf = []
  /\ (length buf <= length (Payload primary))%nat
  /\ exists e, snd (encodeRedForPrimary redPkts primary buf) = inr e.
Proof.
  intros Hlong. rewrite length_redLayout_required in Hlong.
  assert (Hnil : encodedRedPkts redPkts primary buf = []).
  { destruct (decide (length buf < requiredSize primary redPkts)%nat) as [Hex|Hfit].
    - apply encodedRedPkts_exceeds, Hex.
    - rewrite encodedRedPkts_fits in Hlong by lia. lia. }
  rewrite Hnil in Hlong. unfold requiredSize, payloadBytes in Hlong. simpl in Hlong.
  split; [exact Hnil|]. split; [lia|].
  unfold encodeRedForPrimary. rewrite Hnil. cbn [writeHeaders app].
  destruct (decide (0 < length buf)%nat) as [Hpos|Hzero]; [|eexists; reflexivity].
  cbn [copyBlocks]. change (0 + 1)%nat with 1%nat.
  pose proof (copy_short (<[0%nat := opusPT mod 256]> buf) 1 (Payload primary)) as Hshort.
  rewrite length_insert in Hshort. specialize (Hshort ltac:(lia) ltac:(lia)).
  destruct (copy _ 1 (Payload primary)) as [buf' n]. simpl in Hshort.
  destruct (decide (n < length (Payload primary))%nat); [|lia].
  eexists; reflexivity.
Qed.

(** A length that the encoder returns is the length of the layout of the
    encoded redundancy, and the head of the buffer is that layout. *)
Lemma red_payload_layout_of_result (redPkts : list Packet) (primary : Packet)
    (redPayload : list Z) :
  (forall buf n,
     encodeRedForPrimary redPkts primary redPayload = (buf, inl n) ->
     n = length (redLayout primary (encodedRedPkts redPkts primary redPayload))
     /\ take n buf = redLayout primary (encodedRedPkts redPkts primary redPayload))
  /\ ((length (redLayout primary (encodedRedPkts redPkts primary redPayload))
       <= length redPayload)%nat ->
      exists buf,
        encodeRedForPrimary redPkts primary redPayload
        = (buf, inl (length (redLayout primary (encodedRedPkts redPkts primary redPayload))))).
Proof.
  split.
  - intros buf n Henc.
    destruct (decide (length (redLayout primary (encodedRedPkts redPkts primary redPayload))
                      <= length redPayload)%nat) as [Hfit|Hlong].
    + rewrite encodeRedForPrimary_fits in Henc by exact Hfit.
      injection Henc as <- <-. split; [reflexivity | apply take_splice_0].
    + destruct (encodeRedForPrimary_too_long redPkts primary redPayload ltac:(lia))
        as [_ [_ [e He]]].
      rewrite Henc in He. discriminate.
  - intros Hfit. eexists. apply encodeRedForPrimary_fits, Hfit.
Qed.

(** C6: whenever the encoder returns a length, the first so many bytes of
    the buffer are the header blocks of the encoded redundancy, each the
    big-endian 32-bit number F = 1 | PT | timestamp offset (14 bits) |
    block length (10 bits), then one byte with F = 0 and the payload type,
    then the redundancy payloads, then the primary payload; and the
    encoder does return a length whenever this layout fits the buffer. *)
Theorem red_payload_layout (redPkts : list Packet) (primary : Packet) (redPayload : list Z) :
  (forall buf n,
     encodeRedForPrimary redPkts primary redPayload = (buf, inl n) ->
     take n buf = redLayout primary (encodedRedPkts redPkts primary redPayload))
  /\ ((length (redLayout primary (encodedRedPkts redPkts primary redPayload))
       <= length redPayload)%nat ->
      exists buf,
        encodeRedForPrimary redPkts primary redPayload
        = (buf, inl (length (redLayout primary (encodedRedPkts redPkts primary redPayload)))))
  /\ (forall p,
        redBlockHeader primary p
        = redHeaderWord 1 opusPT (timestampOffset14 primary p) (blockLength10 p)
        /\ Z.shiftr (redBlockHeader primary p) 31 = 1
        /\ Z.land (Z.shiftr (redBlockHeader primary p) 24) 127 = opusPT
        /\ Z.land (Z.shiftr (redBlockHeader primary p) 10) 16383 = timestampOffset14 primary p
        /\ Z.land (redBlockHeader primary p) 1023 = blockLength10 p).
Proof.
  split; [|split].
  - intros buf n Henc.
    apply (proj1 (red_payload_layout_of_result redPkts primary redPayload) buf n Henc).
  - apply (proj2 (red_payload_layout_of_result redPkts primary redPayload)).
  - intros p. split; [apply redBlockHeader_word|].
    rewrite redBlockHeader_word.
    apply (redHeaderWord_fields 1 opusPT (timestampOffset14 primary p) (blockLength10 p)).
    + lia.
    + unfold opusPT. lia.
    + unfold timestampOffset14. apply Z.mod_pos_bound. lia.
    + unfold blockLength10. apply Z.mod_pos_bound. lia.
Qed.

End RedEncoderFacts.

(** ** The RED encoder: the history and the choice of redundancy *)

Section RedHistoryFacts.
Import redreceiver MachineInt.
Local Open Scope Z_scope.

Lemma skipsRedundancy_within (pkt p : Packet) :
  skipsRedundancy maxRedCount pkt p = negb (withinRedundancy 2 pkt p).
Proof.
  unfold skipsRedundancy, withinRedundancy.
  change (wrap_uint16 (Z.of_nat maxRedCount)) with 2.
  rewrite !negb_andb, negb_involutive, <- Z.ltb_antisym, <- Z.leb_antisym.
  reflexivity.
Qed.

Lemma collectRedPkts_length (n : nat) (pkt : Packet) (prevs : list (option Packet)) :
  (length (collectRedPkts n pkt prevs) <= length prevs)%nat.
Proof.
  induction prevs as [|[prev|] rest IH]; simpl; [lia| |lia].
  destruct (skipsRedundancy n pkt prev); simpl; lia.
Qed.

Lemma redundancyFor_length (r : RedReceiver) (pkt : Packet) :
  (length (redundancyFor r pkt) <= length (pktBuff r))%nat.
Proof.
  unfold redundancyFor.
  etransitivity; [apply collectRedPkts_length|]. rewrite length_drop. lia.
Qed.

Lemma collectRedPkts_filter (pkt : Packet) (l : list Packet) :
  collectRedPkts maxRedCount pkt (Some <$> l) = List.filter (withinRedundancy 2 pkt) l.
Proof.
  induction l as [|p rest IH]; [reflexivity|].
  cbn [fmap list_fmap collectRedPkts List.filter].
  rewrite skipsRedundancy_within.
  change (list_fmap _ _ Some rest) with (Some <$> rest). rewrite IH.
  destruct (withinRedundancy 2 pkt p); reflexivity.
Qed.

(** On a history of two slots whose empty slots come first, the packets
    looked at are all the packets of the history, and those kept are the
    ones within two sequence numbers and 2^14 timestamp units. *)
Lemma redundancyFor_filter (r : RedReceiver) (pkt : Packet) :
  length (pktBuff r) = maxRedCount ->
  nilsFirst (pktBuff r) = true ->
  redundancyFor r pkt = List.filter (withinRedundancy 2 pkt) (omap id (pktBuff r)).
Proof.
  intros Hlen Hnils. unfold redundancyFor. rewrite Hlen.
  destruct (pktBuff r) as [|a [|b [|c rest]]]; try discriminate Hlen.
  rewrite <- collectRedPkts_filter.
  destruct a as [pa|], b as [pb|]; try discriminate Hnils; reflexivity.
Qed.

(** *** The history after a packet *)

Lemma insertPrimary_two (a b : option Packet) (pkt : Packet) :
  insertPrimary [a; b] pkt 2
  = if (match b with Some prev => moreRecent pkt prev | None => true end)
    then [b; Some pkt]
    else if (match a with Some prev => moreRecent pkt prev | None => true end)
         then [Some pkt; b]
         else [a; b].
Proof.
  destruct a as [pa|], b as [pb|]; simpl;
    repeat (match goal with |- context [moreRecent pkt ?p] =>
              destruct (moreRecent pkt p) end; simpl);
    reflexivity.
Qed.

Lemma insertPrimary_invariant (pktBuff : list (option Packet)) (pkt : Packet) :
  length pktBuff = maxRedCount ->
  nilsFirst pktBuff = true ->
  length (insertPrimary pktBuff pkt (length pktBuff)) = maxRedCount
  /\ nilsFirst (insertPrimary pktBuff pkt (length pktBuff)) = true
  /\ (forall p, Some p ∈ insertPrimary pktBuff pkt (length pktBuff) ->
                 Some p ∈ pktBuff \/ p = pkt).
Proof.
  intros Hlen Hnils.
  destruct pktBuff as [|a [|b [|c rest]]]; try discriminate Hlen.
  change (length [a; b]) with 2%nat. rewrite insertPrimary_two.
  destruct a as [pa|], b as [pb|]; try discriminate Hnils;
    repeat (match goal with |- context [moreRecent pkt ?p] =>
              destruct (moreRecent pkt p) end);
    (split; [reflexivity|]; split; [reflexivity|]);
    intros p; rewrite !list_elem_of_In; simpl; intuition congruence.
Qed.

Lemma length_encodeRedForPrimary (redPkts : list Packet) (primary : Packet) (buf : list Z) :
  (0 < length buf)%nat ->
  length (fst (encodeRedForPrimary redPkts primary buf)) = length buf.
Proof.
  intros Hpos.
  destruct (decide (length (redLayout primary (encodedRedPkts redPkts primary buf))
                    <= length buf)%nat) as [Hfit|Hlong].
  - rewrite encodeRedForPrimary_fits by exact Hfit. simpl.
    apply length_splice. simpl. exact Hfit.
  - destruct (encodeRedForPrimary_too_long redPkts primary buf ltac:(lia)) as [Hnil [Hp _]].
    unfold encodeRedForPrimary. rewrite Hnil. cbn [writeHeaders app].
    destruct (decide (0 < length buf)%nat); [|reflexivity].
    cbn [copyBlocks]. unfold copy.
    destruct (decide _); simpl;
      rewrite !length_app, length_take, length_take, length_drop, !length_insert; lia.
Qed.

(** The shape of the receiver is kept by [ForwardRTP], and the history
    only ever holds packets that were forwarded. *)
Lemma ForwardRTP_invariant (r : RedReceiver) (pkt : Packet) :
  length (pktBuff r) = maxRedCount ->
  nilsFirst (pktBuff r) = true ->
  length (redPayloadBuf r) = mtuSize ->
  length (pktBuff (fst (ForwardRTP r pkt))) = maxRedCount
  /\ nilsFirst (pktBuff (fst (ForwardRTP r pkt))) = true
  /\ length (redPayloadBuf (fst (ForwardRTP r pkt))) = mtuSize
  /\ downTrackCount (fst (ForwardRTP r pkt)) = downTrackCount r
  /\ (forall p, Some p ∈ pktBuff (fst (ForwardRTP r pkt)) -> Some p ∈ pktBuff r \/ p = pkt).
Proof.
  intros Hlen Hnils Hbuf. unfold ForwardRTP.
  destruct (downTrackCount r =? 0)%nat.
  { simpl. repeat split; auto. }
  unfold RedReceiver_encodeRedForPrimary.
  pose proof (length_encodeRedForPrimary (redundancyFor r pkt) pkt (redPayloadBuf r)
                ltac:(rewrite Hbuf; unfold mtuSize; lia)) as Hl.
  destruct (encodeRedForPrimary (redundancyFor r pkt) pkt (redPayloadBuf r)) as [buf res].
  simpl in Hl.
  destruct (insertPrimary_invariant (pktBuff r) pkt Hlen Hnils) as [H1 [H2 H3]].
  destruct res as [n|e]; simpl; (repeat split; [exact H1 | exact H2 | congruence | exact H3]).
Qed.

Lemma forwardAll_history (pkts : list Packet) (r : RedReceiver) :
  length (pktBuff r) = maxRedCount ->
  nilsFirst (pktBuff r) = true ->
  length (redPayloadBuf r) = mtuSize ->
  length (pktBuff (fst (forwardAll r pkts))) = maxRedCount
  /\ nilsFirst (pktBuff (fst (forwardAll r pkts))) = true
  /\ length (redPayloadBuf (fst (forwardAll r pkts))) = mtuSize
  /\ (forall p, Some p ∈ pktBuff (fst (forwardAll r pkts)) -> Some p ∈ pktBuff r \/ p ∈ pkts).
Proof.
  revert r. induction pkts as [|pkt rest IH]; intros r Hlen Hnils Hbuf; simpl.
  - repeat split; auto.
  - destruct (ForwardRTP_invariant r pkt Hlen Hnils Hbuf) as [H1 [H2 [H3 [_ H5]]]].
    destruct (ForwardRTP r pkt) as [r' out]. simpl in *.
    destruct (IH r' H1 H2 H3) as [I1 [I2 [I3 I4]]].
    destruct (forwardAll r' rest) as [r'' outs]. simpl in *.
    repeat split; auto.
    intros p Hp. destruct (I4 p Hp) as [Hin|Hin]; [|right; right; exact Hin].
    destruct (H5 p Hin) as [?| ->]; [left; assumption | right; left].
Qed.

(** Started on an empty history, the receiver keeps its shape whatever
    is forwarded, and its history holds forwarded packets only. *)
Lemma history_previously_seen (pkts : list Packet) (r : RedReceiver) :
  pktBuff r = replicate maxRedCount None ->
  length (redPayloadBuf r) = mtuSize ->
  length (pktBuff (fst (forwardAll r pkts))) = maxRedCount
  /\ nilsFirst (pktBuff (fst (forwardAll r pkts))) = true
  /\ length (redPayloadBuf (fst (forwardAll r pkts))) = mtuSize
  /\ (forall p, Some p ∈ pktBuff (fst (forwardAll r pkts)) -> p ∈ pkts).
Proof.
  intros Hempty Hbuf.
  destruct (forwardAll_history pkts r) as [H1 [H2 [H3 H4]]];
    try (rewrite Hempty; reflexivity); try exact Hbuf.
  repeat split; try assumption.
  intros p Hp. destruct (H4 p Hp) as [Hin|Hin]; [|exact Hin].
  rewrite Hempty in Hin. apply list_elem_of_In in Hin. simpl in Hin.
  intuition discriminate.
Qed.

(** What [ForwardRTP] broadcasts, for a receiver with down tracks: the
    packet with the layout of the encoded redundancy as its payload. *)
Lemma ForwardRTP_emits (r : RedReceiver) (pkt : Packet) :
  downTrackCount r ≠ 0%nat ->
  (length (redLayout pkt (encodedRedPkts (redundancyFor r pkt) pkt (redPayloadBuf r)))
   <= length (redPayloadBuf r))%nat ->
  snd (ForwardRTP r pkt)
  = Some (withPayload pkt
            (redLayout pkt (encodedRedPkts (redundancyFor r pkt) pkt (redPayloadBuf r)))).
Proof.
  intros Hdt Hfit. unfold ForwardRTP.
  destruct (Nat.eqb_spec (downTrackCount r) 0); [contradiction|].
  unfold RedReceiver_encodeRedForPrimary.
  rewrite encodeRedForPrimary_fits by exact Hfit. simpl.
  rewrite take_splice_0. reflexivity.
Qed.

End RedHistoryFacts.

Section RedClaims.
Import redreceiver MachineInt.
Local Open Scope Z_scope.

(** C5: in an encoding step on a receiver with its two history slots and
    its 1500-byte buffer, at most two redundancy packets are chosen; if the
    required size exceeds the buffer, every payload the encoder returns is
    the one-byte primary header followed by the primary payload, and it
    does return one unless the primary payload alone has 1500 bytes or
    more (that packet is refused with an error and nothing is emitted);
    otherwise the encoder returns a payload of length 4·k + 1 + the k
    redundancy payload lengths + the primary payload length, the layout
    with all k redundancy blocks. *)
Theorem red_encoding_size (r : RedReceiver) (pkt : Packet) :
  length (pktBuff r) = maxRedCount ->
  length (redPayloadBuf r) = mtuSize ->
  (length (redundancyFor r pkt) <= 2)%nat
  /\ ((mtuSize < requiredSize pkt (redundancyFor r pkt))%nat ->
      (forall buf n,
         snd (RedReceiver_encodeRedForPrimary r pkt (redPayloadBuf r)) = (buf, inl n) ->
         n = (1 + length (Payload pkt))%nat /\ take n buf = opusPT :: Payload pkt)
      /\ ((length (Payload pkt) < mtuSize)%nat ->
          exists buf,
            snd (RedReceiver_encodeRedForPrimary r pkt (redPayloadBuf r))
            = (buf, inl (1 + length (Payload pkt))%nat))
      /\ ((mtuSize <= length (Payload pkt))%nat ->
          exists e,
            snd (snd (RedReceiver_encodeRedForPrimary r pkt (redPayloadBuf r))) = inr e))
  /\ ((requiredSize pkt (redundancyFor r pkt) <= mtuSize)%nat ->
      exists buf,
        snd (RedReceiver_encodeRedForPrimary r pkt (redPayloadBuf r))
        = (buf, inl (4 * length (redundancyFor r pkt) + 1
                     + payloadBytes (redundancyFor r pkt) + length (Payload pkt))%nat)
        /\ take (4 * length (redundancyFor r pkt) + 1
                 + payloadBytes (redundancyFor r pkt) + length (Payload pkt)) buf
           = redLayout pkt (redundancyFor r pkt)).
Proof.
  intros Hlen Hbuf. unfold RedReceiver_encodeRedForPrimary. cbn [snd].
  split; [|split].
  - pose proof (redundancyFor_length r pkt) as H. rewrite Hlen in H. exact H.
  - intros Hex.
    assert (Hnil : encodedRedPkts (redundancyFor r pkt) pkt (redPayloadBuf r) = [])
      by (apply encodedRedPkts_exceeds; rewrite Hbuf; exact Hex).
    split; [|split].
    + intros buf n Henc.
      pose proof (proj1 (red_payload_layout_of_result (redundancyFor r pkt) pkt
                           (redPayloadBuf r)) buf n Henc) as [Hn Htake].
      rewrite Hnil in Hn, Htake. split; [exact Hn | exact Htake].
    + intros Hp. eexists. rewrite encodeRedForPrimary_fits; rewrite Hnil.
      * reflexivity.
      * rewrite Hbuf. simpl. lia.
    + intros Hp.
      apply (encodeRedForPrimary_too_long (redundancyFor r pkt) pkt (redPayloadBuf r)).
      rewrite Hnil, Hbuf. simpl. lia.
  - intros Hfit.
    assert (Henc : encodedRedPkts (redundancyFor r pkt) pkt (redPayloadBuf r)
                   = redundancyFor r pkt)
      by (apply encodedRedPkts_fits; rewrite Hbuf; exact Hfit).
    rewrite encodeRedForPrimary_fits; rewrite Henc.
    + rewrite length_redLayout. eexists. split; [reflexivity|].
      rewrite <- length_redLayout. apply take_splice_0.
    + rewrite length_redLayout_required, Hbuf. exact Hfit.
Qed.

(** C2, as the code has it: on a receiver with down tracks, the
    redundancy chosen for a primary packet is, in the order of the
    history, every packet of the two-slot history whose sequence number is
    not the primary's and at most 2 (the number of history slots) behind
    it modulo 2^16, and whose timestamp is less than 2^14 units behind the
    primary's modulo 2^32; these are the redundancy blocks of the packet
    that is broadcast whenever the required size fits the 1500-byte
    buffer, and no redundancy is attached when it does not. *)
Theorem red_redundancy_selection (r : RedReceiver) (pkt : Packet) :
  length (pktBuff r) = maxRedCount ->
  nilsFirst (pktBuff r) = true ->
  length (redPayloadBuf r) = mtuSize ->
  downTrackCount r ≠ 0%nat ->
  let chosen := List.filter (withinRedundancy 2 pkt) (omap id (pktBuff r)) in
  redundancyFor r pkt = chosen
  /\ (forall p, p ∈ chosen <->
        Some p ∈ pktBuff r
        /\ SequenceNumber pkt ≠ SequenceNumber p
        /\ wrap_uint16 (SequenceNumber pkt - SequenceNumber p) <= 2
        /\ wrap_uint32 (Timestamp pkt - Timestamp p) < 2 ^ 14)
  /\ ((requiredSize pkt chosen <= mtuSize)%nat ->
      snd (ForwardRTP r pkt) = Some (withPayload pkt (redLayout pkt chosen)))
  /\ ((mtuSize < requiredSize pkt chosen)%nat ->
      (length (Payload pkt) < mtuSize)%nat ->
      snd (ForwardRTP r pkt) = Some (withPayload pkt (redLayout pkt []))).
Proof.
  intros Hlen Hnils Hbuf Hdt chosen.
  assert (Hred : redundancyFor r pkt = chosen) by (apply redundancyFor_filter; assumption).
  split; [exact Hred|]. split; [|split].
  - intros p. unfold chosen. rewrite list_elem_of_In, filter_In, <- list_elem_of_In.
    rewrite list_elem_of_omap. unfold withinRedundancy.
    rewrite !andb_true_iff, negb_true_iff, Z.eqb_neq, Z.leb_le, Z.ltb_lt.
    split.
    + intros [[o [Ho Hid]] Hc]. simpl in Hid. subst o. tauto.
    + intros [Hin Hc]. split; [exists (Some p); split; [exact Hin | reflexivity] | tauto].
  - intros Hfit. rewrite <- Hred in Hfit |- *.
    assert (Henc : encodedRedPkts (redundancyFor r pkt) pkt (redPayloadBuf r)
                   = redundancyFor r pkt)
      by (apply encodedRedPkts_fits; rewrite Hbuf; exact Hfit).
    rewrite ForwardRTP_emits; rewrite ?Henc.
    + reflexivity.
    + exact Hdt.
    + rewrite length_redLayout_required, Hbuf. exact Hfit.
  - intros Hex Hp. rewrite <- Hred in Hex.
    assert (Henc : encodedRedPkts (redundancyFor r pkt) pkt (redPayloadBuf r) = [])
      by (apply encodedRedPkts_exceeds; rewrite Hbuf; exact Hex).
    rewrite ForwardRTP_emits; rewrite ?Henc.
    + reflexivity.
    + exact Hdt.
    + rewrite Hbuf. simpl. lia.
Qed.

(** In every redundancy block that is chosen the 14 bits of the header
    hold the whole timestamp offset. *)
Lemma chosen_offset_exact (pkt p : Packet) :
  withinRedundancy 2 pkt p = true ->
  timestampOffset14 pkt p = wrap_uint32 (Timestamp pkt - Timestamp p).
Proof.
  unfold withinRedundancy, timestampOffset14, wrap_uint32.
  rewrite !andb_true_iff, Z.ltb_lt. intros [_ Hlt].
  rewrite <- (Z.mod_mod_divide _ (2 ^ 32) (2 ^ 14)) by (exists (2 ^ 18); reflexivity).
  apply Z.mod_small.
  pose proof (Z.mod_pos_bound (Timestamp pkt - Timestamp p) (2 ^ 32) ltac:(lia)). lia.
Qed.

End RedClaims.

Section RedExamples.
Import redreceiver MachineInt examples.
Local Open Scope Z_scope.

(** Three packets in a row, as in the first test of the encoder: the
    first goes out alone, the second with one redundancy block, the third
    with two. *)
Example red_normal_scenario :
  option_map Payload <$> snd (forwardAll activeRedReceiver [opus1; opus2; opus3])
  = [ Some [111; 7; 8];
      Some [239; 7; 128; 2; 111; 7; 8; 9];
      Some [239; 15; 0; 2; 239; 7; 128; 1; 111; 7; 8; 9; 10; 11; 12] ].
Proof. vm_compute. reflexivity. Qed.

Lemma red_payload_layout_witness :
  take 8 (fst (encodeRedForPrimary [opus1] opus2 (replicate mtuSize 0)))
  = [239; 7; 128; 2; 111; 7; 8; 9].
Proof.
  exact (proj1 (red_payload_layout [opus1] opus2 (replicate mtuSize 0))
           (fst (encodeRedForPrimary [opus1] opus2 (replicate mtuSize 0))) 8%nat
           ltac:(vm_compute; reflexivity)).
Defined.

Lemma red_encoding_size_witness :
  exists buf,
    snd (RedReceiver_encodeRedForPrimary afterOpus1 bigOpus (redPayloadBuf afterOpus1))
    = (buf, inl 1498%nat).
Proof.
  refine (proj1 (proj2 (proj1 (proj2 (red_encoding_size afterOpus1 bigOpus _ _)) _)) _).
  - vm_compute; reflexivity.
  - vm_compute; reflexivity.
  - vm_compute. lia.
  - vm_compute. lia.
Defined.

Lemma red_redundancy_selection_witness :
  redundancyFor afterOpus2 opus3 = [opus1; opus2]
  /\ snd (ForwardRTP afterOpus2 opus3)
     = Some (withPayload opus3 (redLayout opus3 [opus1; opus2])).
Proof.
  assert (H1 : length (pktBuff afterOpus2) = maxRedCount) by (vm_compute; reflexivity).
  assert (H2 : nilsFirst (pktBuff afterOpus2) = true) by (vm_compute; reflexivity).
  assert (H3 : length (redPayloadBuf afterOpus2) = mtuSize) by (vm_compute; reflexivity).
  assert (H4 : downTrackCount afterOpus2 ≠ 0%nat) by (vm_compute; discriminate).
  pose proof (red_redundancy_selection afterOpus2 opus3 H1 H2 H3 H4) as [Hsel [_ [Hfit _]]].
  split; [exact Hsel|]. apply Hfit. vm_compute. lia.
Defined.

(** The history holds packet 1 and packet 5 comes next (packets 2 to 4
    were lost): packet 1 is within 16 sequence numbers and within 16384
    timestamp units of packet 5 and the required size fits, yet no
    redundancy block is attached.  And when packet 1 arrives again after
    packets 2 and 3, these two are within 16 sequence numbers and 16384
    timestamp units of it, but ahead of it, and none is attached. *)
Lemma red_redundancy_selection_counterexample :
  (pktBuff afterOpus1 = [None; Some opus1]
   /\ List.filter (withinRedundancy 16 opus5) (omap id (pktBuff afterOpus1)) = [opus1]
   /\ (requiredSize opus5 [opus1] <= mtuSize)%nat
   /\ redundancyFor afterOpus1 opus5 = []
   /\ snd (ForwardRTP afterOpus1 opus5) = Some (withPayload opus5 [111; 13]))
  /\ (pktBuff afterOpus3 = [Some opus2; Some opus3]
      /\ Z.abs (SequenceNumber opus1 - SequenceNumber opus2) <= 16
      /\ Z.abs (Timestamp opus1 - Timestamp opus2) <= 16384
      /\ Z.abs (SequenceNumber opus1 - SequenceNumber opus3) <= 16
      /\ Z.abs (Timestamp opus1 - Timestamp opus3) <= 16384
      /\ snd (ForwardRTP afterOpus3 opus1) = Some (withPayload opus1 [111; 7; 8])).
Proof.
  split.
  - split; [vm_compute; reflexivity|]. split; [vm_compute; reflexivity|].
    split; [vm_compute; lia|]. split; vm_compute; reflexivity.
  - split; [vm_compute; reflexivity|].
    repeat (split; [vm_compute; discriminate|]).
    vm_compute; reflexivity.
Qed.

End RedExamples.


(** ** The available layers of the stream tracker manager *)

Section AvailableLayerFacts.
Import streamtrackermanager.
Local Open Scope Z_scope.

Lemma sortLayers_elem_of (layers : list Z) (x : Z) :
  x ∈ sortLayers layers <-> x ∈ layers.
Proof. unfold sortLayers. by rewrite merge_sort_Permutation. Qed.

Lemma sortLayers_sorted (layers : list Z) : Sorted Z.le (sortLayers layers).
Proof. unfold sortLayers. apply (Sorted_merge_sort Z.le). Qed.

Lemma sortLayers_NoDup (layers : list Z) : NoDup layers -> NoDup (sortLayers layers).
Proof. unfold sortLayers. by rewrite merge_sort_Permutation. Qed.

Lemma ascending_strongly (layers : list Z) :
  Sorted Z.lt layers -> StronglySorted Z.lt layers.
Proof. apply Sorted_StronglySorted. intros x y z; lia. Qed.

Lemma ascending_NoDup (layers : list Z) : Sorted Z.lt layers -> NoDup layers.
Proof.
  intros H%ascending_strongly. induction H as [|x l Hl IH Hx]; constructor; auto.
  intros Hin. rewrite Forall_forall in Hx. specialize (Hx _ Hin). lia.
Qed.

Lemma ascending_le (layers : list Z) : Sorted Z.lt layers -> Sorted Z.le layers.
Proof.
  induction 1 as [|x l Hl IH Hx]; constructor; auto.
  destruct Hx; constructor; lia.
Qed.

Lemma le_NoDup_ascending (layers : list Z) :
  Sorted Z.le layers -> NoDup layers -> Sorted Z.lt layers.
Proof.
  induction 1 as [|x l Hl IH Hx]; intros Hnd; constructor.
  - apply IH. by apply NoDup_cons in Hnd as [_ ?].
  - destruct Hx as [|y l' Hxy]; constructor.
    apply NoDup_cons in Hnd as [Hnin _].
    assert (x <> y) by (intros ->; apply Hnin; left). lia.
Qed.

Lemma sortLayers_ascending (layers : list Z) :
  NoDup layers -> Sorted Z.lt (sortLayers layers).
Proof.
  intros Hnd. apply le_NoDup_ascending;
    [apply sortLayers_sorted | by apply sortLayers_NoDup].
Qed.

Lemma sortLayers_fixed (layers : list Z) :
  Sorted Z.le layers -> sortLayers layers = layers.
Proof.
  intros Hs. apply (Sorted_unique Z.le); [apply sortLayers_sorted | done |].
  unfold sortLayers. apply merge_sort_Permutation.
Qed.

(** The last of an ordered list of layers is its greatest. *)
Lemma lastLayer_greatest (layers : list Z) (x : Z) :
  Sorted Z.le layers -> x ∈ layers -> x <= lastLayer layers.
Proof.
  intros Hs%Sorted_StronglySorted; [|intros a b c; lia].
  unfold lastLayer. revert x. induction Hs as [|y l Hl IH Hy]; intros x Hin.
  - by apply elem_of_nil in Hin.
  - destruct l as [|z l'].
    + apply list_elem_of_singleton in Hin as ->. simpl. lia.
    + rewrite last_cons_cons. apply elem_of_cons in Hin as [->|Hin]; [|by apply IH].
      rewrite Forall_forall in Hy. specialize (Hy z ltac:(left)).
      specialize (IH z ltac:(left)). lia.
Qed.

Lemma lastLayer_elem_of (layers : list Z) :
  layers <> [] -> lastLayer layers ∈ layers.
Proof.
  intros Hne. unfold lastLayer.
  destruct (last layers) as [x|] eqn:Hl.
  - simpl. by apply last_Some_elem_of.
  - by apply last_None in Hl.
Qed.

(** After sorting, the last layer is the greatest of the layers. *)
Lemma lastLayer_sortLayers (layers : list Z) (m : Z) :
  m ∈ layers -> (forall x, x ∈ layers -> x <= m) ->
  lastLayer (sortLayers layers) = m.
Proof.
  intros Hm Hmax.
  assert (Hne : sortLayers layers <> []).
  { intros He. apply sortLayers_elem_of in Hm. rewrite He in Hm.
    by apply elem_of_nil in Hm. }
  pose proof (lastLayer_elem_of _ Hne) as Hin.
  apply (proj1 (sortLayers_elem_of _ _)) in Hin.
  pose proof (lastLayer_greatest (sortLayers layers) m (sortLayers_sorted _)
                ltac:(by apply sortLayers_elem_of)).
  specialize (Hmax _ Hin). lia.
Qed.

Lemma lastLayer_sortLayers_nil : lastLayer (sortLayers []) = buffer.InvalidLayerSpatial.
Proof. reflexivity. Qed.

Lemma hasLayer_elem_of (layers : list Z) (layer : Z) :
  existsb (fun l => l =? layer) layers = true <-> layer ∈ layers.
Proof.
  rewrite existsb_exists. split.
  - intros (x & Hin & Hx). apply Z.eqb_eq in Hx as <-. by apply list_elem_of_In.
  - intros Hin. exists layer. split; [by apply list_elem_of_In | apply Z.eqb_refl].
Qed.

Lemma filter_all_kept (layers : list Z) (layer : Z) :
  layer ∉ layers -> filter (fun l => l <> layer) layers = layers.
Proof.
  induction layers as [|x l IH]; intros Hnin; [done|].
  apply not_elem_of_cons in Hnin as [Hne Hnin].
  rewrite filter_cons_True by done. by rewrite IH.
Qed.

Lemma layersAscending_true (layers : list Z) :
  layersAscending layers = true <-> Sorted Z.lt layers.
Proof. unfold layersAscending. apply bool_decide_eq_true. Qed.

(** X1: on available layers in ascending order, [addAvailableLayer]
    leaves them in ascending order, none twice; the layers afterwards are
    the former ones and the added one; adding a layer that is there
    changes nothing; trackers and sender reports are not touched. *)
Theorem addAvailableLayer_layers (s : StreamTrackerManager) (hasListener : bool) (layer : Z) :
  layersAscending (availableLayers s) = true ->
  let s' := fst (addAvailableLayer s hasListener layer) in
  layersAscending (availableLayers s') = true
  /\ (forall l, l ∈ availableLayers s' <-> l ∈ availableLayers s \/ l = layer)
  /\ (layer ∈ availableLayers s -> s' = s)
  /\ trackers s' = trackers s /\ senderReports s' = senderReports s.
Proof.
  intros Hasc%layersAscending_true. unfold addAvailableLayer.
  destruct (existsb _ _) eqn:Hhas; cbn [fst].
  - apply hasLayer_elem_of in Hhas.
    split; [by apply layersAscending_true|].
    split; [|done]. intros l. split; [by left|]. by intros [?| ->].
  - assert (Hnin : layer ∉ availableLayers s).
    { intros Hin%hasLayer_elem_of. congruence. }
    destruct s as [svc cr mp mt tr al sr]; cbn in *.
    split.
    + apply layersAscending_true, sortLayers_ascending.
      apply NoDup_app. split; [by apply ascending_NoDup|].
      split; [|apply NoDup_singleton].
      intros x Hx ->%list_elem_of_singleton. done.
    + split; [|done]. intros l. rewrite sortLayers_elem_of, elem_of_app, list_elem_of_singleton.
      done.
Qed.

(** X2: [addAvailableLayer] calls nothing without a listener; with one it
    calls nothing when the layer is there already, and otherwise
    [OnAvailableLayersChanged], followed by
    [OnMaxAvailableLayerChanged(layer)] exactly when the added layer is
    above all the former ones. *)
Theorem addAvailableLayer_calls (s : StreamTrackerManager) (layer : Z) :
  snd (addAvailableLayer s false layer) = []
  /\ snd (addAvailableLayer s true layer) =
     if bool_decide (layer ∈ availableLayers s) then []
     else OnAvailableLayersChanged
          :: (if bool_decide (Forall (fun l => l < layer) (availableLayers s))
              then [OnMaxAvailableLayerChanged layer] else []).
Proof.
  unfold addAvailableLayer.
  destruct (existsb _ _) eqn:Hhas; cbn [snd].
  - apply hasLayer_elem_of in Hhas. by rewrite bool_decide_eq_true_2.
  - assert (Hnin : layer ∉ availableLayers s).
    { intros Hin%hasLayer_elem_of. congruence. }
    split; [done|]. rewrite bool_decide_eq_false_2 by done. f_equal.
    case_bool_decide as Hall.
    + rewrite (lastLayer_sortLayers _ layer), Z.eqb_refl; [done| |].
      * apply elem_of_app. right. by apply list_elem_of_singleton.
      * intros x [Hx| ->%list_elem_of_singleton]%elem_of_app; [|lia].
        rewrite Forall_forall in Hall. specialize (Hall _ Hx). lia.
    + destruct (_ =? layer) eqn:Heq; [|done]. exfalso. apply Hall.
      apply Z.eqb_eq in Heq. apply Forall_forall. intros x Hx.
      assert (x <= layer).
      { rewrite <- Heq. apply lastLayer_greatest; [apply sortLayers_sorted|].
        apply sortLayers_elem_of, elem_of_app. by left. }
      assert (x <> layer) by (by intros ->). lia.
Qed.

(** X3: on available layers in ascending order, [removeAvailableLayer]
    leaves them in ascending order; the layers afterwards are the former
    ones without the removed one; trackers and sender reports are not
    touched. *)
Theorem removeAvailableLayer_layers (s : StreamTrackerManager) (hasListener : bool) (layer : Z) :
  layersAscending (availableLayers s) = true ->
  let s' := fst (removeAvailableLayer s hasListener layer) in
  layersAscending (availableLayers s') = true
  /\ (forall l, l ∈ availableLayers s' <-> l ∈ availableLayers s /\ l <> layer)
  /\ trackers s' = trackers s /\ senderReports s' = senderReports s.
Proof.
  intros Hasc%layersAscending_true. unfold removeAvailableLayer. cbn [fst].
  destruct s as [svc cr mp mt tr al sr]; cbn in *.
  split.
  - apply layersAscending_true, sortLayers_ascending, NoDup_filter.
    by apply ascending_NoDup.
  - split; [|done]. intros l. rewrite sortLayers_elem_of, list_elem_of_filter. tauto.
Qed.

(** X4: on non-negative available layers in ascending order,
    [removeAvailableLayer] with a listener always calls
    [OnAvailableLayersChanged], also for a layer that was not there, and
    then [OnMaxAvailableLayerChanged] with the new greatest layer
    ([InvalidLayerSpatial] when none is left) exactly when the removed
    layer was the greatest; without a listener it calls nothing. *)
Theorem removeAvailableLayer_calls (s : StreamTrackerManager) (layer : Z) :
  layersAscending (availableLayers s) = true ->
  Forall (fun l => 0 <= l) (availableLayers s) ->
  snd (removeAvailableLayer s false layer) = []
  /\ snd (removeAvailableLayer s true layer) =
     OnAvailableLayersChanged
     :: (if bool_decide (last (availableLayers s) = Some layer)
         then [OnMaxAvailableLayerChanged
                 (lastLayer (availableLayers (fst (removeAvailableLayer s true layer))))]
         else []).
Proof.
  intros Hasc%layersAscending_true Hpos. unfold removeAvailableLayer. cbn [fst snd].
  split; [done|]. f_equal.
  destruct s as [svc cr mp mt tr al sr]; cbn [availableLayers withAvailableLayers] in *.
  case_bool_decide as Hlast.
  - (* the greatest layer goes *)
    apply last_Some in Hlast as [l' ->].
    assert (Hnd := ascending_NoDup _ Hasc).
    apply NoDup_app in Hnd as (Hnd' & Hdisj & _).
    assert (Hnin : layer ∉ l').
    { intros Hin. apply (Hdisj _ Hin). by apply list_elem_of_singleton. }
    rewrite filter_app, filter_all_kept, filter_singleton_False by (try done; tauto).
    rewrite app_nil_r.
    assert (Hsl : sortLayers l' = l').
    { apply sortLayers_fixed. apply ascending_le.
      apply ascending_strongly, StronglySorted_app_1_l in Hasc.
      by apply StronglySorted_Sorted. }
    rewrite Hsl. unfold lastLayer at 2. rewrite last_snoc.
    change (default buffer.InvalidLayerSpatial (Some layer)) with layer.
    destruct (lastLayer l' =? layer) eqn:Heq; [|done]. exfalso. apply Z.eqb_eq in Heq.
    destruct (decide (l' = [])) as [->|Hne].
    + cbn in Heq. rewrite Forall_forall in Hpos.
      specialize (Hpos layer ltac:(by apply list_elem_of_singleton)).
      unfold buffer.InvalidLayerSpatial in Heq. lia.
    + apply Hnin. rewrite <- Heq. by apply lastLayer_elem_of.
  - destruct (decide (layer ∈ al)) as [Hin|Hnin].
    + (* a lower layer goes *)
      destruct (last al) as [m|] eqn:Hl.
      2:{ apply last_None in Hl as ->. by apply elem_of_nil in Hin. }
      assert (Hm : m ∈ al) by (by apply last_Some_elem_of).
      rewrite (lastLayer_sortLayers _ m).
      * unfold lastLayer. rewrite Hl. cbn [default]. by rewrite Z.eqb_refl.
      * apply list_elem_of_filter. split; [congruence|done].
      * intros x [_ Hx]%list_elem_of_filter.
        pose proof (lastLayer_greatest al x (ascending_le _ Hasc) Hx) as Hle.
        unfold lastLayer in Hle. by rewrite Hl in Hle.
    + rewrite filter_all_kept by done.
      rewrite sortLayers_fixed by (by apply ascending_le).
      by rewrite Z.eqb_refl.
Qed.

(** X5: on available layers in ascending order, adding a layer that was
    not there and removing it again gives the former manager back, and so
    does removing a layer that was there and adding it again. *)
Theorem available_layer_round_trip (s : StreamTrackerManager) (h1 h2 : bool) (layer : Z) :
  layersAscending (availableLayers s) = true ->
  (layer ∉ availableLayers s ->
   fst (removeAvailableLayer (fst (addAvailableLayer s h1 layer)) h2 layer) = s)
  /\ (layer ∈ availableLayers s ->
      fst (addAvailableLayer (fst (removeAvailableLayer s h1 layer)) h2 layer) = s).
Proof.
  intros Hasc%layersAscending_true. split.
  - intros Hnin. unfold addAvailableLayer.
    destruct (existsb _ _) eqn:Hhas.
    { apply hasLayer_elem_of in Hhas. done. }
    unfold removeAvailableLayer. cbn [fst].
    destruct s as [svc cr mp mt tr al sr]. unfold withAvailableLayers.
    cbn [isSVC clockRate maxPublishedLayer maxTemporalLayerSeen trackers
         availableLayers senderReports] in *. f_equal.
    apply (Sorted_unique Z.le); [apply sortLayers_sorted | by apply ascending_le |].
    unfold sortLayers. rewrite !merge_sort_Permutation.
    rewrite filter_app, filter_all_kept, filter_singleton_False by (try done; tauto).
    by rewrite app_nil_r.
  - intros Hin. unfold addAvailableLayer.
    destruct (existsb _ _) eqn:Hhas.
    { apply hasLayer_elem_of in Hhas. unfold removeAvailableLayer in Hhas. cbn in Hhas.
      apply sortLayers_elem_of, list_elem_of_filter in Hhas as [? _]. done. }
    unfold removeAvailableLayer. cbn [fst].
    destruct s as [svc cr mp mt tr al sr]. unfold withAvailableLayers.
    cbn [isSVC clockRate maxPublishedLayer maxTemporalLayerSeen trackers
         availableLayers senderReports] in *. f_equal.
    apply (Sorted_unique Z.le); [apply sortLayers_sorted | by apply ascending_le |].
    unfold sortLayers. rewrite !merge_sort_Permutation.
    rewrite Permutation_app_comm.
    transitivity (filter (fun l => ~ l <> layer) al ++ filter (fun l => l <> layer) al).
    + f_equal. apply Permutation_app_tail.
      clear Hhas. assert (Hnd := ascending_NoDup _ Hasc). clear Hasc.
      induction al as [|x al IH]; [by apply elem_of_nil in Hin|].
      apply NoDup_cons in Hnd as [Hx Hnd].
      destruct (decide (x = layer)) as [->|Hne].
      * rewrite filter_cons_True by tauto.
        assert (Hf : filter (fun l => ~ l <> layer) al = []).
        { clear IH Hin Hnd. induction al as [|y al IH]; [done|].
          apply not_elem_of_cons in Hx as [? ?].
          rewrite filter_cons_False by (intros Hc; apply Hc; congruence). by apply IH. }
        by rewrite Hf.
      * rewrite filter_cons_False by tauto. apply IH; [|done].
        apply elem_of_cons in Hin as [?|?]; [congruence|done].
    + rewrite Permutation_app_comm. apply filter_app_complement.
Qed.
End AvailableLayerFacts.

Section AvailableLayerExamples.
Import streamtrackermanager examples.
Local Open Scope Z_scope.

(** Layer 2 joins the layers 0 and 1, and layer 1 leaves them. *)
Example available_layers_scenario :
  availableLayers (fst (addAvailableLayer twoLayerManager true 2)) = [0; 1; 2]
  /\ snd (addAvailableLayer twoLayerManager true 2)
     = [OnAvailableLayersChanged; OnMaxAvailableLayerChanged 2]
  /\ availableLayers (fst (removeAvailableLayer twoLayerManager true 1)) = [0]
  /\ snd (removeAvailableLayer twoLayerManager true 1)
     = [OnAvailableLayersChanged; OnMaxAvailableLayerChanged 0]
  /\ snd (removeAvailableLayer twoLayerManager true 0) = [OnAvailableLayersChanged].
Proof. repeat split; vm_compute; reflexivity. Qed.

Lemma addAvailableLayer_layers_witness :
  layersAscending (availableLayers (fst (addAvailableLayer twoLayerManager true 2))) = true.
Proof.
  apply (addAvailableLayer_layers twoLayerManager true 2). reflexivity.
Defined.

Lemma removeAvailableLayer_layers_witness :
  layersAscending (availableLayers (fst (removeAvailableLayer twoLayerManager true 1))) = true.
Proof.
  apply (removeAvailableLayer_layers twoLayerManager true 1). reflexivity.
Defined.

Lemma removeAvailableLayer_calls_witness :
  snd (removeAvailableLayer twoLayerManager false 1) = [].
Proof.
  apply (removeAvailableLayer_calls twoLayerManager 1).
  - reflexivity.
  - repeat constructor; simpl; lia.
Defined.

Lemma available_layer_round_trip_witness :
  fst (removeAvailableLayer (fst (addAvailableLayer twoLayerManager true 2)) true 2)
  = twoLayerManager.
Proof.
  apply (proj1 (available_layer_round_trip twoLayerManager true true 2 eq_refl)).
  intros H%list_elem_of_In. simpl in H. lia.
Defined.

End AvailableLayerExamples.

(** ** The temporal layers seen, and the layers that report nothing *)

Section TemporalLayerFacts.
Import streamtrackermanager MachineInt.
Local Open Scope Z_scope.

Lemma rowLengths_setBr (br : list (list Z)) (i j : nat) (x : Z) :
  length <$> setBr br i j x = length <$> br.
Proof.
  unfold setBr. apply list_eq. intros k. rewrite !list_lookup_fmap.
  destruct (decide (i = k)) as [->|Hne].
  - rewrite list_lookup_alter_eq. destruct (br !! k); [|done].
    cbn. by rewrite length_insert.
  - by rewrite list_lookup_alter_ne.
Qed.

Lemma rowLengths_fillRow (tls : list Z) (n : nat) (br : list (list Z)) (i j : nat) :
  length <$> fillRow br tls i j n = length <$> br.
Proof.
  revert br j. induction n as [|n IH]; intros br j; [done|].
  cbn [fillRow]. by rewrite IH, rowLengths_setBr.
Qed.

Lemma rowLengths_fillTrackers (s : StreamTrackerManager) (ts : list (option StreamTracker))
    (br : list (list Z)) (i : nat) :
  length <$> fillTrackers s br i ts = length <$> br.
Proof.
  revert br i. induction ts as [|[tracker|] ts IH]; intros br i; [done| |].
  - cbn [fillTrackers]. by rewrite IH, rowLengths_fillRow.
  - cbn [fillTrackers]. by rewrite IH.
Qed.

Lemma rowLengths_addLowerRows (k : nat) (br : list (list Z)) (i j : nat) :
  length <$> addLowerRows br i j k = length <$> br.
Proof.
  revert br. induction k as [|k IH]; intros br; [done|].
  cbn [addLowerRows]. by rewrite IH, rowLengths_setBr.
Qed.

Lemma rowLengths_accumulateColumns (j : nat) (br : list (list Z)) (i : nat) :
  length <$> accumulateColumns br i j = length <$> br.
Proof.
  revert br. induction j as [|j IH]; intros br; [done|].
  cbn [accumulateColumns]. rewrite IH.
  destruct (negb _); [apply rowLengths_addLowerRows | done].
Qed.

Lemma rowLengths_accumulateRows (i : nat) (br : list (list Z)) :
  length <$> accumulateRows br i = length <$> br.
Proof.
  revert br. induction i as [|i IH]; intros br; [done|].
  cbn [accumulateRows]. by rewrite IH, rowLengths_accumulateColumns.
Qed.

(** The matrix of [GetLayeredBitrate] has the dimensions of [Bitrates]. *)
Lemma rowLengths_GetLayeredBitrate (s : StreamTrackerManager) :
  length <$> snd (GetLayeredBitrate s) = replicate numSpatial numTemporal.
Proof.
  unfold GetLayeredBitrate, getLayeredBitrateLocked. cbn [snd].
  destruct (isSVC s).
  - by rewrite rowLengths_accumulateRows, rowLengths_fillTrackers.
  - by rewrite rowLengths_fillTrackers.
Qed.

(** A non-zero cell of a matrix with the dimensions of [Bitrates] has its
    indices inside these. *)
Lemma getBr_inside (br : list (list Z)) (sp t : nat) :
  length <$> br = replicate numSpatial numTemporal ->
  getBr br sp t ≠ 0 -> (sp < numSpatial)%nat /\ (t < numTemporal)%nat.
Proof.
  intros Hshape Hnz.
  assert (Hlen : length br = numSpatial).
  { rewrite <- (length_fmap length br), Hshape. apply length_replicate. }
  destruct (decide (sp < numSpatial)%nat) as [Hsp|Hsp].
  2:{ exfalso. apply Hnz, getBr_outside. lia. }
  split; [done|].
  pose proof (getBr_row_length _ _ _ Hnz) as Ht.
  assert (Hrow : (length <$> br) !! sp = Some numTemporal).
  { rewrite Hshape. by apply lookup_replicate_2. }
  rewrite list_lookup_fmap in Hrow.
  destruct (br !! sp) as [row|]; [|done]. cbn in Hrow, Ht. congruence.
Qed.

Lemma anySpatialNonZero_true (brs : list (list Z)) (t n : nat) :
  anySpatialNonZero brs t n = true <->
  exists sp, (sp < n)%nat /\ getBr brs sp t ≠ 0.
Proof.
  induction n as [|n IH]; cbn [anySpatialNonZero].
  - split; [done|]. intros (sp & ? & _). lia.
  - rewrite orb_true_iff, negb_true_iff, Z.eqb_neq, IH. split.
    + intros [Hn|(sp & ? & ?)]; [exists n | exists sp]; split; auto; lia.
    + intros (sp & Hlt & Hnz). destruct (decide (sp = n)) as [->|]; [by left|].
      right. exists sp. split; [lia|done].
Qed.

Lemma highestTemporal_lower (brs : list (list Z)) (n : nat) :
  buffer.InvalidLayerTemporal <= highestTemporal brs n < Z.of_nat n
  \/ (n = 0%nat /\ highestTemporal brs n = buffer.InvalidLayerTemporal).
Proof.
  unfold buffer.InvalidLayerTemporal.
  induction n as [|n IH]; cbn [highestTemporal]; [by right|]. left.
  destruct (anySpatialNonZero _ _ _); [lia|].
  destruct IH as [?|[-> ->]]; cbn; lia.
Qed.

Lemma highestTemporal_bounds (brs : list (list Z)) (n sp t : nat) :
  (t < n)%nat -> (sp < length brs)%nat -> getBr brs sp t ≠ 0 ->
  Z.of_nat t <= highestTemporal brs n.
Proof.
  intros Ht Hsp Hnz. induction n as [|n IH]; [lia|]. cbn [highestTemporal].
  destruct (anySpatialNonZero brs n (length brs)) eqn:Hany; [lia|].
  destruct (decide (t = n)) as [->|Hne]; [|apply IH; lia].
  assert (anySpatialNonZero brs n (length brs) = true); [|congruence].
  apply anySpatialNonZero_true. by exists sp.
Qed.

(** The highest temporal layer is one with a non-zero cell. *)
Lemma highestTemporal_attained (brs : list (list Z)) (n : nat) :
  highestTemporal brs n ≠ buffer.InvalidLayerTemporal ->
  exists sp, getBr brs sp (Z.to_nat (highestTemporal brs n)) ≠ 0.
Proof.
  induction n as [|n IH]; cbn [highestTemporal]; [done|].
  destruct (anySpatialNonZero brs n (length brs)) eqn:Hany; [|apply IH].
  intros _. apply anySpatialNonZero_true in Hany as (sp & _ & Hnz).
  exists sp. by rewrite Nat2Z.id.
Qed.

(** On a matrix with the dimensions of [Bitrates], no non-zero cell has a
    temporal index above the highest temporal layer found. *)
Lemma highestTemporal_covers (brs : list (list Z)) (sp t : nat) :
  isBitrates brs = true ->
  getBr brs sp t ≠ 0 ->
  Z.of_nat t <= highestTemporal brs (length (default [] (brs !! 0%nat))).
Proof.
  intros Hshape%bool_decide_eq_true Hnz.
  assert (Hrow0 : length (default [] (brs !! 0%nat)) = numTemporal).
  { assert (Hr : (length <$> brs) !! 0%nat = Some numTemporal) by (by rewrite Hshape).
    rewrite list_lookup_fmap in Hr. destruct (brs !! 0%nat); [|done].
    cbn in *. congruence. }
  assert (Hlen : length brs = numSpatial).
  { rewrite <- (length_fmap length brs), Hshape. apply length_replicate. }
  destruct (getBr_inside _ _ _ Hshape Hnz) as [Hsp Ht].
  apply (highestTemporal_bounds brs _ sp); [by rewrite Hrow0 | by rewrite Hlen | done].
Qed.

(** X6: on a matrix with the dimensions of [Bitrates],
    [updateMaxTemporalLayerSeen] never lowers [maxTemporalLayerSeen];
    afterwards no non-zero cell of the matrix has a temporal index above
    it; when it rises (from a value that is at least [InvalidLayerTemporal])
    it rises to a temporal layer that has a non-zero cell; the listener is
    told exactly when it rises, with the new value; nothing else of the
    manager changes. *)
Theorem updateMaxTemporalLayerSeen_spec (s : StreamTrackerManager) (hasListener : bool)
    (brs : list (list Z)) :
  isBitrates brs = true ->
  let s' := fst (updateMaxTemporalLayerSeen s hasListener brs) in
  let calls := snd (updateMaxTemporalLayerSeen s hasListener brs) in
  maxTemporalLayerSeen s <= maxTemporalLayerSeen s'
  /\ (forall sp t, getBr brs sp t ≠ 0 -> Z.of_nat t <= maxTemporalLayerSeen s')
  /\ (buffer.InvalidLayerTemporal <= maxTemporalLayerSeen s ->
      maxTemporalLayerSeen s < maxTemporalLayerSeen s' ->
      exists sp, getBr brs sp (Z.to_nat (maxTemporalLayerSeen s')) ≠ 0)
  /\ calls = (if hasListener && (maxTemporalLayerSeen s <? maxTemporalLayerSeen s')
              then [OnMaxTemporalLayerSeenChanged (maxTemporalLayerSeen s')] else [])
  /\ s' = withMaxTemporalLayerSeen s (maxTemporalLayerSeen s').
Proof.
  intros Hshape. cbv zeta.
  pose proof (fun sp t => highestTemporal_covers brs sp t Hshape) as Hbound.
  unfold updateMaxTemporalLayerSeen.
  set (m := highestTemporal brs _) in *.
  destruct (Z.leb_spec m (maxTemporalLayerSeen s)) as [Hle|Hlt]; cbn [fst snd].
  - split; [lia|]. split; [intros sp t Hnz; specialize (Hbound _ _ Hnz); lia|].
    split; [lia|]. rewrite Z.ltb_irrefl, andb_false_r. split; [done|].
    by destruct s.
  - cbn [maxTemporalLayerSeen withMaxTemporalLayerSeen].
    split; [lia|]. split; [done|]. split.
    + intros Hinv _. apply highestTemporal_attained. fold m. lia.
    + apply Z.ltb_lt in Hlt. rewrite Hlt, andb_true_r. split; [by destruct hasListener|].
      by destruct s.
Qed.

Lemma fillRow_other_row (tls : list Z) (n : nat) (br : list (list Z)) (i j a b : nat) :
  i ≠ a -> getBr (fillRow br tls i j n) a b = getBr br a b.
Proof.
  intros Hne. revert br j. induction n as [|n IH]; intros br j; [done|].
  cbn [fillRow]. rewrite IH. apply getBr_setBr_ne. by left.
Qed.

Lemma fillRow_cell_cases (tls : list Z) (n : nat) (br : list (list Z)) (i j a b : nat) :
  getBr (fillRow br tls i j n) a b = getBr br a b
  \/ exists jj, getBr (fillRow br tls i j n) a b = default 0 (tls !! jj).
Proof.
  revert br j. induction n as [|n IH]; intros br j; [by left|].
  cbn [fillRow]. destruct (IH (setBr br i j (default 0 (tls !! j))) (S j)) as [->|?]; [|by right].
  destruct (getBr_setBr_cases br i j a b (default 0 (tls !! j))) as [->| ->];
    [right; by exists j | by left].
Qed.

(** Filling from the trackers leaves a zero cell at zero when the layer is
    not available or has no tracker. *)
Lemma fillTrackers_zero_cell (s : StreamTrackerManager) (sp t : nat)
    (ts : list (option StreamTracker)) (br : list (list Z)) (i : nat) :
  getBr br sp t = 0 ->
  ((i <= sp)%nat ->
   hasSpatialLayerLocked s (Z.of_nat sp) = false \/ mjoin (ts !! (sp - i)%nat) = None) ->
  getBr (fillTrackers s br i ts) sp t = 0.
Proof.
  revert br i. induction ts as [|[tracker|] ts IH]; intros br i Hz Hc; [done| |].
  - cbn [fillTrackers]. apply IH.
    + destruct (decide (i = sp)) as [->|Hne].
      * destruct Hc as [Hc|Hc]; [lia| |by rewrite Nat.sub_diag in Hc].
        rewrite Hc.
        destruct (fillRow_cell_cases (replicate numTemporal 0) (length (default [] (br !! sp)))
                    br sp 0 sp t) as [->|[jj ->]]; [done|].
        destruct (replicate numTemporal 0 !! jj) as [v|] eqn:Hv; [|done].
        apply lookup_replicate in Hv as [-> _]. done.
      * by rewrite fillRow_other_row.
    + intros Hle. destruct Hc as [Hc|Hc]; [lia|by left|right].
      replace (sp - i)%nat with (S (sp - S i)) in Hc by lia. exact Hc.
  - cbn [fillTrackers]. apply IH; [done|].
    intros Hle. destruct Hc as [Hc|Hc]; [lia|by left|right].
    replace (sp - i)%nat with (S (sp - S i)) in Hc by lia. exact Hc.
Qed.

Lemma accumulateColumns_zero_cell (j : nat) (br : list (list Z)) (i a b : nat) :
  getBr br a b = 0 -> getBr (accumulateColumns br i j) a b = 0.
Proof.
  revert br. induction j as [|j IH]; intros br Hz; [done|].
  cbn [accumulateColumns]. apply IH.
  destruct (negb (getBr br i j =? 0)) eqn:Hnz; [|done].
  apply negb_true_iff, Z.eqb_neq in Hnz.
  rewrite addLowerRows_other; [done|].
  destruct (decide (i = a)) as [->|]; [|by left].
  right. intros ->. done.
Qed.

Lemma accumulateRows_zero_cell (i : nat) (br : list (list Z)) (a b : nat) :
  getBr br a b = 0 -> getBr (accumulateRows br i) a b = 0.
Proof.
  revert br. induction i as [|i IH]; intros br Hz; [done|].
  cbn [accumulateRows]. by apply IH, accumulateColumns_zero_cell.
Qed.

(** X8: a spatial layer that is not among the available layers, or that
    has no tracker, is reported with bitrate 0 on every temporal layer by
    [GetLayeredBitrate], for SVC tracks as for the others: the
    accumulation over lower layers never fills a zero cell. *)
Theorem unavailable_layer_reports_zero (s : StreamTrackerManager) (sp t : nat) :
  hasSpatialLayerLocked s (Z.of_nat sp) = false \/ mjoin (trackers s !! sp) = None ->
  getBr (snd (GetLayeredBitrate s)) sp t = 0.
Proof.
  intros Hc. unfold GetLayeredBitrate, getLayeredBitrateLocked. cbn [snd].
  assert (Hraw : getBr (fillTrackers s zeroBitrates 0 (trackers s)) sp t = 0).
  { apply fillTrackers_zero_cell; [apply getBr_zeroBitrates|].
    intros _. by rewrite Nat.sub_0_r. }
  destruct (isSVC s); [by apply accumulateRows_zero_cell | done].
Qed.

Lemma fillTrackers_available (s1 s2 : StreamTrackerManager)
    (ts : list (option StreamTracker)) (br : list (list Z)) (i : nat) :
  availableLayers s1 = availableLayers s2 ->
  fillTrackers s1 br i ts = fillTrackers s2 br i ts.
Proof.
  intros Hal. revert br i. induction ts as [|[tracker|] ts IH]; intros br i; [done| |].
  - cbn [fillTrackers]. unfold hasSpatialLayerLocked. rewrite Hal. apply IH.
  - cbn [fillTrackers]. apply IH.
Qed.

Lemma GetLayeredBitrate_withMaxTemporalLayerSeen (s : StreamTrackerManager) (m : Z) :
  GetLayeredBitrate (withMaxTemporalLayerSeen s m) = GetLayeredBitrate s.
Proof.
  unfold GetLayeredBitrate, getLayeredBitrateLocked.
  by rewrite (fillTrackers_available (withMaxTemporalLayerSeen s m) s).
Qed.

(** X7: one tick of [bitrateReporter] never lowers
    [maxTemporalLayerSeen]; afterwards it bounds the temporal index of
    every non-zero cell of the matrix that is reported; the tick does not
    change what [GetLayeredBitrate] returns; and with a listener the last
    call of the tick is [OnBitrateReport] with the available layers and
    that matrix. *)
Theorem bitrate_tick_temporal_seen (s : StreamTrackerManager) (hasListener : bool) :
  let s' := fst (bitrateTick s hasListener) in
  let brs := snd (GetLayeredBitrate s) in
  maxTemporalLayerSeen s <= maxTemporalLayerSeen s'
  /\ (forall sp t, getBr brs sp t ≠ 0 -> Z.of_nat t <= maxTemporalLayerSeen s')
  /\ GetLayeredBitrate s' = GetLayeredBitrate s
  /\ last (snd (bitrateTick s hasListener)) =
     if hasListener then Some (OnBitrateReport (availableLayers s) brs) else None.
Proof.
  cbv zeta. unfold bitrateTick.
  destruct (GetLayeredBitrate s) as [al brs] eqn:Hg.
  assert (Hal : al = availableLayers s).
  { unfold GetLayeredBitrate, getLayeredBitrateLocked in Hg. congruence. }
  assert (Hshape : isBitrates brs = true).
  { apply bool_decide_eq_true. pose proof (rowLengths_GetLayeredBitrate s) as H.
    by rewrite Hg in H. }
  pose proof (fun sp t => highestTemporal_covers brs sp t Hshape) as Hbound.
  unfold updateMaxTemporalLayerSeen.
  set (m := highestTemporal brs _) in *.
  cbn [snd]. subst al.
  destruct (Z.leb_spec m (maxTemporalLayerSeen s)) as [Hle|Hlt]; cbn [fst snd app].
  - split; [lia|]. split; [intros sp t Hnz; specialize (Hbound _ _ Hnz); lia|].
    split; [done|]. by destruct hasListener.
  - cbn [maxTemporalLayerSeen withMaxTemporalLayerSeen].
    split; [lia|]. split; [done|]. split.
    + rewrite <- Hg. apply GetLayeredBitrate_withMaxTemporalLayerSeen.
    + destruct hasListener; [|done]. by rewrite last_snoc.
Qed.
End TemporalLayerFacts.

Section TemporalLayerExamples.
Import streamtrackermanager examples.
Local Open Scope Z_scope.

Lemma updateMaxTemporalLayerSeen_spec_witness :
  maxTemporalLayerSeen twoLayerManager
  <= maxTemporalLayerSeen
       (fst (updateMaxTemporalLayerSeen twoLayerManager true
               (snd (GetLayeredBitrate twoLayerManager)))).
Proof.
  apply (updateMaxTemporalLayerSeen_spec twoLayerManager true
           (snd (GetLayeredBitrate twoLayerManager))).
  vm_compute; reflexivity.
Defined.

Lemma unavailable_layer_reports_zero_witness :
  getBr (snd (GetLayeredBitrate twoLayerManager)) 2 0 = 0.
Proof.
  apply (unavailable_layer_reports_zero twoLayerManager 2 0). left. reflexivity.
Defined.

End TemporalLayerExamples.

(** ** The expected layers *)

Section ExpectationFacts.
Import streamtrackermanager MachineInt.
Local Open Scope Z_scope.

Lemma trackersToReset_inside (s : StreamTrackerManager) (n : nat) (l : Z) :
  0 <= l -> l + Z.of_nat n <= Z.of_nat numSpatial ->
  exists resets,
    trackersToReset s l n = Some resets
    /\ forall x, x ∈ resets <->
         l <= x < l + Z.of_nat n
         /\ hasSpatialLayerLocked s x = false
         /\ is_Some (mjoin (trackers s !! Z.to_nat x)).
Proof.
  revert l. induction n as [|n IH]; intros l Hl Hn.
  - exists []. split; [done|]. intros x. split; [by intros ?%elem_of_nil | lia].
  - destruct (IH (l + 1)) as (resets & Hres & Hin); [lia..|].
    cbn [trackersToReset]. rewrite Hres.
    destruct (hasSpatialLayerLocked s l) eqn:Hhas.
    + exists resets. split; [done|]. intros x. rewrite Hin. split.
      * intros (? & ? & ?). split; [lia|done].
      * intros (? & Hx & ?). split; [|done].
        assert (x <> l) by (intros ->; congruence). lia.
    + destruct (Z.ltb_spec l 0); [lia|].
      destruct (Z.leb_spec (Z.of_nat numSpatial) l); [lia|]. cbn [orb].
      destruct (mjoin (trackers s !! Z.to_nat l)) as [tracker|] eqn:Htr.
      * exists (l :: resets). split; [done|]. intros x. rewrite elem_of_cons, Hin. split.
        -- intros [->|(? & ? & ?)]; [|split; [lia|done]].
           split; [lia|]. split; [done|]. by rewrite Htr.
        -- intros (? & Hx & Hs). destruct (decide (x = l)) as [->|]; [by left|].
           right. split; [lia|done].
      * exists resets. split; [done|]. intros x. rewrite Hin. split.
        -- intros (? & ? & ?). split; [lia|done].
        -- intros (? & Hx & Hs). split; [|done].
           assert (x <> l); [|lia]. intros ->. rewrite Htr in Hs. by destruct Hs.
Qed.

Lemma trackersToReset_outside (s : StreamTrackerManager) (n : nat) (l x : Z) :
  l <= x < l + Z.of_nat n ->
  x < 0 \/ Z.of_nat numSpatial <= x ->
  hasSpatialLayerLocked s x = false ->
  trackersToReset s l n = None.
Proof.
  revert l. induction n as [|n IH]; intros l Hx Hout Hhas; [lia|].
  cbn [trackersToReset].
  destruct (decide (x = l)) as [->|Hne].
  - rewrite Hhas.
    destruct (Z.ltb_spec l 0); [done|].
    destruct (Z.leb_spec (Z.of_nat numSpatial) l); [done|]. lia.
  - rewrite (IH (l + 1)) by (try done; lia).
    destruct (hasSpatialLayerLocked s l); [done|].
    destruct (_ || _); [done|].
    by destruct (mjoin _).
Qed.

(** X9: with a former expectation of at least [InvalidLayerSpatial] and a
    new one of at most [DefaultMaxLayerSpatial],
    [SetMaxExpectedSpatialLayer] returns the former expectation, records
    the new one, leaves the rest of the manager alone, and resets the
    trackers of exactly the layers above the former expectation, up to the
    new one, that are not available and have a tracker; lowering the
    expectation resets none. *)
Theorem SetMaxExpectedSpatialLayer_resets (c : ManagerControl) (layer : Z) :
  buffer.InvalidLayerSpatial <= maxExpectedLayer c ->
  layer <= buffer.DefaultMaxLayerSpatial ->
  exists resets,
    SetMaxExpectedSpatialLayer c layer
    = Some (mkControl (manager c) layer (paused c), maxExpectedLayer c, resets)
    /\ forall x, x ∈ resets <->
         maxExpectedLayer c < x <= layer
         /\ hasSpatialLayerLocked (manager c) x = false
         /\ is_Some (mjoin (trackers (manager c) !! Z.to_nat x)).
Proof.
  unfold buffer.InvalidLayerSpatial, buffer.DefaultMaxLayerSpatial.
  intros Hprev Hlayer. unfold SetMaxExpectedSpatialLayer.
  destruct (Z.leb_spec layer (maxExpectedLayer c)) as [Hle|Hlt].
  - exists []. split; [done|]. intros x. split; [by intros ?%elem_of_nil | lia].
  - destruct (trackersToReset_inside (manager c) (Z.to_nat (layer - maxExpectedLayer c))
                (maxExpectedLayer c + 1)) as (resets & -> & Hin).
    { lia. }
    { unfold numSpatial, buffer.DefaultMaxLayerSpatial. lia. }
    exists resets. split; [done|]. intros x. rewrite Hin. 
    rewrite Z2Nat.id by lia. split; intros (? & ? & ?); (split; [lia|done]).
Qed.

(** X10: [SetMaxExpectedSpatialLayer] panics on an index out of range when
    a layer above the former expectation, up to the new one, is outside
    the tracker array and not among the available layers. *)
Theorem SetMaxExpectedSpatialLayer_panics (c : ManagerControl) (layer x : Z) :
  maxExpectedLayer c < x <= layer ->
  x < 0 \/ buffer.DefaultMaxLayerSpatial < x ->
  hasSpatialLayerLocked (manager c) x = false ->
  SetMaxExpectedSpatialLayer c layer = None.
Proof.
  unfold buffer.DefaultMaxLayerSpatial.
  intros Hx Hout Hhas. unfold SetMaxExpectedSpatialLayer.
  destruct (Z.leb_spec layer (maxExpectedLayer c)) as [Hle|Hlt]; [lia|].
  rewrite (trackersToReset_outside _ _ _ x); [done| |  |done].
  - rewrite Z2Nat.id by lia. lia.
  - unfold numSpatial, buffer.DefaultMaxLayerSpatial. lia.
Qed.
End ExpectationFacts.

Section ExpectationExamples.
Import streamtrackermanager examples.
Local Open Scope Z_scope.

(** Expecting layers up to 2 where only layer 0 was expected: layer 1 is
    available and layer 2 has no tracker, nothing is reset.  With layer 0
    alone available, the tracker of layer 1 is reset. *)
Example expectation_scenario :
  SetMaxExpectedSpatialLayer expectingLayer0 2 = Some (mkControl twoLayerManager 2 false, 0, [])
  /\ SetMaxExpectedSpatialLayer lostLayer1 2 = Some (mkControl layer1GoneManager 2 false, 0, [1]).
Proof. split; reflexivity. Qed.

Lemma SetMaxExpectedSpatialLayer_resets_witness :
  exists resets,
    SetMaxExpectedSpatialLayer lostLayer1 2
    = Some (mkControl layer1GoneManager 2 false, 0, resets)
    /\ forall x, x ∈ resets <->
         0 < x <= 2
         /\ hasSpatialLayerLocked layer1GoneManager x = false
         /\ is_Some (mjoin (trackers layer1GoneManager !! Z.to_nat x)).
Proof.
  apply (SetMaxExpectedSpatialLayer_resets lostLayer1 2).
  - vm_compute; discriminate.
  - vm_compute; discriminate.
Defined.

Lemma SetMaxExpectedSpatialLayer_panics_witness :
  SetMaxExpectedSpatialLayer lostLayer1 3 = None.
Proof.
  apply (SetMaxExpectedSpatialLayer_panics lostLayer1 3 3).
  - simpl; lia.
  - right. vm_compute; reflexivity.
  - reflexivity.
Defined.

End ExpectationExamples.

(** ** Sender reports and the timestamp mapping, once more *)

Section SenderReportFacts.
Import streamtrackermanager MachineInt.
Local Open Scope Z_scope.

Variable NtpTime_Time : Z -> Z.

(** X12: when the NTP instants of the two sender reports are close enough
    for the differences and their products with the clock rate to fit an
    [int64], mapping a timestamp from layer [a] to layer [b] and the
    result back from [b] to [a] gives the timestamp again. *)
Theorem reference_timestamp_round_trip (s : StreamTrackerManager) (ts a b : Z)
    (srA srB : RTCPSenderReportData) :
  0 <= a -> 0 <= b ->
  senderReports s !! Z.to_nat a = Some (Some srA) ->
  senderReports s !! Z.to_nat b = Some (Some srB) ->
  NTPTimestamp srA <> 0 -> NTPTimestamp srB <> 0 ->
  Z.abs (NtpTime_Time (NTPTimestamp srB) - NtpTime_Time (NTPTimestamp srA)) <= maxInt64 ->
  Z.abs ((NtpTime_Time (NTPTimestamp srB) - NtpTime_Time (NTPTimestamp srA)) * clockRate s)
    <= maxInt64 ->
  0 <= ts < 2 ^ 32 ->
  exists ts',
    GetReferenceLayerRTPTimestamp NtpTime_Time s ts a b = inl ts'
    /\ GetReferenceLayerRTPTimestamp NtpTime_Time s ts' b a = inl ts.
Proof.
  intros Ha Hb HsrA HsrB HnA HnB Hd Hp Hts.
  set (d := NtpTime_Time (NTPTimestamp srB) - NtpTime_Time (NTPTimestamp srA)) in *.
  assert (Hmax : maxInt64 = 2 ^ 63 - 1) by reflexivity.
  assert (Hmin : minInt64 = - 2 ^ 63) by reflexivity.
  eexists. split.
  { apply (GetReferenceLayerRTPTimestamp_value NtpTime_Time s ts a b srA srB); assumption. }
  rewrite (GetReferenceLayerRTPTimestamp_value NtpTime_Time s _ b a srB srA) by assumption.
  f_equal. unfold rtpDiffOf.
  rewrite !Time_Sub_fits by (unfold fitsInt64; fold d; lia).
  fold d.
  replace (NtpTime_Time (NTPTimestamp srA) - NtpTime_Time (NTPTimestamp srB)) with (- d)
    by (unfold d; lia).
  rewrite !wrap_int64_fits by (unfold fitsInt64; lia).
  rewrite Z.mul_opp_l, Z.quot_opp_l by lia.
  set (q := Z.quot (d * clockRate s) 1000000000).
  rewrite Zplus_mod_idemp_l.
  replace (ts + (RTPTimestamp srB - (RTPTimestamp srA + q))
              + (RTPTimestamp srA - (RTPTimestamp srB + - q))) with ts by lia.
  apply Z.mod_small. lia.
Qed.

(** X13: whether [GetReferenceLayerRTPTimestamp] succeeds does not depend
    on the timestamp, and the mapping is a translation modulo 2^32: two
    timestamps are mapped to timestamps the same distance apart. *)
Theorem reference_timestamp_translation (s : StreamTrackerManager)
    (ts1 ts2 layer referenceLayer t1 : Z) :
  GetReferenceLayerRTPTimestamp NtpTime_Time s ts1 layer referenceLayer = inl t1 ->
  exists t2,
    GetReferenceLayerRTPTimestamp NtpTime_Time s ts2 layer referenceLayer = inl t2
    /\ wrap_uint32 (t2 - t1) = wrap_uint32 (ts2 - ts1).
Proof.
  unfold GetReferenceLayerRTPTimestamp.
  destruct (_ || _); [done|].
  destruct (senderReportOf s layer) as [srLayer|]; [|done].
  destruct (NTPTimestamp srLayer =? 0); [done|].
  destruct (senderReportOf s referenceLayer) as [srRef|]; [|done].
  destruct (NTPTimestamp srRef =? 0); [done|].
  cbv zeta. intros [= <-]. eexists. split; [reflexivity|].
  unfold wrap_uint32.
  set (c := (RTPTimestamp srRef - _) mod 2 ^ 32).
  rewrite <- Zminus_mod. f_equal. lia.
Qed.

(** X11: after [SetRTCPSenderReportData] the report of the layer is the
    one that was set, when the layer is inside the array, and the reports
    of the other layers are the former ones; a layer outside the array
    leaves the manager as it was; and after a nil report was set for a
    layer, mapping from that layer answers with the not-available
    error of the layer. *)
Theorem sender_report_set_then_get (s : StreamTrackerManager) (layer : Z)
    (sr : option RTCPSenderReportData) :
  (forall layer', 0 <= layer' ->
     senderReportOf (SetRTCPSenderReportData s layer sr) layer'
     = if bool_decide (layer' = layer /\ layer < Z.of_nat (length (senderReports s)))
       then sr else senderReportOf s layer')
  /\ (layer < 0 \/ Z.of_nat (length (senderReports s)) <= layer ->
      SetRTCPSenderReportData s layer sr = s)
  /\ (sr = None -> forall ts referenceLayer, 0 <= layer -> 0 <= referenceLayer ->
      GetReferenceLayerRTPTimestamp NtpTime_Time (SetRTCPSenderReportData s layer sr)
        ts layer referenceLayer
      = inr (ErrLayerSenderReportNotAvailable layer)).
Proof.
  assert (Hget : forall layer', 0 <= layer' ->
     senderReportOf (SetRTCPSenderReportData s layer sr) layer'
     = if bool_decide (layer' = layer /\ layer < Z.of_nat (length (senderReports s)))
       then sr else senderReportOf s layer').
  { intros layer' Hpos. unfold SetRTCPSenderReportData.
    destruct (Z.ltb_spec layer 0) as [Hneg|Hnn]; cbn [orb].
    { rewrite bool_decide_eq_false_2 by lia. done. }
    destruct (Z.leb_spec (Z.of_nat (length (senderReports s))) layer) as [Hout|Hin].
    { rewrite bool_decide_eq_false_2 by lia. done. }
    unfold senderReportOf, withSenderReports. cbn [senderReports].
    rewrite length_insert.
    case_bool_decide as Hc.
    - destruct Hc as [-> _]. destruct (Z.ltb_spec layer (Z.of_nat (length (senderReports s)))); [|lia].
      rewrite list_lookup_insert_eq by lia. done.
    - destruct (Z.ltb_spec layer' (Z.of_nat (length (senderReports s)))); [|done].
      rewrite list_lookup_insert_ne by lia. done. }
  split; [exact Hget|]. split.
  - intros Hout. unfold SetRTCPSenderReportData.
    destruct (Z.ltb_spec layer 0); [done|].
    destruct (Z.leb_spec (Z.of_nat (length (senderReports s))) layer); [done|lia].
  - intros -> ts referenceLayer Hl Hr. unfold GetReferenceLayerRTPTimestamp.
    destruct (Z.ltb_spec layer 0); [lia|].
    destruct (Z.ltb_spec referenceLayer 0); [lia|]. cbn [orb].
    rewrite Hget by done. case_bool_decide as Hc; [done|].
    unfold senderReportOf.
    destruct (Z.ltb_spec layer (Z.of_nat (length (senderReports s)))); [lia|done].
Qed.
End SenderReportFacts.

Section SenderReportExamples.
Import streamtrackermanager MachineInt examples.
Local Open Scope Z_scope.

Lemma reference_timestamp_round_trip_witness :
  exists ts',
    GetReferenceLayerRTPTimestamp ntpClock alignmentManager 105000 0 1 = inl ts'
    /\ GetReferenceLayerRTPTimestamp ntpClock alignmentManager ts' 1 0 = inl 105000.
Proof.
  apply (reference_timestamp_round_trip ntpClock alignmentManager 105000 0 1
           layer0Report layer1Report).
  - lia.
  - lia.
  - reflexivity.
  - reflexivity.
  - vm_compute; discriminate.
  - vm_compute; discriminate.
  - vm_compute; discriminate.
  - vm_compute; discriminate.
  - lia.
Defined.

Lemma reference_timestamp_translation_witness :
  exists t2,
    GetReferenceLayerRTPTimestamp ntpClock alignmentManager 200000 0 1 = inl t2
    /\ wrap_uint32 (t2 - 106000) = wrap_uint32 (200000 - 105000).
Proof.
  apply (reference_timestamp_translation ntpClock alignmentManager 105000 200000 0 1 106000).
  reflexivity.
Defined.

End SenderReportExamples.

(** ** The spreader: counting the down tracks *)

Section SpreaderFacts.
Import downtrackspreader.

Lemma DownTrackCount_shadow (m : gmap string TrackSender) (sh : list TrackSender) :
  DownTrackCount (shadowDownTracks (mkSpreader m sh)) = size m.
Proof.
  unfold DownTrackCount, shadowDownTracks. cbn [downTracks downTracksShadow].
  rewrite length_fmap. apply length_map_to_list.
Qed.

(** X14: [DownTrackCount] after [Store] is the number of subscribers
    before, plus one unless the subscriber had a down track; after [Free]
    it is that number, minus one if the subscriber had a down track;
    afterwards [HasDownTrack] answers yes for a stored subscriber and no
    for a freed one; freeing a subscriber that was stored and had no down
    track before gives the former map and shadow slice;
    [ResetAndGetDownTracks] returns the shadow slice and leaves no down
    track. *)
Theorem spreader_count (d : DownTrackSpreader) (ts : TrackSender) (id : string) :
  DownTrackCount (Store d ts)
  = (if HasDownTrack d (SubscriberID ts) then size (downTracks d)
     else S (size (downTracks d)))
  /\ S (DownTrackCount (Free d id))
     = (if HasDownTrack d id then size (downTracks d) else S (size (downTracks d)))
  /\ HasDownTrack (Store d ts) (SubscriberID ts) = true
  /\ HasDownTrack (Free d id) id = false
  /\ (HasDownTrack d (SubscriberID ts) = false ->
      Free (Store d ts) (SubscriberID ts) = shadowDownTracks d)
  /\ DownTrackCount (fst (ResetAndGetDownTracks d)) = 0%nat
  /\ snd (ResetAndGetDownTracks d) = GetDownTracks d.
Proof.
  unfold Store, Free, HasDownTrack.
  rewrite !DownTrackCount_shadow. cbn [downTracks shadowDownTracks].
  split; [|split; [|split; [|split; [|split; [|split]]]]].
  - case_bool_decide as Hin.
    + by rewrite map_size_insert_Some.
    + rewrite map_size_insert_None; [done|].
      by apply eq_None_not_Some.
  - case_bool_decide as Hin.
    + rewrite map_size_delete_Some by done. destruct Hin as [x Hx].
      assert (size (downTracks d) <> 0%nat); [|lia].
      intros Hz%map_size_empty_inv. rewrite Hz in Hx. by rewrite lookup_empty in Hx.
    + rewrite map_size_delete_None; [done|]. by apply eq_None_not_Some.
  - apply bool_decide_eq_true. rewrite lookup_insert_eq. by eexists.
  - apply bool_decide_eq_false. rewrite lookup_delete_eq. by intros [? ?].
  - intros Hno%bool_decide_eq_false. apply eq_None_not_Some in Hno.
    unfold shadowDownTracks. cbn [downTracks].
    rewrite delete_insert_eq, delete_id; done.
  - reflexivity.
  - reflexivity.
Qed.
End SpreaderFacts.

(** ** The VP9 layer selector, once more *)

Section VP9More.
Import buffer videolayerselector.
Local Open Scope Z_scope.

Variable isValid : VideoLayer -> bool.

Lemma VideoLayer_eq_cases (a b : VideoLayer) : a = b \/ a <> b.
Proof.
  destruct (VideoLayer_eqb a b) eqn:Heq.
  - left. by apply VideoLayer_eqb_eq.
  - right. intros H%VideoLayer_eqb_eq. congruence.
Qed.

Lemma Select_steady (v : Base) (extPkt : ExtPacket) :
  currentLayer v = targetLayer v -> fst (Select isValid v extPkt) = v.
Proof.
  intros Heq. unfold Select. destruct (Payload extPkt); [|done].
  apply VideoLayer_eqb_eq in Heq. by rewrite Heq.
Qed.

Lemma commitLayer_frame (v : Base) (upd : VideoLayer) :
  fst (commitLayer isValid v upd) = withCurrentLayer v upd.
Proof.
  unfold commitLayer. destruct (VideoLayer_eqb upd (currentLayer v)) eqn:Heq; [|done].
  apply VideoLayer_eqb_eq in Heq. subst upd. by destruct v.
Qed.

(** In every case the selector after [Select] is the former one with a
    new current layer. *)
Lemma Select_frame (v : Base) (extPkt : ExtPacket) :
  fst (Select isValid v extPkt)
  = withCurrentLayer v (currentLayer (fst (Select isValid v extPkt))).
Proof.
  unfold Select. destruct (Payload extPkt) as [vp9|]; [|by destruct v].
  destruct (negb (VideoLayer_eqb _ _)); [|by destruct v].
  destruct (negb (isValid _)).
  - destruct (negb (KeyFrame extPkt)); [by destruct v|].
    pose proof (commitLayer_frame v (VideoLayer_ extPkt)) as Hc.
    destruct (commitLayer isValid v (VideoLayer_ extPkt)) as [v' res]. cbn [fst] in *.
    by rewrite Hc.
  - destruct (spatialStep _ _ _ _) as [cur upd].
    pose proof (commitLayer_frame v upd) as Hc.
    destruct (commitLayer isValid v upd) as [v' res]. cbn [fst] in *.
    by rewrite Hc.
Qed.

(** X15: with a valid current layer, or with the current layer at the
    target, [Select] never moves a coordinate of the current layer beyond
    the target or away from it: each coordinate afterwards lies between
    its former value and the target's.  At the target the selector is left
    as it is, and target, maximal layer, requested layer and
    maximal seen layer never change. *)
Theorem vp9_select_no_overshoot (v : Base) (extPkt : ExtPacket) :
  isValid (currentLayer v) = true \/ currentLayer v = targetLayer v ->
  let v' := fst (Select isValid v extPkt) in
  Z.min (Spatial (currentLayer v)) (Spatial (targetLayer v)) <= Spatial (currentLayer v')
    <= Z.max (Spatial (currentLayer v)) (Spatial (targetLayer v))
  /\ Z.min (Temporal (currentLayer v)) (Temporal (targetLayer v)) <= Temporal (currentLayer v')
    <= Z.max (Temporal (currentLayer v)) (Temporal (targetLayer v))
  /\ (currentLayer v = targetLayer v -> v' = v)
  /\ targetLayer v' = targetLayer v /\ maxLayer v' = maxLayer v
  /\ requestSpatial v' = requestSpatial v /\ maxSeenLayer v' = maxSeenLayer v.
Proof.
  intros Hc. cbv zeta.
  assert (Hframe := Select_frame v extPkt).
  split; [|split; [|split; [apply Select_steady|rewrite Hframe; done]]].
  - destruct (VideoLayer_eq_cases (currentLayer v) (targetLayer v)) as [Heq|Hne].
    { rewrite Select_steady by done. lia. }
    destruct Hc as [Hv|]; [|done].
    destruct (Payload extPkt) as [vp9|] eqn:Hp.
    2:{ unfold Select. rewrite Hp. cbn [fst]. lia. }
    rewrite (Select_valid_current isValid v extPkt vp9) by done.
    pose proof (spatialStep_cases v extPkt vp9
                  (temporalStep v extPkt vp9 (currentLayer v, currentLayer v))
                  (temporalStep_spatial v extPkt vp9 _)) as Hs.
    cbv zeta in Hs. lia.
  - destruct (VideoLayer_eq_cases (currentLayer v) (targetLayer v)) as [Heq|Hne].
    { rewrite Select_steady by done. lia. }
    destruct Hc as [Hv|]; [|done].
    destruct (Payload extPkt) as [vp9|] eqn:Hp.
    2:{ unfold Select. rewrite Hp. cbn [fst]. lia. }
    rewrite (Select_valid_current isValid v extPkt vp9) by done.
    rewrite spatialStep_temporal.
    pose proof (temporalStep_cases v extPkt vp9) as Ht. cbv zeta in Ht. lia.
Qed.

(** X16: with an invalid current layer that differs from the target,
    [Select] on a VP9 packet that is not a key frame changes nothing and
    returns the zero result (not relevant, not selected); on a key frame
    the current layer becomes the layer of the packet, whatever the target,
    the result is relevant, and it reports resuming exactly when the
    layer of the packet is valid. *)
Theorem vp9_select_resume (v : Base) (extPkt : ExtPacket) (vp9 : codecs.VP9Packet) :
  Payload extPkt = PayloadVP9 vp9 ->
  isValid (currentLayer v) = false ->
  currentLayer v <> targetLayer v ->
  (KeyFrame extPkt = false -> Select isValid v extPkt = (v, zeroResult))
  /\ (KeyFrame extPkt = true ->
      currentLayer (fst (Select isValid v extPkt)) = VideoLayer_ extPkt
      /\ IsRelevant (snd (Select isValid v extPkt)) = true
      /\ IsResuming (snd (Select isValid v extPkt)) = isValid (VideoLayer_ extPkt)).
Proof.
  intros Hp Hinv Hne. unfold Select. rewrite Hp.
  destruct (VideoLayer_eqb (currentLayer v) (targetLayer v)) eqn:Heq.
  { by apply VideoLayer_eqb_eq in Heq. }
  cbn [negb]. rewrite Hinv. cbn [negb]. split; intros ->; cbn [negb]; [done|].
  pose proof (commitLayer_current isValid v (VideoLayer_ extPkt)) as Hcur.
  unfold commitLayer in *.
  destruct (VideoLayer_eqb (VideoLayer_ extPkt) (currentLayer v)) eqn:Hsame; cbn in *.
  - split; [done|]. split; [done|].
    apply VideoLayer_eqb_eq in Hsame. by rewrite Hsame, Hinv.
  - split; [done|]. split; [done|]. by rewrite Hinv.
Qed.

(** X17: the flags of the result tell what happened to the selector:
    resuming, exactly when the current layer was invalid and is valid
    afterwards; switching to the maximal spatial layer, exactly when the
    current spatial layer was not the maximal one and is afterwards;
    switching to the requested spatial layer likewise; and a result that
    is not relevant is the zero result of a call that changed nothing. *)
Theorem vp9_select_flags (v : Base) (extPkt : ExtPacket) :
  let v' := fst (Select isValid v extPkt) in
  let result := snd (Select isValid v extPkt) in
  (IsResuming result = true <->
     isValid (currentLayer v) = false /\ isValid (currentLayer v') = true)
  /\ (IsSwitchingToMaxSpatial result = true <->
     Spatial (currentLayer v) <> Spatial (maxLayer v)
     /\ Spatial (currentLayer v') = Spatial (maxLayer v))
  /\ (IsSwitchingToRequestSpatial result = true <->
     Spatial (currentLayer v) <> requestSpatial v
     /\ Spatial (currentLayer v') = requestSpatial v)
  /\ (IsRelevant result = false -> v' = v /\ result = zeroResult).
Proof.
  cbv zeta.
  assert (Hcommit : forall upd,
    let v' := fst (commitLayer isValid v upd) in
    let result := snd (commitLayer isValid v upd) in
    (isValid (currentLayer v) = true -> IsResuming result = false)
    /\ (isValid (currentLayer v) = false -> IsResuming result = isValid upd)
    /\ (IsSwitchingToMaxSpatial result = true <->
        Spatial (currentLayer v) <> Spatial (maxLayer v)
        /\ Spatial upd = Spatial (maxLayer v))
    /\ (IsSwitchingToRequestSpatial result = true <->
        Spatial (currentLayer v) <> requestSpatial v
        /\ Spatial upd = requestSpatial v)
    /\ currentLayer v' = upd).
  { intros upd. cbv zeta. unfold commitLayer.
    destruct (VideoLayer_eqb upd (currentLayer v)) eqn:Heq; cbn.
    - apply VideoLayer_eqb_eq in Heq. subst upd.
      split; [done|]. split; [by intros ->|].
      split; [|split; [|done]]; (split; [done|]); intros [? ?]; done.
    - split; [by intros ->|]. split; [by intros ->|].
      rewrite !andb_true_iff, !negb_true_iff, !Z.eqb_neq, !Z.eqb_eq. done. }
  assert (Hsteady :
    (false = true <-> isValid (currentLayer v) = false /\ isValid (currentLayer v) = true)
    /\ (false = true <-> Spatial (currentLayer v) <> Spatial (maxLayer v)
                         /\ Spatial (currentLayer v) = Spatial (maxLayer v))
    /\ (false = true <-> Spatial (currentLayer v) <> requestSpatial v
                         /\ Spatial (currentLayer v) = requestSpatial v)).
  { split; [|split]; (split; [done|]); intros [? ?]; congruence. }
  unfold Select. destruct (Payload extPkt) as [vp9|]; cbn [fst snd].
  2:{ destruct Hsteady as (? & ? & ?). done. }
  destruct (negb (VideoLayer_eqb _ _)); cbn [fst snd].
  2:{ destruct Hsteady as (? & ? & ?). done. }
  destruct (isValid (currentLayer v)) eqn:Hv; cbn [negb].
  - destruct (spatialStep _ _ _ _) as [cur upd].
    specialize (Hcommit upd). cbv zeta in Hcommit.
    destruct (commitLayer isValid v upd) as [v' res]. cbn [fst snd IsResuming
      IsSwitchingToMaxSpatial IsSwitchingToRequestSpatial IsRelevant selectTail] in *.
    destruct Hcommit as (Hr & _ & Hm & Hq & ->).
    rewrite Hr by done. split; [|done]. split; [done|]. intros [? _]. done.
  - destruct (KeyFrame extPkt); cbn [negb fst snd].
    2:{ rewrite Hv. destruct Hsteady as (? & ? & ?). done. }
    specialize (Hcommit (VideoLayer_ extPkt)). cbv zeta in Hcommit.
    destruct (commitLayer isValid v (VideoLayer_ extPkt)) as [v' res].
    cbn [fst snd IsResuming IsSwitchingToMaxSpatial IsSwitchingToRequestSpatial
         IsRelevant selectTail] in *.
    destruct Hcommit as (_ & Hr & Hm & Hq & ->).
    rewrite Hr by done. split; [|done]. split; [by intros ->|]. by intros [_ ?].
Qed.
End VP9More.

Section VP9MoreExamples.
Import buffer videolayerselector examples.
Local Open Scope Z_scope.

Lemma vp9_select_no_overshoot_witness :
  Z.min (Temporal (currentLayer promoteSelector)) (Temporal (targetLayer promoteSelector))
  <= Temporal (currentLayer (fst (Select IsValid promoteSelector upswitchPacket)))
  <= Z.max (Temporal (currentLayer promoteSelector)) (Temporal (targetLayer promoteSelector)).
Proof.
  apply (vp9_select_no_overshoot IsValid promoteSelector upswitchPacket).
  left. reflexivity.
Defined.

Lemma vp9_select_resume_witness :
  currentLayer (fst (Select IsValid pausedSelector keyFramePacket)) = mkVideoLayer 2 0.
Proof.
  apply (vp9_select_resume IsValid pausedSelector keyFramePacket
           (codecs.mkVP9Packet false false true false)).
  - reflexivity.
  - reflexivity.
  - discriminate.
  - reflexivity.
Defined.

End VP9MoreExamples.

(** ** The RED receiver on streams *)

Section RedStreamFacts.
Import redreceiver MachineInt.
Local Open Scope Z_scope.

Lemma follows_moreRecent (a b : Packet) : follows a b = true -> moreRecent b a = true.
Proof.
  unfold follows, moreRecent. rewrite andb_true_iff, Z.eqb_eq, Z.ltb_lt.
  intros [-> _]. reflexivity.
Qed.

Lemma follows_within (a b : Packet) : follows a b = true -> withinRedundancy 2 b a = true.
Proof.
  unfold follows, withinRedundancy. rewrite !andb_true_iff, Z.eqb_eq, !Z.ltb_lt.
  intros [Hs Ht]. rewrite negb_true_iff, Z.eqb_neq, Z.leb_le. split; [split|]; [|lia|lia].
  intros Heq. rewrite Heq, Z.sub_diag in Hs. discriminate.
Qed.

Lemma follows_twice_within (a b c : Packet) :
  follows a b = true -> follows b c = true -> withinRedundancy 2 c a = true.
Proof.
  unfold follows, withinRedundancy, wrap_uint16, wrap_uint32.
  rewrite !andb_true_iff, !Z.eqb_eq, !Z.ltb_lt.
  intros [Hs1 Ht1] [Hs2 Ht2].
  assert (Hs : (SequenceNumber c - SequenceNumber a) mod 2 ^ 16 = 2).
  { replace (SequenceNumber c - SequenceNumber a)
      with ((SequenceNumber c - SequenceNumber b) + (SequenceNumber b - SequenceNumber a)) by lia.
    rewrite Zplus_mod, Hs1, Hs2. reflexivity. }
  assert (Ht : (Timestamp c - Timestamp a) mod 2 ^ 32 < 2 ^ 14).
  { replace (Timestamp c - Timestamp a)
      with ((Timestamp c - Timestamp b) + (Timestamp b - Timestamp a)) by lia.
    rewrite Zplus_mod.
    pose proof (Z.mod_pos_bound (Timestamp c - Timestamp b) (2 ^ 32) ltac:(lia)).
    pose proof (Z.mod_pos_bound (Timestamp b - Timestamp a) (2 ^ 32) ltac:(lia)).
    rewrite Z.mod_small; lia. }
  rewrite negb_true_iff, Z.eqb_neq, Z.leb_le. split; [split|]; [|lia|lia].
  intros Heq. rewrite Heq, Z.sub_diag in Hs. discriminate.
Qed.

Lemma inOrder_app (l1 l2 : list Packet) :
  inOrder (l1 ++ l2) = true -> inOrder l1 = true /\ inOrder l2 = true.
Proof.
  induction l1 as [|a l1 IH]; [done|].
  destruct l1 as [|b l1].
  - cbn. destruct l2 as [|b l2]; [done|]. rewrite andb_true_iff. tauto.
  - change ((a :: b :: l1) ++ l2) with (a :: b :: (l1 ++ l2)).
    cbn [inOrder]. rewrite !andb_true_iff. intros [Hab Hrest].
    destruct (IH Hrest) as [H1 H2]. cbn [inOrder] in H1. done.
Qed.

Lemma inOrder_last_two (l : list Packet) (a b : Packet) :
  inOrder (l ++ [a; b]) = true -> follows a b = true.
Proof.
  intros [_ H]%inOrder_app. cbn in H. by rewrite andb_true_r in H.
Qed.

Lemma inOrder_init (l : list Packet) (a : Packet) :
  inOrder (l ++ [a]) = true -> inOrder l = true.
Proof. by intros [H _]%inOrder_app. Qed.

(** With down tracks, [ForwardRTP] inserts the packet into the history
    whatever the encoder answers. *)
Lemma ForwardRTP_history (r : RedReceiver) (pkt : Packet) :
  downTrackCount r ≠ 0%nat ->
  pktBuff (fst (ForwardRTP r pkt)) = insertPrimary (pktBuff r) pkt (length (pktBuff r))
  /\ downTrackCount (fst (ForwardRTP r pkt)) = downTrackCount r
  /\ ((0 < length (redPayloadBuf r))%nat ->
      length (redPayloadBuf (fst (ForwardRTP r pkt))) = length (redPayloadBuf r)).
Proof.
  intros Hdt. unfold ForwardRTP.
  destruct (Nat.eqb_spec (downTrackCount r) 0); [done|].
  unfold RedReceiver_encodeRedForPrimary.
  pose proof (length_encodeRedForPrimary (redundancyFor r pkt) pkt (redPayloadBuf r)) as Hl.
  destruct (encodeRedForPrimary _ _ _) as [buf [len|e]]; cbn [fst pktBuff downTrackCount
    redPayloadBuf] in *; done.
Qed.

Lemma forwardAll_snoc (pkts : list Packet) (r : RedReceiver) (p : Packet) :
  fst (forwardAll r (pkts ++ [p])) = fst (ForwardRTP (fst (forwardAll r pkts)) p).
Proof.
  revert r. induction pkts as [|q pkts IH]; intros r.
  - cbn. by destruct (ForwardRTP r p).
  - cbn [forwardAll app]. destruct (ForwardRTP r q) as [r1 o1].
    specialize (IH r1).
    destruct (forwardAll r1 (pkts ++ [p])) as [r2 o2].
    destruct (forwardAll r1 pkts) as [r3 o3]. done.
Qed.

Lemma forwardAll_shape (pkts : list Packet) (r : RedReceiver) :
  downTrackCount r ≠ 0%nat -> (0 < length (redPayloadBuf r))%nat ->
  downTrackCount (fst (forwardAll r pkts)) = downTrackCount r
  /\ length (redPayloadBuf (fst (forwardAll r pkts))) = length (redPayloadBuf r).
Proof.
  induction pkts as [|p pkts IH] using rev_ind; intros Hdt Hbuf; [done|].
  rewrite forwardAll_snoc. destruct (IH Hdt Hbuf) as [Hd Hl].
  destruct (ForwardRTP_history (fst (forwardAll r pkts)) p) as (_ & Hd' & Hl'); [congruence|].
  rewrite Hd', Hl' by lia. done.
Qed.

(** After a stream in order, the newest slot of the history holds the
    last packet, the other slot the one before. *)
Lemma forwardAll_in_order (pkts : list Packet) (r : RedReceiver) (a : Packet) :
  pktBuff r = replicate maxRedCount None ->
  downTrackCount r ≠ 0%nat -> (0 < length (redPayloadBuf r))%nat ->
  inOrder (pkts ++ [a]) = true ->
  pktBuff (fst (forwardAll r (pkts ++ [a]))) = [last (Some <$> pkts) ≫= id; Some a].
Proof.
  intros Hinit Hdt Hbuf. revert a.
  induction pkts as [|q pkts IH] using rev_ind; intros a Hord.
  - cbn [app forwardAll]. destruct (ForwardRTP r a) as [r1 o1] eqn:Hf.
    cbn [fst]. replace r1 with (fst (ForwardRTP r a)) by (by rewrite Hf).
    destruct (ForwardRTP_history r a Hdt) as (-> & _). rewrite Hinit. reflexivity.
  - rewrite forwardAll_snoc.
    rewrite <- app_assoc in Hord. cbn [app] in Hord.
    assert (Hqa := inOrder_last_two _ _ _ Hord).
    assert (Hq : inOrder (pkts ++ [q]) = true).
    { replace (pkts ++ [q; a]) with ((pkts ++ [q]) ++ [a]) in Hord
        by (by rewrite <- app_assoc). by apply inOrder_init in Hord. }
    specialize (IH q Hq).
    destruct (forwardAll_shape (pkts ++ [q]) r Hdt Hbuf) as [Hd _].
    destruct (ForwardRTP_history (fst (forwardAll r (pkts ++ [q]))) a) as (-> & _);
      [congruence|].
    rewrite IH. cbn [length]. rewrite insertPrimary_two.
    rewrite (follows_moreRecent q a Hqa).
    rewrite fmap_app. cbn [fmap list_fmap]. rewrite last_snoc. reflexivity.
Qed.

(** X18: a receiver with down tracks that starts on an empty history and
    is fed a stream in order (each packet the next sequence number and less
    than 2^13 timestamp units after the one before) holds the last two
    packets in its history; the next packet of the stream gets these two
    as redundancy, oldest first, pushes the older one out of the history,
    and is broadcast with the layout of both blocks whenever the required
    size fits the buffer. *)
Theorem red_in_order_stream (r : RedReceiver) (pkts : list Packet) (a b c : Packet) :
  pktBuff r = replicate maxRedCount None ->
  length (redPayloadBuf r) = mtuSize ->
  downTrackCount r ≠ 0%nat ->
  inOrder (pkts ++ [a; b; c]) = true ->
  let r' := fst (forwardAll r (pkts ++ [a; b])) in
  pktBuff r' = [Some a; Some b]
  /\ redundancyFor r' c = [a; b]
  /\ pktBuff (fst (ForwardRTP r' c)) = [Some b; Some c]
  /\ ((requiredSize c [a; b] <= mtuSize)%nat ->
      snd (ForwardRTP r' c) = Some (withPayload c (redLayout c [a; b]))).
Proof.
  intros Hinit Hbuf Hdt Hord. cbv zeta.
  assert (Hbuf0 : (0 < length (redPayloadBuf r))%nat) by (rewrite Hbuf; unfold mtuSize; lia).
  assert (Hbc : follows b c = true).
  { apply (inOrder_last_two (pkts ++ [a])). by rewrite <- app_assoc. }
  assert (Hab' : inOrder (pkts ++ [a; b]) = true).
  { apply (inOrder_init _ c). by rewrite <- app_assoc. }
  assert (Hab : follows a b = true) by (by apply inOrder_last_two in Hab').
  assert (Hhist : pktBuff (fst (forwardAll r (pkts ++ [a; b]))) = [Some a; Some b]).
  { replace (pkts ++ [a; b]) with ((pkts ++ [a]) ++ [b]) in * by (by rewrite <- app_assoc).
    rewrite forwardAll_in_order by done.
    rewrite fmap_app. cbn [fmap list_fmap]. by rewrite last_snoc. }
  destruct (forwardAll_shape (pkts ++ [a; b]) r Hdt Hbuf0) as [Hd Hl].
  set (r' := fst (forwardAll r (pkts ++ [a; b]))) in *.
  assert (Hred : redundancyFor r' c = [a; b]).
  { rewrite redundancyFor_filter by (by rewrite Hhist). rewrite Hhist.
    change (omap id [Some a; Some b]) with [a; b]. cbn [List.filter].
    by rewrite (follows_twice_within a b c), (follows_within b c). }
  split; [done|]. split; [done|]. split.
  - destruct (ForwardRTP_history r' c) as (-> & _); [congruence|].
    rewrite Hhist. cbn [length]. rewrite insertPrimary_two.
    by rewrite (follows_moreRecent b c).
  - intros Hfit.
    assert (Henc : encodedRedPkts (redundancyFor r' c) c (redPayloadBuf r') = [a; b]).
    { rewrite Hred. apply encodedRedPkts_fits. rewrite Hl, Hbuf. done. }
    rewrite ForwardRTP_emits; rewrite ?Henc; [done|congruence|].
    rewrite length_redLayout_required, Hl, Hbuf. done.
Qed.

(** X19: a packet that is not more recent than either packet of a full
    history (it arrives late) leaves the history as it is, gets no
    redundancy, and is broadcast with the one-byte header and its own
    payload. *)
Theorem red_late_packet (r : RedReceiver) (pa pb pkt : Packet) :
  pktBuff r = [Some pa; Some pb] ->
  length (redPayloadBuf r) = mtuSize ->
  downTrackCount r ≠ 0%nat ->
  moreRecent pkt pa = false -> moreRecent pkt pb = false ->
  pktBuff (fst (ForwardRTP r pkt)) = pktBuff r
  /\ redundancyFor r pkt = []
  /\ ((length (Payload pkt) < mtuSize)%nat ->
      snd (ForwardRTP r pkt) = Some (withPayload pkt (redLayout pkt []))).
Proof.
  intros Hhist Hbuf Hdt Ha Hb.
  assert (Hskip : forall p, moreRecent pkt p = false -> withinRedundancy 2 pkt p = false).
  { intros p. unfold moreRecent, withinRedundancy. rewrite Z.ltb_ge. intros Hp.
    destruct (Z.leb_spec (wrap_uint16 (SequenceNumber pkt - SequenceNumber p)) 2); [lia|].
    by rewrite andb_false_r. }
  assert (Hred : redundancyFor r pkt = []).
  { rewrite redundancyFor_filter by (by rewrite Hhist). rewrite Hhist.
    change (omap id [Some pa; Some pb]) with [pa; pb]. cbn [List.filter].
    by rewrite (Hskip pa Ha), (Hskip pb Hb). }
  split; [|split; [done|]].
  - destruct (ForwardRTP_history r pkt Hdt) as (-> & _).
    rewrite Hhist. cbn [length]. by rewrite insertPrimary_two, Ha, Hb.
  - intros Hlen.
    assert (Henc : encodedRedPkts (redundancyFor r pkt) pkt (redPayloadBuf r) = []).
    { rewrite Hred. unfold encodedRedPkts. by destruct (decide _). }
    rewrite ForwardRTP_emits; rewrite ?Henc; [done|done|].
    rewrite length_redLayout_required, Hbuf. unfold requiredSize, payloadBytes. cbn. lia.
Qed.

Lemma collectRedPkts_kept (n : nat) (pkt p : Packet) (prevs : list (option Packet)) :
  p ∈ collectRedPkts n pkt prevs -> skipsRedundancy n pkt p = false.
Proof.
  induction prevs as [|[prev|] prevs IH]; cbn [collectRedPkts].
  - by intros ?%elem_of_nil.
  - destruct (skipsRedundancy n pkt prev) eqn:Hs; [done|].
    intros [->|?]%elem_of_cons; [done|by apply IH].
  - done.
Qed.

(** X20: a packet with the sequence number of the newest packet of the
    history (a repeated packet) is stored again as the newest one and
    pushes the older slot out; no packet with its own sequence number is
    among its redundancy. *)
Theorem red_repeated_packet (r : RedReceiver) (x : option Packet) (pb pkt : Packet) :
  pktBuff r = [x; Some pb] ->
  downTrackCount r ≠ 0%nat ->
  SequenceNumber pkt = SequenceNumber pb ->
  pktBuff (fst (ForwardRTP r pkt)) = [Some pb; Some pkt]
  /\ (forall p, p ∈ redundancyFor r pkt -> SequenceNumber p ≠ SequenceNumber pkt).
Proof.
  intros Hhist Hdt Hsn. split.
  - destruct (ForwardRTP_history r pkt Hdt) as (-> & _).
    rewrite Hhist. cbn [length]. rewrite insertPrimary_two.
    unfold moreRecent. by rewrite Hsn, Z.sub_diag.
  - intros p Hin%collectRedPkts_kept Heq.
    unfold skipsRedundancy in Hin. by rewrite Heq, Z.eqb_refl in Hin.
Qed.

(** X21: when the encoder returns a length, the buffer keeps its length,
    the returned length is inside it, and the bytes from the returned
    length on are the ones that were there before. *)
Theorem red_encoder_frame (redPkts : list Packet) (primary : Packet)
    (redPayload buf : list Z) (n : nat) :
  encodeRedForPrimary redPkts primary redPayload = (buf, inl n) ->
  length buf = length redPayload
  /\ (n <= length redPayload)%nat
  /\ drop n buf = drop n redPayload.
Proof.
  intros Henc.
  set (layout := redLayout primary (encodedRedPkts redPkts primary redPayload)).
  destruct (decide (length layout <= length redPayload)%nat) as [Hfit|Hlong].
  - rewrite encodeRedForPrimary_fits in Henc by done.
    injection Henc as <- <-. fold layout.
    split; [by apply length_splice|]. split; [done|].
    unfold splice. rewrite take_0. cbn [app Nat.add].
    by rewrite drop_app_length.
  - destruct (encodeRedForPrimary_too_long redPkts primary redPayload) as (_ & _ & e & He);
      [fold layout; lia|].
    rewrite Henc in He. done.
Qed.

(** X22: in the header of every redundancy block chosen by a receiver with
    a two-slot history, the 14-bit offset is the whole timestamp distance
    between the primary and the redundant packet, with nothing cut off;
    and the 10-bit block length is the length of the payload whenever that
    is below 1024. *)
Theorem red_header_lossless (r : RedReceiver) (pkt p : Packet) :
  length (pktBuff r) = maxRedCount ->
  nilsFirst (pktBuff r) = true ->
  p ∈ redundancyFor r pkt ->
  Z.land (Z.shiftr (redBlockHeader pkt p) 10) 16383
  = wrap_uint32 (Timestamp pkt - Timestamp p)
  /\ ((length (Payload p) < 1024)%nat ->
      Z.land (redBlockHeader pkt p) 1023 = Z.of_nat (length (Payload p))).
Proof.
  intros Hlen Hnil Hin. rewrite redundancyFor_filter in Hin by done.
  apply list_elem_of_In, filter_In in Hin as [_ Hw].
  rewrite redBlockHeader_word, <- (chosen_offset_exact pkt p Hw).
  pose proof (redHeaderWord_fields 1 opusPT (timestampOffset14 pkt p) (blockLength10 p)) as Hf.
  cbv zeta in Hf. destruct Hf as (_ & _ & _ & Hoff & Hblk).
  - lia.
  - unfold opusPT. lia.
  - unfold timestampOffset14. apply Z.mod_pos_bound. lia.
  - unfold blockLength10. apply Z.mod_pos_bound. lia.
  - split; [done|]. intros Hshort. rewrite Hblk. unfold blockLength10.
    apply Z.mod_small. lia.
Qed.
End RedStreamFacts.

Section RedLifecycleFacts.
Import redreceiver downtrackspreader.

(** X23: after [Close] the receiver is closed and can be closed, [Close]
    was called on the down tracks of the shadow slice in its order,
    [AddDownTrack] answers with the receiver-closed error and
    [DeleteDownTrack] does nothing, [ForwardRTP] forwards nothing and
    keeps the history, and closing again changes nothing. *)
Theorem red_receiver_close (d : RedDownTracks) :
  let d' := RedReceiver_Close d in
  IsClosed d' = true /\ CanClose d' = true
  /\ closedSenders d' = closedSenders d ++ GetDownTracks (downTrackSpreader d)
  /\ (forall track, RedReceiver_AddDownTrack d' track = (d', Some receiver.ErrReceiverClosed))
  /\ (forall id, RedReceiver_DeleteDownTrack d' id = d')
  /\ (forall r pkt, ForwardRTP (withDownTracks r d') pkt = (withDownTracks r d', None))
  /\ RedReceiver_Close d' = d'.
Proof.
  cbv zeta. unfold RedReceiver_Close, ResetAndGetDownTracks. cbn.
  rewrite app_nil_r. done.
Qed.

(** X24: [AddDownTrack] on an open receiver answers nil; afterwards the
    subscriber has a down track, the receiver cannot be closed, and
    [ForwardRTP] finds a down track to forward to; deleting the down track
    of a subscriber that had none before gives the former map back. *)
Theorem red_receiver_add_keeps_open (d : RedDownTracks) (track : TrackSender) :
  closed d = false ->
  let d' := fst (RedReceiver_AddDownTrack d track) in
  snd (RedReceiver_AddDownTrack d track) = None
  /\ CanClose d' = false
  /\ HasDownTrack (downTrackSpreader d') (SubscriberID track) = true
  /\ (forall r, downTrackCount (withDownTracks r d') ≠ 0%nat)
  /\ (HasDownTrack (downTrackSpreader d) (SubscriberID track) = false ->
      downTracks (downTrackSpreader (RedReceiver_DeleteDownTrack d' (SubscriberID track)))
      = downTracks (downTrackSpreader d)).
Proof.
  intros Hopen. cbv zeta. unfold RedReceiver_AddDownTrack, RedReceiver_DeleteDownTrack, CanClose.
  rewrite Hopen. cbn [fst snd closed downTrackSpreader orb withDownTracks downTrackCount].
  assert (Hcount : DownTrackCount (Store (downTrackSpreader d) track) ≠ 0%nat).
  { unfold DownTrackCount, Store, shadowDownTracks. cbn [downTracks downTracksShadow].
    rewrite length_fmap, length_map_to_list.
    intros Hz%map_size_empty_inv.
    apply (f_equal (fun m => m !! SubscriberID track)) in Hz.
    by rewrite lookup_insert_eq, lookup_empty in Hz. }
  split; [done|]. split; [by apply Nat.eqb_neq|]. split.
  { apply bool_decide_eq_true. unfold Store. cbn. rewrite lookup_insert_eq. by eexists. }
  split; [done|].
  intros Hno%bool_decide_eq_false. apply eq_None_not_Some in Hno.
  unfold Free, Store. cbn [downTracks shadowDownTracks downTrackSpreader].
  rewrite delete_insert_eq, delete_id; done.
Qed.
End RedLifecycleFacts.

Section RedStreamExamples.
Import redreceiver downtrackspreader MachineInt examples.
Local Open Scope Z_scope.

Lemma red_in_order_stream_witness :
  pktBuff (fst (forwardAll activeRedReceiver [opus1; opus2])) = [Some opus1; Some opus2]
  /\ redundancyFor (fst (forwardAll activeRedReceiver [opus1; opus2])) opus3 = [opus1; opus2].
Proof.
  assert (H1 : pktBuff activeRedReceiver = replicate maxRedCount None)
    by (vm_compute; reflexivity).
  assert (H2 : length (redPayloadBuf activeRedReceiver) = mtuSize) by (vm_compute; reflexivity).
  assert (H3 : downTrackCount activeRedReceiver ≠ 0%nat) by (vm_compute; discriminate).
  assert (H4 : inOrder ([] ++ [opus1; opus2; opus3]) = true) by (vm_compute; reflexivity).
  pose proof (red_in_order_stream activeRedReceiver [] opus1 opus2 opus3 H1 H2 H3 H4) as H.
  exact (conj (proj1 H) (proj1 (proj2 H))).
Defined.

Lemma red_late_packet_witness :
  pktBuff (fst (ForwardRTP afterOpus3 lateOpus)) = pktBuff afterOpus3
  /\ redundancyFor afterOpus3 lateOpus = [].
Proof.
  assert (H1 : pktBuff afterOpus3 = [Some opus2; Some opus3]) by (vm_compute; reflexivity).
  assert (H2 : length (redPayloadBuf afterOpus3) = mtuSize) by (vm_compute; reflexivity).
  assert (H3 : downTrackCount afterOpus3 ≠ 0%nat) by (vm_compute; discriminate).
  assert (H4 : moreRecent lateOpus opus2 = false) by (vm_compute; reflexivity).
  assert (H5 : moreRecent lateOpus opus3 = false) by (vm_compute; reflexivity).
  pose proof (red_late_packet afterOpus3 opus2 opus3 lateOpus H1 H2 H3 H4 H5) as H.
  exact (conj (proj1 H) (proj1 (proj2 H))).
Defined.

Lemma red_repeated_packet_witness :
  pktBuff (fst (ForwardRTP afterOpus3 opus3)) = [Some opus3; Some opus3].
Proof.
  assert (H1 : pktBuff afterOpus3 = [Some opus2; Some opus3]) by (vm_compute; reflexivity).
  assert (H2 : downTrackCount afterOpus3 ≠ 0%nat) by (vm_compute; discriminate).
  exact (proj1 (red_repeated_packet afterOpus3 (Some opus2) opus3 opus3 H1 H2 eq_refl)).
Defined.

Lemma red_encoder_frame_witness :
  drop 3 (fst (encodeRedForPrimary [] opus1 (replicate 8 0))) = drop 3 (replicate 8 0).
Proof.
  apply (red_encoder_frame [] opus1 (replicate 8 0)
           (fst (encodeRedForPrimary [] opus1 (replicate 8 0))) 3).
  vm_compute; reflexivity.
Defined.

Lemma red_header_lossless_witness :
  Z.land (Z.shiftr (redBlockHeader opus3 opus2) 10) 16383
  = wrap_uint32 (Timestamp opus3 - Timestamp opus2).
Proof.
  assert (H1 : length (pktBuff afterOpus2) = maxRedCount) by (vm_compute; reflexivity).
  assert (H2 : nilsFirst (pktBuff afterOpus2) = true) by (vm_compute; reflexivity).
  assert (H3 : opus2 ∈ redundancyFor afterOpus2 opus3).
  { apply list_elem_of_In. vm_compute. right. left. reflexivity. }
  exact (proj1 (red_header_lossless afterOpus2 opus3 opus2 H1 H2 H3)).
Defined.

Lemma red_receiver_add_keeps_open_witness :
  CanClose (fst (RedReceiver_AddDownTrack (mkRedDownTracks false NewDownTrackSpreader [])
                   aliceFirst)) = false.
Proof.
  apply (red_receiver_add_keeps_open (mkRedDownTracks false NewDownTrackSpreader [])
           aliceFirst).
  reflexivity.
Defined.

End RedStreamExamples.

(** ** The signal relay from end to end *)

Section RelayFacts.
Import routing MachineInt.
Local Open Scope Z_scope.

Context {Message : Type}.
Variable ch_WriteMessage : list Message -> Message -> option signalError.
Hypothesis ch_accepts : forall ch m, ch_WriteMessage ch m = None.

Lemma writeMessages_accepts (ch res : list Message) :
  writeMessages ch_WriteMessage ch res = (ch ++ res, None).
Proof.
  revert ch. induction res as [|m res IH]; intros ch; cbn [writeMessages].
  - by rewrite app_nil_r.
  - rewrite ch_accepts, IH. by rewrite <- app_assoc.
Qed.

(** The reader on a frame that starts [k] messages behind its counter. *)
Lemma Read_overlap (r : signalMessageReader) (msg : Frame Message) (k : nat) :
  0 <= Seq msg ->
  reader_seq r = Seq msg + Z.of_nat k ->
  (k <= length (Messages msg))%nat ->
  Seq msg + Z.of_nat (length (Messages msg)) < 2 ^ 63 ->
  Read signalResponseMessageReader_Read r msg
  = Returned (mkReader (Seq msg + Z.of_nat (length (Messages msg))))
      (inl (drop k (Messages msg))).
Proof.
  intros Hseq Hr Hk Hbound. unfold Read, signalResponseMessageReader_Read.
  destruct (Z.ltb_spec (reader_seq r) (Seq msg)); [lia|].
  assert (Hlen : Z.of_nat (length (drop k (Messages msg)))
                 = Z.of_nat (length (Messages msg)) - Z.of_nat k).
  { rewrite length_drop. lia. }
  destruct (Z.ltb_spec (Seq msg) (reader_seq r)) as [Hlt|Hge].
  - replace (reader_seq r - Seq msg) with (Z.of_nat k) by lia.
    unfold wrap_uint64. rewrite (Z.mod_small (Z.of_nat k)) by lia.
    unfold wrap_int64. rewrite (Z.mod_small (Z.of_nat k + 2 ^ 63)) by lia.
    replace (Z.of_nat k + 2 ^ 63 - 2 ^ 63) with (Z.of_nat k) by lia.
    destruct (Z.ltb_spec (Z.of_nat (length (Messages msg))) (Z.of_nat k)); [lia|].
    destruct (Z.ltb_spec (Z.of_nat k) 0); [lia|].
    rewrite Nat2Z.id. do 2 f_equal. rewrite Hlen, Z.mod_small; lia.
  - assert (k = 0%nat) as -> by lia. rewrite drop_0.
    unfold wrap_uint64. do 2 f_equal. rewrite Z.mod_small; lia.
Qed.

(** A frame of the sink that reaches a peer in step with it brings the
    peer's channel up to all the messages taken so far. *)
Lemma copyFrame_inv (M : list Message) (base : Z)
    (s : signalMessageSink Message) (c : messageCopier Message) :
  0 <= base -> base + Z.of_nat (length M) < 2 ^ 63 ->
  relayInv M base s c ->
  let c' := copyFrame ch_WriteMessage signalResponseMessageReader_Read c
              (Writer_Write (seq s) (draining s) (queue s)) in
  reader_seq (copierReader c') = base + Z.of_nat (length M)
  /\ channel c' = M
  /\ (copying c' = Copying
      \/ (copying c' = CopyReturned None /\ draining s = true)).
Proof.
  intros Hbase Hbound (ks & kr & Hs & Hr & Hk & Hq & Hch & Hst). cbv zeta.
  unfold copyFrame. destruct Hst as [Hc|(Hc & Hd & ->)]; rewrite Hc.
  - rewrite (Read_overlap _ _ (kr - ks)); cbn [Seq Messages Writer_Write Close].
    + rewrite writeMessages_accepts. cbn [copierReader channel copying].
      rewrite Hq, Hch, length_drop, drop_drop.
      replace (ks + (kr - ks))%nat with kr by lia. rewrite take_drop.
      cbn [reader_seq]. split; [lia|]. split; [done|].
      destruct (draining s); [by right|by left].
    + lia.
    + lia.
    + rewrite Hq, length_drop. lia.
    + rewrite Hq, length_drop. lia.
  - split; [done|]. split; [|by right].
    by rewrite Hch, firstn_all.
Qed.

(** One turn of the relay keeps the two ends in step, unless the sink
    gives up. *)
Lemma relay_step_inv (M : list Message) (base : Z)
    (s : signalMessageSink Message) (l : locals) (c : messageCopier Message)
    (t : turn Message) (reached : bool) :
  0 <= base -> base + Z.of_nat (length (M ++ enqueued t)) < 2 ^ 63 ->
  (draining s = true -> enqueued t = []) ->
  relayInv M base s c ->
  let c' :=
    match frameSent s t with
    | Some f =>
      if reachesPeer t reached then copyFrame ch_WriteMessage signalResponseMessageReader_Read c f else c
    | None => c
    end in
  match writeStep s l t with
  | Continue s' l' =>
      relayInv (M ++ enqueued t) base s' c' /\ draining s' = draining s || closeCalled t
  | Break s' l' =>
      (err l' = None -> relayInv M base s' c' \/ relayInv (M ++ enqueued t) base s' c')
      /\ (exists kr, (kr <= length (M ++ enqueued t))%nat
                     /\ channel c' = take kr (M ++ enqueued t))
      /\ (copying c' = Copying \/ copying c' = CopyReturned None)
  end.
Proof.
  intros Hbase Hbound Hquiet Hinv. cbv zeta.
  rewrite length_app in Hbound.
  assert (HboundM : base + Z.of_nat (length M) < 2 ^ 63) by lia.
  pose proof (copyFrame_inv M base s c Hbase HboundM Hinv) as Hcopy. cbv zeta in Hcopy.
  destruct Hinv as (ks & kr & Hs & Hr & Hk & Hq & Hch & Hst).
  assert (Hchan0 : exists kr, (kr <= length (M ++ enqueued t))%nat
                     /\ channel c = take kr (M ++ enqueued t)).
  { exists kr. rewrite length_app. split; [lia|]. by rewrite take_app_le by lia. }
  assert (Hst0 : copying c = Copying \/ copying c = CopyReturned None) by tauto.
  unfold frameSent, writeStep, sendsThisTurn, reachesPeer.
  destruct ((negb (draining s) && (length (queue s) =? 0)%nat) || streamClosed t) eqn:Htop;
    cbn [negb].
  { (* the loop ends at the top *)
    split; [|done]. intros _. left. exists ks, kr. done. }
  set (f := Writer_Write (seq s) (draining s) (queue s)) in *.
  destruct Hcopy as (Hr' & Hch' & Hst').
  assert (Hquiet' : kr = length M -> draining s = true ->
                    kr = length (M ++ enqueued t)).
  { intros -> Hd. rewrite (Hquiet Hd). by rewrite app_nil_r. }
  assert (Hlen : length (queue s) = (length M - ks)%nat) by (by rewrite Hq, length_drop).
  destruct (sendResult t) as [e|] eqn:Hres.
  - (* the send failed *)
    destruct (deadline l <? now t).
    + (* given up *)
      cbn [err]. split; [done|]. destruct reached; [|done].
      split; [|tauto]. exists (length M). rewrite length_app. split; [lia|].
      by rewrite Hch', take_app_length.
    + cbn [interfere withSend seq queue draining].
      split; [|done].
      destruct reached.
      * exists ks, (length M). cbn [interfere withSend seq queue draining]. rewrite length_app.
        split; [done|]. split; [done|]. split; [lia|]. split.
        { rewrite Hq. by rewrite drop_app_le by lia. }
        split; [by rewrite Hch', take_app_length|].
        destruct Hst' as [?|[? Hd]]; [by left|]. right.
        rewrite Hd. cbn [orb]. rewrite (Hquiet Hd), Nat.add_0_r. done.
      * exists ks, kr. cbn [interfere withSend seq queue draining]. rewrite length_app.
        split; [done|]. split; [done|]. split; [lia|]. split.
        { rewrite Hq. by rewrite drop_app_le by lia. }
        split; [by rewrite take_app_le by lia|].
        destruct Hst as [?|(? & Hd & ->)]; [by left|]. right.
        rewrite Hd. cbn [orb]. rewrite (Hquiet Hd), Nat.add_0_r. done.
  - (* the send succeeded *)
    cbn [interfere withSend withQueue seq queue draining Config].
    assert (Hinv' : relayInv (M ++ enqueued t) base
              (mkSink (Config s) (CloseOnFailure s) (BlockOnClose s)
                 (wrap_uint64 (seq s + Z.of_nat (length (queue s))))
                 (drop (length (queue s)) (queue s ++ enqueued t))
                 (writing s) (draining s || closeCalled t)
                 (sends s ++ [(f, interval l)]) (closes s))
              (copyFrame ch_WriteMessage signalResponseMessageReader_Read c f)).
    { exists (length M), (length M). cbn [seq queue draining]. rewrite length_app.
      split.
      { unfold wrap_uint64. rewrite Z.mod_small; lia. }
      split; [done|]. split; [lia|]. split.
      { by rewrite drop_app_length, drop_app_length. }
      split; [by rewrite Hch', take_app_length|].
      destruct Hst' as [?|[? Hd]]; [by left|]. right.
      rewrite Hd. cbn [orb]. rewrite (Hquiet Hd), Nat.add_0_r. done. }
    destruct (draining s) eqn:Hd in |- *.
    + cbn [err]. split; [intros _; right; exact Hinv'|]. split; [|tauto].
      exists (length M). rewrite length_app. split; [lia|].
      by rewrite Hch', take_app_length.
    + split; [exact Hinv'|]. cbn [withQueue interfere withSend draining]. by rewrite Hd.
Qed.

Lemma quietAfterClose_head (d : bool) (t : turn Message) (reached : bool)
    (ts : list (turn Message * bool)) :
  quietAfterClose d ((t, reached) :: ts) = true ->
  (d = true -> enqueued t = []) /\ quietAfterClose (d || closeCalled t) ts = true.
Proof.
  cbn [quietAfterClose]. rewrite andb_true_iff, orb_true_iff, negb_true_iff, Nat.eqb_eq.
  intros [Hq Hrest]. split; [|done]. intros ->. destruct Hq as [?|Hl]; [done|].
  by apply nil_length_inv.
Qed.

Lemma relay_inv (base : Z) (ts : list (turn Message * bool)) (M : list Message)
    (s : signalMessageSink Message) (l : locals) (c : messageCopier Message) :
  0 <= base -> base + Z.of_nat (length (M ++ offered ts)) < 2 ^ 63 ->
  quietAfterClose (draining s) ts = true ->
  relayInv M base s c ->
  exists M',
    M' `prefix_of` M ++ offered ts
    /\ (forall s' l',
          fst (relay ch_WriteMessage s l c ts) = Continue s' l'
          \/ (fst (relay ch_WriteMessage s l c ts) = Break s' l' /\ err l' = None) ->
          relayInv M' base s' (snd (relay ch_WriteMessage s l c ts)))
    /\ (exists kr, (kr <= length M')%nat
                   /\ channel (snd (relay ch_WriteMessage s l c ts)) = take kr M')
    /\ (copying (snd (relay ch_WriteMessage s l c ts)) = Copying
        \/ copying (snd (relay ch_WriteMessage s l c ts)) = CopyReturned None).
Proof.
  intros Hbase. revert M s l c.
  induction ts as [|[t reached] ts IH]; intros M s l c Hbound Hquiet Hinv.
  - exists M. cbn [relay fst snd offered flat_map]. rewrite app_nil_r.
    split; [done|]. split.
    { intros s' l' [[= <- <-]|[? _]]; done. }
    destruct Hinv as (ks & kr & _ & _ & Hk & _ & Hch & Hst).
    split; [exists kr; split; [lia|done]|tauto].
  - apply quietAfterClose_head in Hquiet as [Hq Hrest].
    change (offered ((t, reached) :: ts)) with (enqueued t ++ offered ts) in *.
    rewrite app_assoc in Hbound |- *.
    assert (Hb1 : base + Z.of_nat (length (M ++ enqueued t)) < 2 ^ 63).
    { rewrite length_app in Hbound. lia. }
    pose proof (relay_step_inv M base s l c t reached Hbase Hb1 Hq Hinv) as Hstep.
    cbv zeta in Hstep. cbn [relay].
    destruct (writeStep s l t) as [s1 l1|s1 l1].
    + destruct Hstep as [Hinv1 Hd1]. rewrite <- Hd1 in Hrest.
      destruct (IH (M ++ enqueued t) s1 l1 _ Hbound Hrest Hinv1) as (M' & Hpre & Hrest').
      exists M'. done.
    + cbn [fst snd]. destruct Hstep as (Hinv1 & (kr & Hkr & Hch) & Hst).
      destruct (decide (err l1 = None)) as [Herr|Herr].
      * destruct (Hinv1 Herr) as [Hi|Hi].
        -- exists M. split; [by apply prefix_app_r, prefix_app_r|].
           split; [intros s' l' [?|[[= <- <-] _]]; done|].
           destruct Hi as (ks' & kr' & _ & _ & Hk' & _ & Hch' & _).
           split; [exists kr'; split; [lia|done]|done].
        -- exists (M ++ enqueued t). split; [by apply prefix_app_r|].
           split; [intros s' l' [?|[[= <- <-] _]]; done|].
           split; [by exists kr|done].
      * exists (M ++ enqueued t). split; [by apply prefix_app_r|].
        split; [intros s' l' [?|[[= <- <-] ?]]; done|].
        split; [by exists kr|done].
Qed.

(** X25: the writer loop of the sink and the copy loop of the peer, joined
    by a stream that hands the frames over in the order sent, a frame of a
    failed send reaching the peer or not.  When the peer's counter is the
    sink's, the message channel is empty and accepts what is written, and
    the counters stay below 2^63, then whatever the sends answer the copy
    loop never stops on an error or a panic (no frame is found ahead of
    the counter), and the channel holds a prefix of the messages given to
    the sink, in their order, none twice although whole queues are sent
    again; and as long as the sink has not given up, every message its
    counter has moved past is in the channel. *)
Theorem relay_delivers_in_order (s : signalMessageSink Message) (l : locals)
    (c : messageCopier Message) (ts : list (turn Message * bool)) :
  copying c = Copying ->
  channel c = [] ->
  reader_seq (copierReader c) = seq s ->
  0 <= seq s ->
  seq s + Z.of_nat (length (queue s ++ offered ts)) < 2 ^ 63 ->
  quietAfterClose (draining s) ts = true ->
  let step := fst (relay ch_WriteMessage s l c ts) in
  let c' := snd (relay ch_WriteMessage s l c ts) in
  (copying c' = Copying \/ copying c' = CopyReturned None)
  /\ channel c' `prefix_of` queue s ++ offered ts
  /\ (forall s' l',
        step = Continue s' l' \/ (step = Break s' l' /\ err l' = None) ->
        seq s <= seq s'
        /\ seq s' - seq s <= Z.of_nat (length (channel c'))
        /\ take (Z.to_nat (seq s' - seq s)) (channel c') ++ queue s'
           `prefix_of` queue s ++ offered ts).
Proof.
  intros Hc Hch Hr Hseq Hbound Hquiet. cbv zeta.
  assert (Hinv : relayInv (queue s) (seq s) s c).
  { exists 0%nat, 0%nat. rewrite Hr, Hch. repeat split; try done; try lia. by left. }
  destruct (relay_inv (seq s) ts (queue s) s l c Hseq Hbound Hquiet Hinv)
    as (M' & Hpre & Hfin & (kr & Hkr & Hchan) & Hst).
  split; [done|]. split.
  { rewrite Hchan. etrans; [apply prefix_take|done]. }
  intros s' l' Hstep. destruct (Hfin s' l' Hstep) as (ks' & kr' & Hs' & _ & Hk' & Hq' & Hch' & _).
  rewrite Hs', Hch', Hq'. replace (seq s + Z.of_nat ks' - seq s) with (Z.of_nat ks') by lia.
  rewrite Nat2Z.id, length_take. split; [lia|]. split; [lia|].
  rewrite take_take. replace (ks' `min` kr')%nat with ks' by lia.
  by rewrite take_drop.
Qed.
End RelayFacts.

Section SinkLifecycleFacts.
Import routing MachineInt.
Local Open Scope Z_scope.

Context {Message : Type}.
Variable ch_WriteMessage : list Message -> Message -> option signalError.

Lemma writeStep_writing (s : signalMessageSink Message) (l : locals) (t : turn Message) :
  match writeStep s l t with
  | Continue s' l' | Break s' l' => writing s' = writing s /\ CloseOnFailure s' = CloseOnFailure s
  end.
Proof.
  unfold writeStep.
  destruct (_ || _); [done|].
  destruct (sendResult t); [destruct (_ <? _); done|].
  destruct (draining s); done.
Qed.

Lemma writeExit_writing (s : signalMessageSink Message) (l : locals) :
  writing (writeExit s l) = false.
Proof.
  unfold writeExit. cbn [withWriting draining CloseOnFailure].
  destruct (draining s), (bool_decide _ && _); reflexivity.
Qed.

(** X26: [WriteMessage] and [Close] run a writer only when none is
    running, and leave the sink marked as writing; a message that is
    accepted goes to the end of the queue; a refused one changes nothing.
    After [Close] every [WriteMessage] is refused, whatever the stream
    says, and a second [Close] runs no writer.  And whenever the writer
    loop ends, the sink is no longer marked as writing. *)
Theorem sink_single_writer (s : signalMessageSink Message) :
  (forall streamErr msg,
     let '(s', e, started) := signalMessageSink_WriteMessage s streamErr msg in
     (started = true -> writing s = false)
     /\ (e = None ->
         writing s' = true /\ queue s' = queue s ++ [msg] /\ seq s' = seq s
         /\ draining s = false /\ streamErr = None)
     /\ (e <> None -> s' = s /\ started = false))
  /\ (let (s', started) := signalMessageSink_Close s in
      started = negb (writing s) /\ writing s' = true /\ draining s' = true
      /\ queue s' = queue s /\ seq s' = seq s)
  /\ (forall msg streamErr,
        exists e, signalMessageSink_WriteMessage (fst (signalMessageSink_Close s)) streamErr msg
                  = (fst (signalMessageSink_Close s), Some e, false))
  /\ snd (signalMessageSink_Close (fst (signalMessageSink_Close s))) = false
  /\ (forall start ts s', write s start ts = Some s' -> writing s' = false).
Proof.
  split; [|split; [|split; [|split]]].
  - intros streamErr msg. unfold signalMessageSink_WriteMessage.
    destruct streamErr as [e|]; [cbv beta iota; by repeat split|].
    destruct (draining s) eqn:Hd; [cbv beta iota; by repeat split|]. cbn [withQueue writing].
    destruct (writing s) eqn:Hw; cbn [withWriting withQueue writing queue seq];
      cbv beta iota; by repeat split.
  - unfold signalMessageSink_Close. cbn [withDraining writing].
    destruct (writing s) eqn:Hw; cbn; rewrite ?Hw; by repeat split.
  - intros msg streamErr. unfold signalMessageSink_Close, signalMessageSink_WriteMessage.
    cbn [withDraining writing].
    destruct streamErr as [e|]; [by eexists|].
    destruct (writing s); cbn; by eexists.
  - unfold signalMessageSink_Close. cbn [withDraining writing].
    destruct (writing s) eqn:Hw; cbn; by rewrite ?Hw.
  - intros start ts s'. unfold write.
    generalize (mkLocals (MinRetryInterval (Config s)) (start + RetryTimeout (Config s)) None).
    revert s. induction ts as [|t ts IH]; intros s l; [done|].
    cbn [writeLoop]. destruct (writeStep s l t) as [s1 l1|s1 l1].
    + apply IH.
    + intros [= <-]. apply writeExit_writing.
Qed.

(** X27: [Close] on a sink without a running writer runs one; if its send
    succeeds on an open stream, it has sent one frame, with the close flag,
    the sink's counter and the whole queue (also when the queue is empty),
    with the minimal retry interval as timeout, and has then closed the
    stream with a nil cause, once; the queue is empty and the counter has
    moved past it. *)
Theorem sink_close_flushes (s : signalMessageSink Message) (start : Z) (t : turn Message) :
  writing s = false ->
  streamClosed t = false ->
  sendResult t = None ->
  enqueued t = [] ->
  snd (signalMessageSink_Close s) = true
  /\ exists s',
       write (fst (signalMessageSink_Close s)) start [t] = Some s'
       /\ sends s' = sends s ++ [(mkFrame (seq s) true (queue s), MinRetryInterval (Config s))]
       /\ closes s' = closes s ++ [None]
       /\ queue s' = []
       /\ seq s' = wrap_uint64 (seq s + Z.of_nat (length (queue s)))
       /\ writing s' = false.
Proof.
  intros Hw Hopen Hres Henq. unfold signalMessageSink_Close. cbn [withDraining writing].
  rewrite Hw. cbn [fst snd]. split; [done|].
  unfold write, writeLoop, writeStep.
  cbn [withWriting withDraining draining queue seq Config negb andb orb].
  rewrite Hopen, Hres, Henq. cbn [interfere withSend withQueue queue seq draining Config].
  eexists. split; [reflexivity|].
  unfold writeExit.
  cbn [withWriting withClose draining err CloseOnFailure sends closes queue seq writing].
  rewrite bool_decide_eq_false_2 by (intros H; by apply H). cbn [andb sends closes queue seq writing].
  rewrite app_nil_r, drop_all. done.
Qed.

Lemma copyFrame_channel (reader : Frame Message -> list Message + signalError)
    (c : messageCopier Message) (msg : Frame Message) :
  channel c `prefix_of` channel (copyFrame ch_WriteMessage reader c msg).
Proof.
  assert (Hw : forall res ch, ch `prefix_of` fst (writeMessages ch_WriteMessage ch res)).
  { induction res as [|m res IH]; intros ch; cbn [writeMessages]; [done|].
    destruct (ch_WriteMessage ch m); [done|].
    etrans; [|apply IH]. by apply prefix_app_r. }
  unfold copyFrame. destruct (copying c); [|done..].
  destruct (Read reader (copierReader c) msg) as [r [res|e]|]; [|done..].
  specialize (Hw res (channel c)).
  destruct (writeMessages ch_WriteMessage (channel c) res) as [ch [e|]]; done.
Qed.

(** X28: the copy loop only ever appends to the message channel; once it
    has returned or panicked, no later frame changes anything; and a frame
    ahead of the reader's counter makes it return
    [ErrSignalMessageDropped] with the channel as it was. *)
Theorem copy_loop_stops (reader : Frame Message -> list Message + signalError)
    (c : messageCopier Message) (frames : list (Frame Message)) :
  channel c `prefix_of` channel (fold_left (copyFrame ch_WriteMessage reader) frames c)
  /\ (copying c <> Copying ->
      fold_left (copyFrame ch_WriteMessage reader) frames c = c)
  /\ (forall msg res,
        copying c = Copying -> reader msg = inl res ->
        reader_seq (copierReader c) < Seq msg ->
        copyFrame ch_WriteMessage reader c msg
        = mkCopier (copierReader c) (channel c) (CopyReturned (Some ErrSignalMessageDropped))).
Proof.
  split; [|split].
  - revert c. induction frames as [|f frames IH]; intros c; [done|].
    cbn [fold_left]. etrans; [apply (copyFrame_channel reader c f)|apply IH].
  - intros Hret. induction frames as [|f frames IH]; [done|].
    cbn [fold_left]. unfold copyFrame at 2. destruct (copying c); done.
  - intros msg res Hc Hr Hgap. unfold copyFrame, Read. rewrite Hc, Hr.
    destruct (Z.ltb_spec (reader_seq (copierReader c)) (Seq msg)); [done|lia].
Qed.
End SinkLifecycleFacts.

Section RelayExamples.
Import routing MachineInt examples.
Local Open Scope Z_scope.

(** Three queued messages: the first send times out although the frame
    reached the peer, the second send repeats the queue with a fourth
    message and goes through.  The peer's channel holds each message
    once. *)
Example relay_retry_scenario :
  channel (snd (relay (fun _ _ => None) closingSink (mkLocals 500000000 7500000000 None)
                  (mkCopier (mkReader 0) [] Copying)
                  [(lostAck, true); (success, false); (idle, false)]))
  = [1; 2; 3; 4].
Proof. reflexivity. Qed.

Lemma relay_delivers_in_order_witness :
  channel (snd (relay (fun _ _ => None) closingSink (mkLocals 500000000 7500000000 None)
                  (mkCopier (mkReader 0) [] Copying)
                  [(lostAck, true); (success, false); (idle, false)]))
  `prefix_of` queue closingSink ++ offered [(lostAck, true); (success, false); (idle, false)].
Proof.
  apply (relay_delivers_in_order (fun _ _ => None) (fun _ _ => eq_refl) closingSink
           (mkLocals 500000000 7500000000 None) (mkCopier (mkReader 0) [] Copying)
           [(lostAck, true); (success, false); (idle, false)]).
  - reflexivity.
  - reflexivity.
  - reflexivity.
  - simpl; lia.
  - vm_compute; reflexivity.
  - reflexivity.
Defined.

Lemma sink_close_flushes_witness :
  exists s',
    write (fst (signalMessageSink_Close idleSink)) 0 [success] = Some s'
    /\ sends s' = sends idleSink ++ [(mkFrame (seq idleSink) true (queue idleSink),
                                      MinRetryInterval (Config idleSink))]
    /\ closes s' = closes idleSink ++ [None]
    /\ queue s' = []
    /\ seq s' = wrap_uint64 (seq idleSink + Z.of_nat (length (queue idleSink)))
    /\ writing s' = false.
Proof.
  apply (sink_close_flushes idleSink 0 success).
  - reflexivity.
  - reflexivity.
  - reflexivity.
  - reflexivity.
Defined.

End RelayExamples.
